(** * SpaceShooterGame: the simulation core, embedded and verified

    The development follows the TypeScript sources:
    - [types/GameTypes.ts]            the data model,
    - [engine/CollisionDetection.ts]  the AABB test,
    - [engine/PhysicsEngine.ts]       integration, containment, culling,
    - [engine/EnemySpawner.ts]        the wave state machine,
    - [engine/PowerUpSpawner.ts]      the timed pickup spawner,
    - [engine/GameEngine.ts]          commands and the per-frame pipeline.

    A JavaScript [number] is read as an exact rational ([Q], compared with
    [==]), except where the code takes [Math.floor] of a product of doubles
    (the enemy statistics): there the rounding decides the integer, and the
    product is computed in IEEE binary64.  The host's clock, random source
    and sound output are an explicit [World] threaded through a small state
    monad; the transcendental part of [Math] is an interface ([MathLib]) the
    physics code is generic in. *)

From Stdlib Require Import ZArith QArith Qround Qminmax Qabs List String Bool Lia Lqa.
From Stdlib Require Import PrimFloat SpecFloat FloatOps.
Import ListNotations.
Local Open Scope Q_scope.

(** ** Numbers and their JavaScript operators *)

Definition number := Q.

Definition Qltb (a b : number) : bool := negb (Qle_bool b a).
Definition Qgtb (a b : number) : bool := Qltb b a.
Definition Qgeb (a b : number) : bool := Qle_bool b a.

Notation "a <? b" := (Qltb a b) (at level 70, no associativity) : Q_scope.
Notation "a >? b" := (Qgtb a b) (at level 70, no associativity) : Q_scope.
Notation "a <=? b" := (Qle_bool a b) (at level 70, no associativity) : Q_scope.
Notation "a >=? b" := (Qgeb a b) (at level 70, no associativity) : Q_scope.
Notation "a =? b" := (Qeq_bool a b) (at level 70, no associativity) : Q_scope.

Definition Math_floor (a : number) : number := inject_Z (Qfloor a).
Definition Math_min (a b : number) : number := Qmin a b.
Definition Math_max (a b : number) : number := Qmax a b.
(** *** Doubles, where the rounding shows

    An integer as the double nearest to it (itself up to 2^53), and
    [Math.floor] of a double as a number.  A finite double is
    [(-1)^s * m * 2^e]; the floor of a negative one is the arithmetic shift.
    [Infinity] and [NaN] have no counterpart in [number]; a product of the
    statistics reaches them only for a wave count beyond 10^300. *)
Definition double_of_Z (z : Z) : float :=
  SF2Prim (binary_normalize prec emax z 0 false).

Definition floor_of_double (x : float) : Z :=
  match Prim2SF x with
  | S754_finite s m e =>
      let v := if s then Z.neg m else Z.pos m in
      if (0 <=? e)%Z then (v * 2 ^ e)%Z else Z.shiftr v (- e)
  | _ => 0%Z
  end.

Definition Math_floor_double (x : float) : number := inject_Z (floor_of_double x).

(** The part of [Math] that has no exact rational counterpart. *)
Class MathLib := {
  Math_sin : number -> number;
  Math_cos : number -> number;
  Math_sqrt : number -> number;
  Math_atan2 : number -> number -> number;
  Math_PI : number
}.

(** ** The host: clock, random source, sound output *)

Inductive SoundCue :=
  | ShootSound (weapon : string)
  | ExplosionSound
  | PowerUpSound.

(** [Date.now()] and [Math.random()] are oracles: the n-th read returns the
    n-th value of the sequence.  Sound requests are appended to a log. *)
Record World := mkWorld {
  clock : nat -> number;
  clockReads : nat;
  entropy : nat -> number;
  entropyReads : nat;
  cues : list SoundCue
}.

Definition IO (A : Type) : Type := World -> A * World.

Definition ret {A} (a : A) : IO A := fun w => (a, w).

Definition bind {A B} (m : IO A) (k : A -> IO B) : IO B :=
  fun w => let (a, w') := m w in k a w'.

Declare Scope io_scope.
Delimit Scope io_scope with io.
Notation "x <- m ;; k" := (bind m (fun x => k))
  (at level 61, m at next level, right associativity) : io_scope.
Notation "' pat <- m ;; k" := (bind m (fun x => match x with pat => k end))
  (at level 61, pat pattern, m at next level, right associativity) : io_scope.
Notation "m ;;; k" := (bind m (fun _ => k))
  (at level 61, right associativity) : io_scope.
Local Open Scope io_scope.

Definition Date_now : IO number :=
  fun w => (clock w (clockReads w),
            mkWorld (clock w) (S (clockReads w)) (entropy w) (entropyReads w) (cues w)).

Definition Math_random : IO number :=
  fun w => (entropy w (entropyReads w),
            mkWorld (clock w) (clockReads w) (entropy w) (S (entropyReads w)) (cues w)).

Definition playSound (c : SoundCue) : IO unit :=
  fun w => (tt, mkWorld (clock w) (clockReads w) (entropy w) (entropyReads w)
                        (cues w ++ [c])).

(** ** Data model (types/GameTypes.ts) *)

(** An id is either a caller-supplied string or a template literal
    [`prefix_${Date.now()}_${Math.random()}`], kept structured. *)
Inductive ident :=
  | Literal (s : string)
  | Stamped (prefix : string) (time : number) (nonce : number).

Definition ident_eqb (a b : ident) : bool :=
  match a, b with
  | Literal s, Literal t => String.eqb s t
  | Stamped p t n, Stamped p' t' n' => String.eqb p p' && (t =? t') && (n =? n')
  | _, _ => false
  end.

Record Position := mkPosition { pos_x : number; pos_y : number }.
Record Velocity := mkVelocity { vel_x : number; vel_y : number }.
Record Size := mkSize { width : number; height : number }.

Record GameObject := mkGameObject {
  id : ident;
  position : Position;
  velocity : Velocity;
  size : Size;
  rotation : number;
  health : number;
  maxHealth : number;
  isActive : bool
}.

Inductive WeaponType := BASIC_WEAPON | RAPID_FIRE | SPREAD_SHOT | LASER_WEAPON | MISSILE.
Inductive EnemyType := BASIC | FAST | HEAVY | BOSS.
Inductive BulletType :=
  | PLAYER_BASIC | PLAYER_RAPID | PLAYER_LASER | ENEMY_BASIC | ENEMY_HEAVY
  | NORMAL | LASER | PLASMA.
Inductive PowerUpType := HEALTH | WEAPON_UPGRADE | SHIELD | SPEED_BOOST | SCORE_MULTIPLIER.
Inductive AttackPattern := STRAIGHT | ZIGZAG | CIRCULAR | HOMING.
Inductive GameStatus := MENU | PLAYING | PAUSED | GAME_OVER | VICTORY | WAITING_FOR_PLAYERS.
Inductive DifficultyLevel := EASY | MEDIUM | HARD | EXPERT.

(** The string values of the enums the code inspects as strings. *)
Definition weaponTypeValue (t : WeaponType) : string :=
  match t with
  | BASIC_WEAPON => "basic" | RAPID_FIRE => "rapidFire" | SPREAD_SHOT => "spreadShot"
  | LASER_WEAPON => "laser" | MISSILE => "missile"
  end.

Definition bulletTypeValue (t : BulletType) : string :=
  match t with
  | PLAYER_BASIC => "playerBasic" | PLAYER_RAPID => "playerRapid"
  | PLAYER_LASER => "playerLaser" | ENEMY_BASIC => "enemyBasic"
  | ENEMY_HEAVY => "enemyHeavy" | NORMAL => "normal" | LASER => "laser"
  | PLASMA => "plasma"
  end.

Definition startsWith (s pre : string) : bool := String.prefix pre s.

Record PowerUpEffect := mkPowerUpEffect {
  effect_type : PowerUpType;
  effect_value : number;
  effect_duration : number
}.

Record PowerUp := mkPowerUp {
  powerUp_obj :> GameObject;
  powerUpType : PowerUpType;
  powerUp_duration : number;
  effect : PowerUpEffect
}.

Record Player := mkPlayer {
  player_obj :> GameObject;
  playerId : string;
  playerName : string;
  player_score : number;
  lives : number;
  weaponType : WeaponType;
  powerUps_held : list PowerUp;
  isLocalPlayer : bool
}.

(** [lastShotTime] is the field the physics code adds to an enemy at run
    time; [None] is [undefined]. *)
Record Enemy := mkEnemy {
  enemy_obj :> GameObject;
  enemyType : EnemyType;
  enemy_damage : number;
  points : number;
  attackPattern : AttackPattern;
  lastShotTime : option number
}.

(** [isPlayerBullet] is absent ([None]) on bullets made by the physics code. *)
Record Bullet := mkBullet {
  bullet_obj :> GameObject;
  bullet_damage : number;
  ownerId : ident;
  bulletType : BulletType;
  isPlayerBullet : option bool
}.

Record Explosion := mkExplosion {
  explosion_id : ident;
  explosion_position : Position;
  explosion_size : Size;
  duration : number;
  currentFrame : number;
  animationProgress : number
}.

Record GameState := mkGameState {
  players : list Player;
  enemies : list Enemy;
  bullets : list Bullet;
  powerUps : list PowerUp;
  explosions : list Explosion;
  score : number;
  level : number;
  wave : number;
  enemiesKilled : number;
  powerUpsCollected : number;
  accuracy : number;
  gameStatus : GameStatus;
  isPaused : bool;
  timeElapsed : number;
  isMultiplayer : bool;
  roomId : option string
}.

Record GameConfig := mkGameConfig {
  screenWidth : number;
  screenHeight : number;
  playerSpeed : number;
  bulletSpeed : number;
  enemySpeed : number;
  spawnRate : number;
  difficulty : DifficultyLevel
}.

(** *** In-place field updates *)

Definition set_position (o : GameObject) (p : Position) : GameObject :=
  mkGameObject (id o) p (velocity o) (size o) (rotation o) (health o) (maxHealth o) (isActive o).
Definition set_velocity (o : GameObject) (v : Velocity) : GameObject :=
  mkGameObject (id o) (position o) v (size o) (rotation o) (health o) (maxHealth o) (isActive o).
Definition set_rotation (o : GameObject) (r : number) : GameObject :=
  mkGameObject (id o) (position o) (velocity o) (size o) r (health o) (maxHealth o) (isActive o).
Definition set_health (o : GameObject) (h : number) : GameObject :=
  mkGameObject (id o) (position o) (velocity o) (size o) (rotation o) h (maxHealth o) (isActive o).
Definition set_isActive (o : GameObject) (a : bool) : GameObject :=
  mkGameObject (id o) (position o) (velocity o) (size o) (rotation o) (health o) (maxHealth o) a.

(** Every entity kind extends [GameObject]. *)
Class Entity (T : Type) := {
  obj : T -> GameObject;
  withObj : T -> GameObject -> T
}.

#[export] Instance GameObject_Entity : Entity GameObject :=
  {| obj := fun o => o; withObj := fun _ o => o |}.
#[export] Instance Player_Entity : Entity Player :=
  {| obj := player_obj;
     withObj := fun p o => mkPlayer o (playerId p) (playerName p) (player_score p)
                             (lives p) (weaponType p) (powerUps_held p) (isLocalPlayer p) |}.
#[export] Instance Enemy_Entity : Entity Enemy :=
  {| obj := enemy_obj;
     withObj := fun e o => mkEnemy o (enemyType e) (enemy_damage e) (points e)
                             (attackPattern e) (lastShotTime e) |}.
#[export] Instance Bullet_Entity : Entity Bullet :=
  {| obj := bullet_obj;
     withObj := fun b o => mkBullet o (bullet_damage b) (ownerId b) (bulletType b)
                             (isPlayerBullet b) |}.
#[export] Instance PowerUp_Entity : Entity PowerUp :=
  {| obj := powerUp_obj;
     withObj := fun u o => mkPowerUp o (powerUpType u) (powerUp_duration u) (effect u) |}.

(** A function that mutates a [GameObject], called on an entity of any kind. *)
Definition mutate {T} `{Entity T} (f : GameObject -> GameObject) (o : T) : T :=
  withObj o (f (obj o)).

Definition set_lives (p : Player) (n : number) : Player :=
  mkPlayer (player_obj p) (playerId p) (playerName p) (player_score p) n
           (weaponType p) (powerUps_held p) (isLocalPlayer p).
Definition set_lastShotTime (e : Enemy) (t : option number) : Enemy :=
  mkEnemy (enemy_obj e) (enemyType e) (enemy_damage e) (points e) (attackPattern e) t.

(** ** CollisionDetection.ts *)

Module CollisionDetection.

Definition checkAABBCollision (pos1 : Position) (size1 : Size)
                              (pos2 : Position) (size2 : Size) : bool :=
  let left1 := pos_x pos1 - width size1 / 2 in
  let right1 := pos_x pos1 + width size1 / 2 in
  let top1 := pos_y pos1 - height size1 / 2 in
  let bottom1 := pos_y pos1 + height size1 / 2 in
  let left2 := pos_x pos2 - width size2 / 2 in
  let right2 := pos_x pos2 + width size2 / 2 in
  let top2 := pos_y pos2 - height size2 / 2 in
  let bottom2 := pos_y pos2 + height size2 / 2 in
  (left1 <? right2) && (right1 >? left2) && (top1 <? bottom2) && (bottom1 >? top2).

Definition checkCollision (obj1 obj2 : GameObject) : bool :=
  if negb (isActive obj1) || negb (isActive obj2) then false
  else checkAABBCollision (position obj1) (size obj1) (position obj2) (size obj2).

Definition checkPointCollision (point : Position) (obj : GameObject) : bool :=
  if negb (isActive obj) then false
  else
    let left := pos_x (position obj) - width (size obj) / 2 in
    let right := pos_x (position obj) + width (size obj) / 2 in
    let top := pos_y (position obj) - height (size obj) / 2 in
    let bottom := pos_y (position obj) + height (size obj) / 2 in
    (pos_x point >=? left) && (pos_x point <=? right) &&
    (pos_y point >=? top) && (pos_y point <=? bottom).

(** [margin] is an optional parameter with default 50. *)
Definition isWithinBounds (obj : GameObject) (screenWidth screenHeight : number)
                          (margin : option number) : bool :=
  let margin := match margin with Some m => m | None => 50 end in
  (pos_x (position obj) >? - margin) &&
  (pos_x (position obj) <? screenWidth + margin) &&
  (pos_y (position obj) >? - margin) &&
  (pos_y (position obj) <? screenHeight + margin).






Section WithMath.
Context {math : MathLib}.

Definition checkCircularCollision (pos1 : Position) (radius1 : number)
                                  (pos2 : Position) (radius2 : number) : bool :=
  let dx := pos_x pos1 - pos_x pos2 in
  let dy := pos_y pos1 - pos_y pos2 in
  let distance := Math_sqrt (dx * dx + dy * dy) in
  distance <? radius1 + radius2.

(** Of its two objects [getDistance] reads the positions only. *)
Definition getDistance (pos1 pos2 : Position) : number :=
  let dx := pos_x pos1 - pos_x pos2 in
  let dy := pos_y pos1 - pos_y pos2 in
  Math_sqrt (dx * dx + dy * dy).

(** The centre is handed to [getDistance] as [{ position: center }]. *)
Definition getObjectsInRadius {T} `{Entity T} (objects : list T) (center : Position)
                              (radius : number) : list T :=
  filter (fun o => if negb (isActive (obj o)) then false
                   else getDistance center (position (obj o)) <=? radius)
         objects.

End WithMath.

End CollisionDetection.

(** *** Whole-collection updates of the game state *)

Definition set_players (gs : GameState) (l : list Player) : GameState :=
  mkGameState l (enemies gs) (bullets gs) (powerUps gs) (explosions gs) (score gs)
    (level gs) (wave gs) (enemiesKilled gs) (powerUpsCollected gs) (accuracy gs)
    (gameStatus gs) (isPaused gs) (timeElapsed gs) (isMultiplayer gs) (roomId gs).
Definition set_enemies (gs : GameState) (l : list Enemy) : GameState :=
  mkGameState (players gs) l (bullets gs) (powerUps gs) (explosions gs) (score gs)
    (level gs) (wave gs) (enemiesKilled gs) (powerUpsCollected gs) (accuracy gs)
    (gameStatus gs) (isPaused gs) (timeElapsed gs) (isMultiplayer gs) (roomId gs).
Definition set_bullets (gs : GameState) (l : list Bullet) : GameState :=
  mkGameState (players gs) (enemies gs) l (powerUps gs) (explosions gs) (score gs)
    (level gs) (wave gs) (enemiesKilled gs) (powerUpsCollected gs) (accuracy gs)
    (gameStatus gs) (isPaused gs) (timeElapsed gs) (isMultiplayer gs) (roomId gs).
Definition set_powerUps (gs : GameState) (l : list PowerUp) : GameState :=
  mkGameState (players gs) (enemies gs) (bullets gs) l (explosions gs) (score gs)
    (level gs) (wave gs) (enemiesKilled gs) (powerUpsCollected gs) (accuracy gs)
    (gameStatus gs) (isPaused gs) (timeElapsed gs) (isMultiplayer gs) (roomId gs).
Definition set_explosions (gs : GameState) (l : list Explosion) : GameState :=
  mkGameState (players gs) (enemies gs) (bullets gs) (powerUps gs) l (score gs)
    (level gs) (wave gs) (enemiesKilled gs) (powerUpsCollected gs) (accuracy gs)
    (gameStatus gs) (isPaused gs) (timeElapsed gs) (isMultiplayer gs) (roomId gs).
Definition set_score (gs : GameState) (s : number) : GameState :=
  mkGameState (players gs) (enemies gs) (bullets gs) (powerUps gs) (explosions gs) s
    (level gs) (wave gs) (enemiesKilled gs) (powerUpsCollected gs) (accuracy gs)
    (gameStatus gs) (isPaused gs) (timeElapsed gs) (isMultiplayer gs) (roomId gs).
Definition set_gameStatus (gs : GameState) (s : GameStatus) : GameState :=
  mkGameState (players gs) (enemies gs) (bullets gs) (powerUps gs) (explosions gs)
    (score gs) (level gs) (wave gs) (enemiesKilled gs) (powerUpsCollected gs)
    (accuracy gs) s (isPaused gs) (timeElapsed gs) (isMultiplayer gs) (roomId gs).
Definition set_timeElapsed (gs : GameState) (t : number) : GameState :=
  mkGameState (players gs) (enemies gs) (bullets gs) (powerUps gs) (explosions gs)
    (score gs) (level gs) (wave gs) (enemiesKilled gs) (powerUpsCollected gs)
    (accuracy gs) (gameStatus gs) (isPaused gs) t (isMultiplayer gs) (roomId gs).
Definition set_isPaused (gs : GameState) (b : bool) : GameState :=
  mkGameState (players gs) (enemies gs) (bullets gs) (powerUps gs) (explosions gs)
    (score gs) (level gs) (wave gs) (enemiesKilled gs) (powerUpsCollected gs)
    (accuracy gs) (gameStatus gs) b (timeElapsed gs) (isMultiplayer gs) (roomId gs).
Definition set_isMultiplayer (gs : GameState) (b : bool) : GameState :=
  mkGameState (players gs) (enemies gs) (bullets gs) (powerUps gs) (explosions gs)
    (score gs) (level gs) (wave gs) (enemiesKilled gs) (powerUpsCollected gs)
    (accuracy gs) (gameStatus gs) (isPaused gs) (timeElapsed gs) b (roomId gs).

(** ** PhysicsEngine.ts *)

Module PhysicsEngine.
Section WithMath.
Context {math : MathLib}.
Variable config : GameConfig.

Definition updateGameObject (o : GameObject) (deltaTime : number) : GameObject :=
  let o1 := set_position o
              (mkPosition (pos_x (position o) + vel_x (velocity o) * deltaTime)
                          (pos_y (position o) + vel_y (velocity o) * deltaTime)) in
  if negb (vel_x (velocity o1) =? 0) || negb (vel_y (velocity o1) =? 0)
  then set_rotation o1
         (Math_atan2 (vel_y (velocity o1)) (vel_x (velocity o1)) + Math_PI / 2)
  else o1.

Definition constrainToScreen (o : GameObject) : GameObject :=
  let halfWidth := width (size o) / 2 in
  let halfHeight := height (size o) / 2 in
  let o1 :=
    if pos_x (position o) - halfWidth <? 0 then
      set_velocity (set_position o (mkPosition halfWidth (pos_y (position o))))
                   (mkVelocity 0 (vel_y (velocity o)))
    else if pos_x (position o) + halfWidth >? screenWidth config then
      set_velocity (set_position o (mkPosition (screenWidth config - halfWidth)
                                               (pos_y (position o))))
                   (mkVelocity 0 (vel_y (velocity o)))
    else o in
  if pos_y (position o1) - halfHeight <? 0 then
    set_velocity (set_position o1 (mkPosition (pos_x (position o1)) halfHeight))
                 (mkVelocity (vel_x (velocity o1)) 0)
  else if pos_y (position o1) + halfHeight >? screenHeight config then
    set_velocity (set_position o1 (mkPosition (pos_x (position o1))
                                              (screenHeight config - halfHeight)))
                 (mkVelocity (vel_x (velocity o1)) 0)
  else o1.

Definition isOnScreen (o : GameObject) : bool :=
  let margin := 100 in
  (pos_x (position o) >? - margin) &&
  (pos_x (position o) <? screenWidth config + margin) &&
  (pos_y (position o) >? - margin) &&
  (pos_y (position o) <? screenHeight config + margin).

Definition getEnemyShootInterval (t : EnemyType) : number :=
  match t with
  | BASIC => 2000
  | FAST => 1500
  | HEAVY => 3000
  | BOSS => 1000
  end.

Definition createEnemyBullet (enemy : Enemy) : IO Bullet :=
  t <- Date_now ;;
  r <- Math_random ;;
  ret (mkBullet
         (mkGameObject (Stamped "enemy_bullet" t r)
            (mkPosition (pos_x (position enemy))
                        (pos_y (position enemy) + height (size enemy) / 2))
            (mkVelocity 0 150)
            (mkSize 6 12)
            0 1 1 true)
         10 (id enemy) ENEMY_BASIC None).

(** [nearestDistance] starts at [Infinity], here [None]. *)
Definition findNearestPlayer (enemy : Enemy) (ps : list Player) : option Player :=
  fst (fold_left
         (fun (acc : option Player * option number) (player : Player) =>
            if isActive player then
              let dx := pos_x (position player) - pos_x (position enemy) in
              let dy := pos_y (position player) - pos_y (position enemy) in
              let distance := Math_sqrt (dx * dx + dy * dy) in
              match snd acc with
              | None => (Some player, Some distance)
              | Some nearestDistance =>
                  if distance <? nearestDistance
                  then (Some player, Some distance) else acc
              end
            else acc)
         ps (None, None)).

(** [!enemy.lastShotTime]: true for [undefined] and for [0]. *)
Definition lastShotTime_falsy (e : Enemy) : bool :=
  match lastShotTime e with
  | None => true
  | Some t => t =? 0
  end.

Definition handleEnemyShooting (enemy : Enemy) (gameState : GameState)
                               (deltaTime : number) : IO (Enemy * GameState) :=
  enemy1 <- (if lastShotTime_falsy enemy
             then (t <- Date_now ;; ret (set_lastShotTime enemy (Some t)))
             else ret enemy) ;;
  let shootInterval := getEnemyShootInterval (enemyType enemy1) in
  now <- Date_now ;;
  let last := match lastShotTime enemy1 with Some t => t | None => 0 end in
  if now - last >? shootInterval then
    bullet <- createEnemyBullet enemy1 ;;
    t <- Date_now ;;
    ret (set_lastShotTime enemy1 (Some t),
         set_bullets gameState (bullets gameState ++ [bullet]))
  else ret (enemy1, gameState).

Definition updateEnemyBehavior (enemy : Enemy) (gameState : GameState)
                               (deltaTime : number) : IO (Enemy * GameState) :=
  enemy1 <-
    match attackPattern enemy with
    | STRAIGHT => ret enemy
    | ZIGZAG =>
        t <- Date_now ;;
        ret (withObj enemy
               (set_velocity enemy
                  (mkVelocity (Math_sin (t * (5 # 1000)) * 100) (vel_y (velocity enemy)))))
    | CIRCULAR =>
        let radius := 50 in
        let speed := 2 in
        t <- Date_now ;;
        let time := t * (1 # 1000) * speed in
        ret (withObj enemy
               (set_velocity enemy
                  (mkVelocity (Math_cos time * radius) (Math_sin time * radius + 50))))
    | HOMING =>
        match findNearestPlayer enemy (players gameState) with
        | Some nearestPlayer =>
            let dx := pos_x (position nearestPlayer) - pos_x (position enemy) in
            let dy := pos_y (position nearestPlayer) - pos_y (position enemy) in
            let distance := Math_sqrt (dx * dx + dy * dy) in
            if distance >? 0 then
              let homingSpeed := 100 in
              ret (withObj enemy
                     (set_velocity enemy
                        (mkVelocity ((dx / distance) * homingSpeed)
                                    ((dy / distance) * homingSpeed))))
            else ret enemy
        | None => ret enemy
        end
    end ;;
  handleEnemyShooting enemy1 gameState deltaTime.

(** The body of [gameState.enemies.forEach]: the enemy objects are threaded
  one by one, the state carries the bullets pushed so far. *)
Definition updateEnemy (deltaSeconds : number) (enemy : Enemy) (gameState : GameState)
  : IO (Enemy * GameState) :=
  if isActive enemy then
    let enemy1 := mutate (fun o => updateGameObject o deltaSeconds) enemy in
    '(enemy2, gameState') <- updateEnemyBehavior enemy1 gameState deltaSeconds ;;
    if negb (isOnScreen enemy2)
    then ret (withObj enemy2 (set_isActive enemy2 false), gameState')
    else ret (enemy2, gameState')
  else ret (enemy, gameState).

Fixpoint forEachEnemy (deltaSeconds : number) (es : list Enemy) (gameState : GameState)
  : IO (list Enemy * GameState) :=
  match es with
  | [] => ret ([], gameState)
  | enemy :: rest =>
      '(enemy', gs1) <- updateEnemy deltaSeconds enemy gameState ;;
      '(rest', gs2) <- forEachEnemy deltaSeconds rest gs1 ;;
      ret (enemy' :: rest', gs2)
  end.

Definition updatePlayer (deltaSeconds : number) (player : Player) : Player :=
  if isActive player
  then mutate constrainToScreen
         (mutate (fun o => updateGameObject o deltaSeconds) player)
  else player.

Definition updateBullet (deltaSeconds : number) (bullet : Bullet) : Bullet :=
  if isActive bullet then
    let bullet1 := mutate (fun o => updateGameObject o deltaSeconds) bullet in
    if negb (isOnScreen bullet1)
    then withObj bullet1 (set_isActive bullet1 false)
    else bullet1
  else bullet.

Definition updatePowerUp (deltaSeconds : number) (powerUp : PowerUp) : IO PowerUp :=
  if isActive powerUp then
    let powerUp1 := mutate (fun o => updateGameObject o deltaSeconds) powerUp in
    t <- Date_now ;;
    let powerUp2 :=
      withObj powerUp1
        (set_position powerUp1
           (mkPosition (pos_x (position powerUp1))
                       (pos_y (position powerUp1)
                        + Math_sin (t * (5 # 1000)) * (5 # 10)))) in
    if negb (isOnScreen powerUp2)
    then ret (withObj powerUp2 (set_isActive powerUp2 false))
    else ret powerUp2
  else ret powerUp.

Fixpoint forEachPowerUp (deltaSeconds : number) (us : list PowerUp) : IO (list PowerUp) :=
  match us with
  | [] => ret []
  | powerUp :: rest =>
      powerUp' <- updatePowerUp deltaSeconds powerUp ;;
      rest' <- forEachPowerUp deltaSeconds rest ;;
      ret (powerUp' :: rest')
  end.

Definition update (gameState : GameState) (deltaTime : number) : IO GameState :=
  let deltaSeconds := deltaTime / 1000 in
  let gs1 := set_players gameState (map (updatePlayer deltaSeconds) (players gameState)) in
  '(enemies', gs2) <- forEachEnemy deltaSeconds (enemies gs1) gs1 ;;
  let gs3 := set_enemies gs2 enemies' in
  let gs4 := set_bullets gs3 (map (updateBullet deltaSeconds) (bullets gs3)) in
  powerUps' <- forEachPowerUp deltaSeconds (powerUps gs4) ;;
  ret (set_powerUps gs4 powerUps').

End WithMath.

(** The public velocity helpers of the class. *)
Section Kinematics.
Context {math : MathLib}.

Definition applyForce (o : GameObject) (force : Velocity) (deltaTime : number)
  : GameObject :=
  set_velocity o (mkVelocity (vel_x (velocity o) + vel_x force * deltaTime)
                             (vel_y (velocity o) + vel_y force * deltaTime)).

Definition setVelocity (o : GameObject) (v : Velocity) : GameObject :=
  set_velocity o (mkVelocity (vel_x v) (vel_y v)).

Definition addVelocity (o : GameObject) (v : Velocity) : GameObject :=
  set_velocity o (mkVelocity (vel_x (velocity o) + vel_x v)
                             (vel_y (velocity o) + vel_y v)).

Definition getSpeed (o : GameObject) : number :=
  Math_sqrt (vel_x (velocity o) * vel_x (velocity o)
             + vel_y (velocity o) * vel_y (velocity o)).

Definition normalizeVelocity (o : GameObject) (targetSpeed : number) : GameObject :=
  let currentSpeed := getSpeed o in
  if currentSpeed >? 0 then
    let factor := targetSpeed / currentSpeed in
    set_velocity o (mkVelocity (vel_x (velocity o) * factor)
                               (vel_y (velocity o) * factor))
  else o.

End Kinematics.
End PhysicsEngine.

(** [arr[Math.floor(Math.random() * arr.length)]]: [Math.random()] lies in
    [0, 1), so the index is in range; [d] only fills [nth]'s default. *)
Definition pick {A} (arr : list A) (r : number) (d : A) : A :=
  nth (Z.to_nat (Qfloor (r * inject_Z (Z.of_nat (List.length arr))))) arr d.

(** ** EnemySpawner.ts *)

Module EnemySpawner.

(** The private fields of the class.  The three counters only ever hold
    integers (they start at integer constants and change by [++], [+ 1],
    [Math.min] with 15 and integer assignments), so they are [Z]. *)
Record state := mkState {
  lastSpawnTime : number;
  spawnInterval : number;
  waveNumber : Z;
  enemiesInCurrentWave : Z;
  maxEnemiesPerWave : Z;
  timeBetweenWaves : number;
  lastWaveTime : number;
  bossSpawned : bool
}.

Record EnemyStats := mkStats {
  stat_health : number;
  stat_damage : number;
  stat_speed : number;
  stat_points : number;
  stat_size : Size
}.

Record BossStats := mkBossStats {
  boss_health : number;
  boss_damage : number;
  boss_points : number;
  boss_size : Size
}.

Definition create : IO state :=
  t1 <- Date_now ;;
  t2 <- Date_now ;;
  ret (mkState t1 2000 1 0 5 5000 t2 false).

Definition shouldStartNewWave (s : state) (gameState : GameState)
                              (currentTime : number) : bool :=
  let activeEnemies := List.length (filter (fun e : Enemy => isActive e) (enemies gameState)) in
  let timeSinceLastWave := currentTime - lastWaveTime s in
  Nat.eqb activeEnemies 0 &&
  (timeSinceLastWave >? timeBetweenWaves s) &&
  (enemiesInCurrentWave s >=? maxEnemiesPerWave s)%Z.

Definition scaleDifficulty (s : state) : state :=
  mkState (lastSpawnTime s)
          (Math_max 500 (spawnInterval s * (9 # 10)))
          (waveNumber s)
          (enemiesInCurrentWave s)
          (Z.min 15 (maxEnemiesPerWave s + 1))
          (Math_max 2000 (timeBetweenWaves s * (95 # 100)))
          (lastWaveTime s)
          (bossSpawned s).

Definition startNewWave (s : state) : IO state :=
  t <- Date_now ;;
  ret (scaleDifficulty
         (mkState (lastSpawnTime s) (spawnInterval s) (waveNumber s + 1) 0
                  (maxEnemiesPerWave s) (timeBetweenWaves s) t false)).

(** [%] is the truncating remainder. *)
Definition shouldSpawnBoss (s : state) (gameState : GameState) : bool :=
  (Z.rem (waveNumber s) 5 =? 0)%Z &&
  negb (bossSpawned s) &&
  (inject_Z (enemiesInCurrentWave s) >=? inject_Z (maxEnemiesPerWave s) * (8 # 10)).

Definition shouldSpawnEnemy (s : state) (currentTime : number) : bool :=
  currentTime - lastSpawnTime s >? spawnInterval s.

Definition getAvailableEnemyTypes (s : state) : list EnemyType :=
  [BASIC] ++ (if (waveNumber s >=? 2)%Z then [FAST] else [])
          ++ (if (waveNumber s >=? 3)%Z then [HEAVY] else []).

Definition getRandomSpawnPosition (config : GameConfig) : IO Position :=
  r <- Math_random ;;
  ret (mkPosition (r * (screenWidth config - 60) + 30) (-30)).

(** [BOSS] has no case of its own in the switch: it takes [default].
    The multiplier and its products are doubles, floored as such: in wave 37
    a heavy enemy has health 114, where the exact product 25 * 4.6 is 115. *)
#[warnings="-inexact-float"]
Definition getEnemyStats (s : state) (type : EnemyType) : EnemyStats :=
  let difficultyMultiplier := (1 + (double_of_Z (waveNumber s) - 1) * 0.1)%float in
  match type with
  | BASIC =>
      mkStats (Math_floor_double (10 * difficultyMultiplier))
              (Math_floor_double (10 * difficultyMultiplier))
              (80 + inject_Z (waveNumber s) * 5)
              100
              (mkSize 30 30)
  | FAST =>
      mkStats (Math_floor_double (5 * difficultyMultiplier))
              (Math_floor_double (8 * difficultyMultiplier))
              (150 + inject_Z (waveNumber s) * 8)
              150
              (mkSize 25 25)
  | HEAVY =>
      mkStats (Math_floor_double (25 * difficultyMultiplier))
              (Math_floor_double (20 * difficultyMultiplier))
              (50 + inject_Z (waveNumber s) * 3)
              300
              (mkSize 40 40)
  | BOSS =>
      mkStats (Math_floor_double (10 * difficultyMultiplier))
              (Math_floor_double (10 * difficultyMultiplier))
              80
              100
              (mkSize 30 30)
  end.

(** In wave 10 the boss has health 469: the double product 200 * 2.35 lies
    just below 470. *)
#[warnings="-inexact-float"]
Definition getBossStats (s : state) : BossStats :=
  let difficultyMultiplier := (1 + (double_of_Z (waveNumber s) - 1) * 0.15)%float in
  mkBossStats (Math_floor_double (200 * difficultyMultiplier))
              (Math_floor_double (30 * difficultyMultiplier))
              (1000 * Math_floor_double (double_of_Z (waveNumber s) / 5))
              (mkSize 80 80).

Definition getRandomAttackPattern (type : EnemyType) : IO AttackPattern :=
  match type with
  | BASIC => r <- Math_random ;; ret (if r <? (7 # 10) then STRAIGHT else ZIGZAG)
  | FAST => r <- Math_random ;; ret (pick [STRAIGHT; ZIGZAG] r STRAIGHT)
  | HEAVY => r <- Math_random ;; ret (if r <? (5 # 10) then STRAIGHT else HOMING)
  | BOSS => ret CIRCULAR
  end.

Definition createEnemy (config : GameConfig) (s : state) (type : EnemyType) : IO Enemy :=
  position <- getRandomSpawnPosition config ;;
  let baseStats := getEnemyStats s type in
  t <- Date_now ;;
  r <- Math_random ;;
  pattern <- getRandomAttackPattern type ;;
  ret (mkEnemy
         (mkGameObject (Stamped "enemy" t r) position
            (mkVelocity 0 (stat_speed baseStats)) (stat_size baseStats) 0
            (stat_health baseStats) (stat_health baseStats) true)
         type (stat_damage baseStats) (stat_points baseStats) pattern None).

Definition createRandomEnemy (config : GameConfig) (s : state) : IO Enemy :=
  let enemyTypes := getAvailableEnemyTypes s in
  r <- Math_random ;;
  createEnemy config s (pick enemyTypes r BASIC).

Definition createBoss (config : GameConfig) (s : state) : IO Enemy :=
  let position := mkPosition (screenWidth config / 2) (-50) in
  let bossStats := getBossStats s in
  t <- Date_now ;;
  r <- Math_random ;;
  ret (mkEnemy
         (mkGameObject (Stamped "boss" t r) position (mkVelocity 0 30)
            (boss_size bossStats) 0 (boss_health bossStats) (boss_health bossStats) true)
         BOSS (boss_damage bossStats) (boss_points bossStats) CIRCULAR None).

Definition set_bossSpawned (s : state) (b : bool) : state :=
  mkState (lastSpawnTime s) (spawnInterval s) (waveNumber s) (enemiesInCurrentWave s)
          (maxEnemiesPerWave s) (timeBetweenWaves s) (lastWaveTime s) b.

Definition update (config : GameConfig) (s : state) (gameState : GameState)
                  (deltaTime : number) : IO (list Enemy * state) :=
  currentTime <- Date_now ;;
  s1 <- (if shouldStartNewWave s gameState currentTime
         then startNewWave s else ret s) ;;
  '(newEnemies, s2) <-
    (if shouldSpawnBoss s1 gameState
     then boss <- createBoss config s1 ;; ret ([boss], set_bossSpawned s1 true)
     else ret ([], s1)) ;;
  if shouldSpawnEnemy s2 currentTime
     && (enemiesInCurrentWave s2 <? maxEnemiesPerWave s2)%Z
  then
    enemy <- createRandomEnemy config s2 ;;
    ret (newEnemies ++ [enemy],
         mkState currentTime (spawnInterval s2) (waveNumber s2)
                 (enemiesInCurrentWave s2 + 1) (maxEnemiesPerWave s2)
                 (timeBetweenWaves s2) (lastWaveTime s2) (bossSpawned s2))
  else ret (newEnemies, s2).

Definition reset (s : state) : IO state :=
  t1 <- Date_now ;;
  t2 <- Date_now ;;
  ret (mkState t1 2000 1 0 5 5000 t2 false).

Definition setDifficulty (s : state) (d : string) : state :=
  let set i m := mkState (lastSpawnTime s) i (waveNumber s) (enemiesInCurrentWave s) m
                         (timeBetweenWaves s) (lastWaveTime s) (bossSpawned s) in
  if String.eqb d "easy" then set 3000 3%Z
  else if String.eqb d "medium" then set 2000 5%Z
  else if String.eqb d "hard" then set 1500 7%Z
  else if String.eqb d "expert" then set 1000 10%Z
  else s.

End EnemySpawner.

(** ** PowerUpSpawner.ts *)

Module PowerUpSpawner.

Record state := mkState {
  lastSpawnTime : number;
  spawnInterval : number;
  spawnChance : number
}.

Record PowerUpStats := mkStats {
  stat_size : Size;
  stat_duration : number;
  stat_effect : PowerUpEffect
}.

Definition create : IO state :=
  t <- Date_now ;;
  ret (mkState t 15000 (3 # 10)).

Definition shouldSpawnPowerUp (s : state) (currentTime : number)
                              (gameState : GameState) : IO bool :=
  if currentTime - lastSpawnTime s <? spawnInterval s then ret false
  else
    let activePowerUps :=
      List.length (filter (fun p : PowerUp => isActive p) (powerUps gameState)) in
    if (3 <=? activePowerUps)%nat then ret false
    else r <- Math_random ;; ret (r <? spawnChance s).

Definition getAvailablePowerUpTypes : list PowerUpType :=
  [HEALTH; WEAPON_UPGRADE; SHIELD; SPEED_BOOST; SCORE_MULTIPLIER].

Definition getRandomSpawnPosition (config : GameConfig) : IO Position :=
  r <- Math_random ;;
  ret (mkPosition (r * (screenWidth config - 60) + 30) (-30)).

Definition getPowerUpStats (type : PowerUpType) : PowerUpStats :=
  match type with
  | HEALTH => mkStats (mkSize 25 25) 0 (mkPowerUpEffect HEALTH 50 0)
  | WEAPON_UPGRADE =>
      mkStats (mkSize 30 30) 10000 (mkPowerUpEffect WEAPON_UPGRADE 1 10000)
  | SHIELD => mkStats (mkSize 28 28) 8000 (mkPowerUpEffect SHIELD 100 8000)
  | SPEED_BOOST =>
      mkStats (mkSize 26 26) 6000 (mkPowerUpEffect SPEED_BOOST (15 # 10) 6000)
  | SCORE_MULTIPLIER =>
      mkStats (mkSize 32 32) 12000 (mkPowerUpEffect SCORE_MULTIPLIER 2 12000)
  end.

Definition createPowerUp (config : GameConfig) (type : PowerUpType) : IO PowerUp :=
  position <- getRandomSpawnPosition config ;;
  let stats := getPowerUpStats type in
  t <- Date_now ;;
  r <- Math_random ;;
  ret (mkPowerUp
         (mkGameObject (Stamped "powerup" t r) position (mkVelocity 0 50)
            (stat_size stats) 0 1 1 true)
         type (stat_duration stats) (stat_effect stats)).

Definition createRandomPowerUp (config : GameConfig) : IO PowerUp :=
  let powerUpTypes := getAvailablePowerUpTypes in
  r <- Math_random ;;
  createPowerUp config (pick powerUpTypes r HEALTH).

Definition update (config : GameConfig) (s : state) (gameState : GameState)
                  (deltaTime : number) : IO (list PowerUp * state) :=
  currentTime <- Date_now ;;
  go <- shouldSpawnPowerUp s currentTime gameState ;;
  if go then
    powerUp <- createRandomPowerUp config ;;
    ret ([powerUp], mkState currentTime (spawnInterval s) (spawnChance s))
  else ret ([], s).

(** [position || this.getRandomSpawnPosition()]: a position is drawn only
    when none is given; [spawnPosition] is not used afterwards. *)
Definition spawnSpecificPowerUp (config : GameConfig) (type : PowerUpType)
                                (position : option Position) : IO PowerUp :=
  spawnPosition <- match position with
                   | Some p => ret p
                   | None => getRandomSpawnPosition config
                   end ;;
  createPowerUp config type.

Definition spawnHealthPowerUp (config : GameConfig) (position : Position) : IO PowerUp :=
  spawnSpecificPowerUp config HEALTH (Some position).

Definition spawnWeaponUpgrade (config : GameConfig) (position : Position) : IO PowerUp :=
  spawnSpecificPowerUp config WEAPON_UPGRADE (Some position).

Definition adjustSpawnRate (s : state) (difficulty : string) : state :=
  let set i c := mkState (lastSpawnTime s) i c in
  if String.eqb difficulty "easy" then set 12000 (4 # 10)
  else if String.eqb difficulty "medium" then set 15000 (3 # 10)
  else if String.eqb difficulty "hard" then set 18000 (25 # 100)
  else if String.eqb difficulty "expert" then set 20000 (2 # 10)
  else s.

Definition increaseDifficulty (s : state) : state :=
  mkState (lastSpawnTime s)
          (Math_min 25000 (spawnInterval s * (11 # 10)))
          (Math_max (15 # 100) (spawnChance s * (95 # 100))).

Definition reset (s : state) : IO state :=
  t <- Date_now ;;
  ret (mkState t 15000 (3 # 10)).

Record SpawnInfo := mkSpawnInfo {
  info_interval : number;
  info_chance : number;
  timeSinceLastSpawn : number
}.

Definition getSpawnInfo (s : state) : IO SpawnInfo :=
  t <- Date_now ;;
  ret (mkSpawnInfo (spawnInterval s) (spawnChance s) (t - lastSpawnTime s)).

Definition spawnBossDefeatReward (config : GameConfig) (bossPosition : Position)
  : IO (list PowerUp) :=
  health <- spawnHealthPowerUp config
              (mkPosition (pos_x bossPosition - 30) (pos_y bossPosition)) ;;
  let rewards := [health] in
  r1 <- Math_random ;;
  rewards <- (if r1 <? (5 # 10)
              then (weapon <- spawnWeaponUpgrade config
                                (mkPosition (pos_x bossPosition + 30) (pos_y bossPosition)) ;;
                    ret (rewards ++ [weapon]))
              else ret rewards) ;;
  r2 <- Math_random ;;
  if r2 <? (3 # 10)
  then (multiplier <- spawnSpecificPowerUp config SCORE_MULTIPLIER
                        (Some (mkPosition (pos_x bossPosition) (pos_y bossPosition + 30))) ;;
        ret (rewards ++ [multiplier]))
  else ret rewards.

Definition spawnWaveCompleteReward (config : GameConfig) : IO (list PowerUp) :=
  r <- Math_random ;;
  if r <? (25 # 100)
  then (powerUp <- createRandomPowerUp config ;; ret [powerUp])
  else ret [].

End PowerUpSpawner.

(** ** GameEngine.ts *)

Module GameEngine.

(** The engine object: its game state, configuration and collaborators.
    The sound manager is the [cues] log of the [World]; the state-update
    callback receives the snapshot that [update] returns. *)
Record Engine := mkEngine {
  gameState : GameState;
  config : GameConfig;
  enemySpawner : EnemySpawner.state;
  powerUpSpawner : PowerUpSpawner.state;
  lastUpdateTime : number;
  gameLoopId : option nat
}.

Definition set_gameState (e : Engine) (gs : GameState) : Engine :=
  mkEngine gs (config e) (enemySpawner e) (powerUpSpawner e) (lastUpdateTime e)
           (gameLoopId e).

Definition initialGameState : GameState :=
  mkGameState [] [] [] [] [] 0 1 1 0 0 0 MENU false 0 false None.

Definition create (config : GameConfig) : IO Engine :=
  es <- EnemySpawner.create ;;
  ps <- PowerUpSpawner.create ;;
  ret (mkEngine initialGameState config es ps 0 None).

Definition stopGameLoop (e : Engine) : Engine :=
  mkEngine (gameState e) (config e) (enemySpawner e) (powerUpSpawner e)
           (lastUpdateTime e) None.

(** [requestAnimationFrame(gameLoop)] answers with a handle, the argument
    [handle] here; [cancelAnimationFrame] acts on the host only.  The host's
    handles are positive integers, so [if (this.gameLoopId)] tests for
    [null]; [handle] counts them from zero ([n] stands for the id [n + 1]). *)
Definition startGameLoop (e : Engine) (handle : nat) : Engine :=
  mkEngine (gameState e) (config e) (enemySpawner e) (powerUpSpawner e)
           (lastUpdateTime e) (Some handle).

(** [isMultiplayer] is an optional parameter with default [false]. *)
Definition startGame (e : Engine) (isMultiplayer : option bool) (handle : nat)
  : IO Engine :=
  let isMultiplayer := match isMultiplayer with Some b => b | None => false end in
  let gs := set_gameStatus (gameState e) PLAYING in
  let gs := set_isMultiplayer gs isMultiplayer in
  let gs := set_isPaused gs false in
  t <- Date_now ;;
  ret (startGameLoop
         (mkEngine gs (config e) (enemySpawner e) (powerUpSpawner e) t (gameLoopId e))
         handle).

Definition pauseGame (e : Engine) : Engine :=
  let gs := set_isPaused (gameState e) true in
  let gs := set_gameStatus gs PAUSED in
  stopGameLoop (set_gameState e gs).

Definition resumeGame (e : Engine) (handle : nat) : IO Engine :=
  let gs := set_isPaused (gameState e) false in
  let gs := set_gameStatus gs PLAYING in
  t <- Date_now ;;
  ret (startGameLoop
         (mkEngine gs (config e) (enemySpawner e) (powerUpSpawner e) t (gameLoopId e))
         handle).

Definition stopGame (e : Engine) : Engine :=
  stopGameLoop (set_gameState e (set_gameStatus (gameState e) GAME_OVER)).

Definition addPlayer (e : Engine) (player : Player) : Engine :=
  set_gameState e (set_players (gameState e) (players (gameState e) ++ [player])).

Definition removePlayer (e : Engine) (pid : string) : Engine :=
  set_gameState e
    (set_players (gameState e)
       (filter (fun p => negb (String.eqb (playerId p) pid)) (players (gameState e)))).

(** [arr.find(pred)] followed by an in-place change of the element found:
    the first element satisfying [pred] is replaced by its image. *)
Fixpoint updateFirst {A} (pred : A -> bool) (f : A -> A) (l : list A) : list A :=
  match l with
  | [] => []
  | a :: rest => if pred a then f a :: rest else a :: updateFirst pred f rest
  end.

Definition updatePlayerPosition (e : Engine) (pid : string) (pos : Position) : Engine :=
  match find (fun p => String.eqb (playerId p) pid) (players (gameState e)) with
  | Some _ =>
      set_gameState e
        (set_players (gameState e)
           (updateFirst (fun p => String.eqb (playerId p) pid)
                        (fun p => withObj p (set_position p pos))
                        (players (gameState e))))
  | None => e
  end.

Definition gameStatus_eqb (a b : GameStatus) : bool :=
  match a, b with
  | MENU, MENU | PLAYING, PLAYING | PAUSED, PAUSED | GAME_OVER, GAME_OVER
  | VICTORY, VICTORY | WAITING_FOR_PLAYERS, WAITING_FOR_PLAYERS => true
  | _, _ => false
  end.

Definition createBullet (e : Engine) (pos : Position) (vel : Velocity)
                        (owner : ident) (type : BulletType) : IO Bullet :=
  let isPlayerBullet :=
    existsb (fun player : Player => ident_eqb (id player) owner)
            (players (gameState e)) in
  t <- Date_now ;;
  r <- Math_random ;;
  ret (mkBullet
         (mkGameObject (Stamped "bullet" t r) pos vel (mkSize 4 10) 0 1 1 true)
         10 owner type (Some isPlayerBullet)).

Definition createPlayerBullets (e : Engine) (player : Player) : IO (list Bullet) :=
  let basePosition :=
    mkPosition (pos_x (position player))
               (pos_y (position player) - height (size player) / 2) in
  match weaponType player with
  | BASIC_WEAPON =>
      b <- createBullet e basePosition (mkVelocity 0 (- bulletSpeed (config e)))
                        (Literal (playerId player)) PLAYER_BASIC ;;
      ret [b]
  | SPREAD_SHOT =>
      let shot (i : number) :=
        createBullet e
          (mkPosition (pos_x basePosition + i * 10) (pos_y basePosition))
          (mkVelocity (i * 50) (- bulletSpeed (config e)))
          (Literal (playerId player)) PLAYER_BASIC in
      b1 <- shot (-1) ;;
      b2 <- shot 0 ;;
      b3 <- shot 1 ;;
      ret [b1; b2; b3]
  | _ => ret []
  end.

Definition playerShoot (e : Engine) (pid : string) : IO Engine :=
  match find (fun p => String.eqb (playerId p) pid) (players (gameState e)) with
  | Some player =>
      if gameStatus_eqb (gameStatus (gameState e)) PLAYING then
        newBullets <- createPlayerBullets e player ;;
        playSound (ShootSound (weaponTypeValue (weaponType player))) ;;;
        ret (set_gameState e
               (set_bullets (gameState e) (bullets (gameState e) ++ newBullets)))
      else ret e
  | None => ret e
  end.

Definition getGameState (e : Engine) : GameState := gameState e.

(** *** Collision handling.  The handlers receive the two colliding
    objects and the state; of the state they touch [explosions] and
    [score] only, and they return the objects as mutated. *)

Definition createExplosion (gs : GameState) (pos : Position) (sz : number)
  : IO GameState :=
  t <- Date_now ;;
  r <- Math_random ;;
  ret (set_explosions gs
         (explosions gs ++
          [mkExplosion (Stamped "explosion" t r) pos (mkSize sz sz) 500 0 0])).

(** [lives--], [health = maxHealth], deactivate at [lives <= 0]: the tail
    shared by both player-damaging handlers. *)
Definition loseLifeIfDepleted (player : Player) : Player :=
  if health player <=? 0 then
    let p1 := set_lives player (lives player - 1) in
    let p2 := withObj p1 (set_health p1 (maxHealth p1)) in
    if lives p2 <=? 0 then withObj p2 (set_isActive p2 false) else p2
  else player.

Definition handlePlayerEnemyCollision (player : Player) (enemy : Enemy)
                                      (gs : GameState)
  : IO (Player * Enemy * GameState) :=
  let player1 := withObj player (set_health player (health player - enemy_damage enemy)) in
  let enemy1 := withObj enemy (set_isActive enemy false) in
  gs1 <- createExplosion gs (position enemy1) 30 ;;
  playSound ExplosionSound ;;;
  ret (loseLifeIfDepleted player1, enemy1, gs1).

Definition handleBulletEnemyCollision (bullet : Bullet) (enemy : Enemy)
                                      (gs : GameState)
  : IO (Bullet * Enemy * GameState) :=
  let enemy1 := withObj enemy (set_health enemy (health enemy - bullet_damage bullet)) in
  let bullet1 := withObj bullet (set_isActive bullet false) in
  if health enemy1 <=? 0 then
    let enemy2 := withObj enemy1 (set_isActive enemy1 false) in
    let gs1 := set_score gs (score gs + points enemy2) in
    gs2 <- createExplosion gs1 (position enemy2) 25 ;;
    playSound ExplosionSound ;;;
    ret (bullet1, enemy2, gs2)
  else ret (bullet1, enemy1, gs).

Definition handleBulletPlayerCollision (bullet : Bullet) (player : Player)
                                       (gs : GameState)
  : IO (Bullet * Player * GameState) :=
  let player1 := withObj player (set_health player (health player - bullet_damage bullet)) in
  let bullet1 := withObj bullet (set_isActive bullet false) in
  ret (bullet1, loseLifeIfDepleted player1, gs).

Definition applyPowerUp (player : Player) (powerUp : PowerUp) : Player :=
  match powerUpType powerUp with
  | HEALTH =>
      withObj player
        (set_health player
           (Math_min (health player + effect_value (effect powerUp)) (maxHealth player)))
  | _ => player
  end.

Definition handlePlayerPowerUpCollision (player : Player) (powerUp : PowerUp)
                                        (gs : GameState)
  : IO (Player * PowerUp * GameState) :=
  let powerUp1 := withObj powerUp (set_isActive powerUp false) in
  let player1 := applyPowerUp player powerUp1 in
  playSound PowerUpSound ;;;
  ret (player1, powerUp1, gs).

(** The nested [forEach] of a collision pass: every outer object that
    passes [guard] is tested against every inner object, in order, and
    each hit is handled at once, so later tests see the mutated objects. *)
Section Pass.
Context {A B : Type} `{Entity A} `{Entity B}.
Variable guard : A -> bool.
Variable handle : A -> B -> GameState -> IO (A * B * GameState).

Fixpoint inner (a : A) (bs : list B) (gs : GameState)
  : IO (A * list B * GameState) :=
  match bs with
  | [] => ret (a, [], gs)
  | b :: rest =>
      '(a1, b1, gs1) <-
        (if CollisionDetection.checkCollision (obj a) (obj b)
         then handle a b gs else ret (a, b, gs)) ;;
      '(a2, rest', gs2) <- inner a1 rest gs1 ;;
      ret (a2, b1 :: rest', gs2)
  end.

Fixpoint outer (l : list A) (bs : list B) (gs : GameState)
  : IO (list A * list B * GameState) :=
  match l with
  | [] => ret ([], bs, gs)
  | a :: rest =>
      '(a1, bs1, gs1) <-
        (if guard a then inner a bs gs else ret (a, bs, gs)) ;;
      '(rest', bs2, gs2) <- outer rest bs1 gs1 ;;
      ret (a1 :: rest', bs2, gs2)
  end.
End Pass.

Definition handleCollisions (gs : GameState) : IO GameState :=
  (* Player-Enemy collisions *)
  '(ps1, es1, gs1) <-
    outer (fun _ => true) handlePlayerEnemyCollision (players gs) (enemies gs) gs ;;
  let gs1 := set_enemies (set_players gs1 ps1) es1 in
  (* Bullet-Enemy collisions *)
  '(bs2, es2, gs2) <-
    outer (fun b : Bullet => startsWith (bulletTypeValue (bulletType b)) "player")
          handleBulletEnemyCollision (bullets gs1) (enemies gs1) gs1 ;;
  let gs2 := set_enemies (set_bullets gs2 bs2) es2 in
  (* Bullet-Player collisions (for enemy bullets) *)
  '(bs3, ps3, gs3) <-
    outer (fun b : Bullet => startsWith (bulletTypeValue (bulletType b)) "enemy")
          handleBulletPlayerCollision (bullets gs2) (players gs2) gs2 ;;
  let gs3 := set_players (set_bullets gs3 bs3) ps3 in
  (* Player-PowerUp collisions *)
  '(ps4, us4, gs4) <-
    outer (fun _ => true) handlePlayerPowerUpCollision (players gs3) (powerUps gs3) gs3 ;;
  ret (set_powerUps (set_players gs4 ps4) us4).

Definition cleanupInactiveObjects (gs : GameState) : GameState :=
  let gs1 := set_players gs (filter (fun p : Player => isActive p) (players gs)) in
  let gs2 := set_enemies gs1 (filter (fun e : Enemy => isActive e) (enemies gs1)) in
  let gs3 := set_bullets gs2 (filter (fun b : Bullet => isActive b) (bullets gs2)) in
  set_powerUps gs3 (filter (fun u : PowerUp => isActive u) (powerUps gs3)).

Definition ageExplosion (deltaTime : number) (x : Explosion) : Explosion :=
  let frame := currentFrame x + deltaTime in
  mkExplosion (explosion_id x) (explosion_position x) (explosion_size x) (duration x)
              frame (Math_min (frame / duration x) 1).

Definition updateExplosions (gs : GameState) (deltaTime : number) : GameState :=
  set_explosions gs
    (filter (fun x => currentFrame x <? duration x)
            (map (ageExplosion deltaTime) (explosions gs))).

Definition checkGameOverConditions (e : Engine) : Engine :=
  let activePlayers := filter (fun p : Player => isActive p) (players (gameState e)) in
  if Nat.eqb (List.length activePlayers) 0
  then stopGameLoop (set_gameState e (set_gameStatus (gameState e) GAME_OVER))
  else e.

Section WithMath.
Context {math : MathLib}.

(** One frame.  The result pairs the snapshot handed to the state-update
    callback with the engine after the frame. *)
Definition update (e : Engine) : IO (GameState * Engine) :=
  currentTime <- Date_now ;;
  let deltaTime := currentTime - lastUpdateTime e in
  let gs := set_timeElapsed (gameState e) (timeElapsed (gameState e) + deltaTime) in
  gs <- PhysicsEngine.update (config e) gs deltaTime ;;
  '(newEnemies, es) <- EnemySpawner.update (config e) (enemySpawner e) gs deltaTime ;;
  let gs := set_enemies gs (enemies gs ++ newEnemies) in
  '(newPowerUps, ps) <- PowerUpSpawner.update (config e) (powerUpSpawner e) gs deltaTime ;;
  let gs := set_powerUps gs (powerUps gs ++ newPowerUps) in
  gs <- handleCollisions gs ;;
  let gs := cleanupInactiveObjects gs in
  let gs := updateExplosions gs deltaTime in
  let e1 := checkGameOverConditions
              (mkEngine gs (config e) es ps currentTime (gameLoopId e)) in
  ret (gameState e1, e1).

(** The frame callback [gameLoop] of [startGameLoop]: when the game is in
    play it runs one [update] and asks for the next frame, whose handle is
    [handle].  The snapshot is [None] when no update ran. *)
Definition gameLoop (e : Engine) (handle : nat) : IO (option GameState * Engine) :=
  if gameStatus_eqb (gameStatus (gameState e)) PLAYING && negb (isPaused (gameState e))
  then
    '(snapshot, e1) <- update e ;;
    ret (Some snapshot,
         mkEngine (gameState e1) (config e1) (enemySpawner e1) (powerUpSpawner e1)
                  (lastUpdateTime e1) (Some handle))
  else ret (None, e).
End WithMath.

End GameEngine.

(** ** components/Game.tsx: what the screen asks of the engine *)

Module Game.

Definition GAME_CONFIG (screenWidth screenHeight : number) : GameConfig :=
  mkGameConfig screenWidth screenHeight 200 300 100 2000 MEDIUM.

(** The player [startSinglePlayerGame] creates, at [playerPosition]. *)
Definition localPlayer (playerPosition : Position) : Player :=
  mkPlayer
    (mkGameObject (Literal "local_player") playerPosition (mkVelocity 0 0)
       (mkSize 40 40) 0 100 100 true)
    "local_player" "Player" 0 3 BASIC_WEAPON [] true.

Definition startSinglePlayerGame (e : GameEngine.Engine) (playerPosition : Position)
                                 (handle : nat) : IO GameEngine.Engine :=
  GameEngine.startGame (GameEngine.addPlayer e (localPlayer playerPosition))
                       (Some false) handle.

(** The touch point of [onPanResponderMove], clamped. *)
Definition touchPosition (screenWidth screenHeight pageX pageY : number) : Position :=
  let newX := Math_max 30 (Math_min (screenWidth - 30) pageX) in
  let newY := Math_max 50 (Math_min (screenHeight - 150) pageY) in
  mkPosition newX newY.

(** [onPanResponderMove]: [snapshot] is the copy of the game state the
    screen holds, in which the handler looks the local player up. *)
Definition onPanResponderMove (e : GameEngine.Engine) (snapshot : GameState)
                              (screenWidth screenHeight pageX pageY : number)
  : GameEngine.Engine :=
  let newPosition := touchPosition screenWidth screenHeight pageX pageY in
  match find (fun p => isLocalPlayer p) (players snapshot) with
  | Some localPlayer =>
      GameEngine.updatePlayerPosition e (playerId localPlayer) newPosition
  | None => e
  end.

Definition handlePlayerShoot (e : GameEngine.Engine) (snapshot : GameState)
  : IO GameEngine.Engine :=
  if GameEngine.gameStatus_eqb (gameStatus snapshot) PLAYING then
    match find (fun p => isLocalPlayer p) (players snapshot) with
    | Some localPlayer => GameEngine.playerShoot e (playerId localPlayer)
    | None => ret e
    end
  else ret e.

End Game.

(** ** Running a computation, and concrete data for the scenarios *)

Definition run {A} (m : IO A) (w : World) : A := fst (m w).

(** A host whose clock advances by 1 ms per read from 1000 and whose random
    source always answers 1/2. *)
Definition sample_world : World :=
  mkWorld (fun n => 1000 + inject_Z (Z.of_nat n)) 0 (fun _ => 1 # 2) 0 [].

(** [GAME_CONFIG] of Game.tsx on a 400 x 800 window. *)
Definition sample_config : GameConfig := mkGameConfig 400 800 200 300 100 2000 MEDIUM.

(** The local player as Game.tsx creates it. *)
Definition local_player : Player :=
  mkPlayer
    (mkGameObject (Literal "local_player") (mkPosition (400 / 2) (800 - 100))
       (mkVelocity 0 0) (mkSize 40 40) 0 100 100 true)
    "local_player" "Player" 0 3 BASIC_WEAPON [] true.

(** A freshly constructed engine with the local player added, in play. *)
Definition sample_engine : GameEngine.Engine :=
  let e := GameEngine.addPlayer (run (GameEngine.create sample_config) sample_world)
                                local_player in
  GameEngine.set_gameState e (set_gameStatus (GameEngine.gameState e) PLAYING).

(** A basic enemy as the spawner creates it in wave 1, moved onto [pos]. *)
Definition basic_enemy_at (pos : Position) : Enemy :=
  let s := GameEngine.enemySpawner sample_engine in
  let e := run (EnemySpawner.createEnemy sample_config s BASIC) sample_world in
  withObj e (set_position e pos).

(** The bullet the engine creates for a player, placed at [pos]. *)
Definition player_bullet_at (pos : Position) : Bullet :=
  run (GameEngine.createBullet sample_engine pos (mkVelocity 0 (-300))
         (Literal "local_player") PLAYER_BASIC) sample_world.

(** An enemy bullet as the physics code creates it for [e]. *)
Definition enemy_bullet_of (e : Enemy) : Bullet :=
  run (PhysicsEngine.createEnemyBullet e) sample_world.

(** The local player one hit away from losing a life. *)
Definition weakened_player : Player :=
  withObj local_player (set_health local_player 10).

(** A second player, armed with the laser, and an engine in play holding
    both players. *)
Definition laser_player : Player :=
  mkPlayer
    (mkGameObject (Literal "guest") (mkPosition 100 700)
       (mkVelocity 0 0) (mkSize 40 40) 0 100 100 true)
    "guest" "Guest" 0 3 LASER_WEAPON [] false.

Definition two_player_engine : GameEngine.Engine :=
  GameEngine.addPlayer sample_engine laser_player.

(** Scenario A: the local player with ten basic enemies on top of it. *)
Definition scenarioA_state : GameState :=
  set_enemies (GameEngine.gameState sample_engine)
              (repeat (basic_enemy_at (position local_player)) 10).

(** Scenario B: one player bullet on top of one wave-1 basic enemy, away
    from the player. *)
Definition scenarioB_state : GameState :=
  let gs := GameEngine.gameState sample_engine in
  set_bullets (set_enemies gs [basic_enemy_at (mkPosition 100 100)])
              [player_bullet_at (mkPosition 100 100)].

(** ** Vocabulary for the collision properties *)

(** The bounding box of an object: centred on its position, with the
    size as full extents. *)
Definition box_left (o : GameObject) : number := pos_x (position o) - width (size o) / 2.
Definition box_right (o : GameObject) : number := pos_x (position o) + width (size o) / 2.
Definition box_top (o : GameObject) : number := pos_y (position o) - height (size o) / 2.
Definition box_bottom (o : GameObject) : number := pos_y (position o) + height (size o) / 2.

(** Strict overlap on both axes, as the specification words it. *)
Definition overlap_strict (a b : GameObject) : Prop :=
  box_left a < box_right b /\ box_right a > box_left b /\
  box_top a < box_bottom b /\ box_bottom a > box_top b.

(** Two boxes touch when an edge of one lies on the facing edge of the
    other. *)
Definition edges_touch (a b : GameObject) : Prop :=
  box_right a == box_left b \/ box_left a == box_right b \/
  box_bottom a == box_top b \/ box_top a == box_bottom b.

(** What losing a life means for a player, as the specification words it. *)
Definition life_lost (before after : Player) : Prop :=
  lives after = lives before - 1 /\
  0 <= lives after /\
  health after = maxHealth before /\
  (isActive after = false <-> lives after == 0).

(** What the depletion branch of the code does whatever the number of
    lives: the count is not floored, and the player goes inactive at 0 or
    below. *)
Definition life_taken (before after : Player) : Prop :=
  lives after = lives before - 1 /\
  health after = maxHealth before /\
  (isActive after = false <-> lives after <= 0).

(** A hit that does not deplete the health changes the health only. *)
Definition life_kept (before after : Player) (dmg : number) : Prop :=
  lives after = lives before /\
  health after = health before - dmg /\
  isActive after = isActive before.

(** Scenario A, as run by the collision pass of the engine: ten enemies
    of damage 10 each hit the player once. *)
Definition scenarioA_outcome : Prop :=
  let gs := run (GameEngine.handleCollisions scenarioA_state) sample_world in
  List.length (enemies scenarioA_state) = 10%nat /\
  Forall (fun e : Enemy => enemy_damage e == 10 /\ isActive e = true)
         (enemies scenarioA_state) /\
  Forall (fun e : Enemy => isActive e = false) (enemies gs) /\
  List.length (explosions gs) = 10%nat /\
  exists p', players gs = [p'] /\
             lives p' == 2 /\ health p' == 100 /\ isActive p' = true.

(** Scenario B, as run by the collision pass of the engine: the bullet a
    player fires (damage 10) meets a basic enemy spawned in wave 1
    (health 10, 100 points). *)
Definition scenarioB_outcome : Prop :=
  let gs := run (GameEngine.handleCollisions scenarioB_state) sample_world in
  EnemySpawner.waveNumber (GameEngine.enemySpawner sample_engine) = 1%Z /\
  (exists b0 e0,
      bullets scenarioB_state = [b0] /\ enemies scenarioB_state = [e0] /\
      bulletType b0 = PLAYER_BASIC /\ bullet_damage b0 == 10 /\ isActive b0 = true /\
      enemyType e0 = BASIC /\ health e0 == 10 /\ points e0 == 100 /\
      isActive e0 = true) /\
  Forall (fun e : Enemy => isActive e = false) (enemies gs) /\
  Forall (fun b : Bullet => isActive b = false) (bullets gs) /\
  score gs == score scenarioB_state + 100 /\
  List.length (explosions gs) = S (List.length (explosions scenarioB_state)).

(** ** Vocabulary for the physics properties *)

(** The playfield rectangle of an object:
    [halfWidth, screenWidth - halfWidth] x [halfHeight, screenHeight - halfHeight]. *)
Definition in_playfield (cfg : GameConfig) (o : GameObject) : Prop :=
  width (size o) / 2 <= pos_x (position o) /\
  pos_x (position o) <= screenWidth cfg - width (size o) / 2 /\
  height (size o) / 2 <= pos_y (position o) /\
  pos_y (position o) <= screenHeight cfg - height (size o) / 2.

(** The rectangle is not empty: the object is no larger than the screen. *)
Definition fits_screen (cfg : GameConfig) (o : GameObject) : Prop :=
  width (size o) <= screenWidth cfg /\ height (size o) <= screenHeight cfg.

(** The tests under which [constrainToScreen] clamps an axis. *)
Definition beyond_x (cfg : GameConfig) (o : GameObject) : Prop :=
  pos_x (position o) - width (size o) / 2 < 0 \/
  screenWidth cfg < pos_x (position o) + width (size o) / 2.

Definition beyond_y (cfg : GameConfig) (o : GameObject) : Prop :=
  pos_y (position o) - height (size o) / 2 < 0 \/
  screenHeight cfg < pos_y (position o) + height (size o) / 2.

Definition same_position (o o' : GameObject) : Prop :=
  pos_x (position o') == pos_x (position o) /\
  pos_y (position o') == pos_y (position o).

Definition still (o : GameObject) : Prop :=
  vel_x (velocity o) == 0 /\ vel_y (velocity o) == 0.

(** The theorems on the physics hold for every [MathLib].  Running the
    physics on concrete data needs some instance: this one is flat (every
    function answers 0, PI is 22/7), and the closed examples that use it
    state nothing that depends on its answers. *)
Definition flat_math : MathLib :=
  {| Math_sin := fun _ => 0;
     Math_cos := fun _ => 0;
     Math_sqrt := fun _ => 0;
     Math_atan2 := fun _ _ => 0;
     Math_PI := 22 # 7 |}.






(** The enemy loop only appends bullets to the state it threads. *)
Definition extends (gs gs' : GameState) : Prop :=
  players gs' = players gs /\ powerUps gs' = powerUps gs /\
  exists shots, bullets gs' = bullets gs ++ shots.

(** An entity before and after the physics step [ds]: untouched when
    inactive, else integrated (and possibly culled, which changes
    [isActive] only). *)
Definition integrated {math : MathLib} (ds : number) (o o' : GameObject) : Prop :=
  (isActive o = false -> o' = o) /\
  (isActive o = true ->
   position o' = position (PhysicsEngine.updateGameObject o ds) /\
   rotation o' = rotation (PhysicsEngine.updateGameObject o ds) /\
   size o' = size o).

(** The lives of a player are in order when they are a whole number, not
    negative, and at least 1 while the player is active.  Every player the
    game adds (3 lives, active) is in this state. *)
Definition lives_in_order (p : Player) : Prop :=
  exists n : Z, lives p == inject_Z n /\ (0 <= n)%Z /\
                (isActive p = true -> (1 <= n)%Z).

(** Every entity of the four collections is active. *)
Definition all_active (gs : GameState) : Prop :=
  Forall (fun p : Player => isActive p = true) (players gs) /\
  Forall (fun e : Enemy => isActive e = true) (enemies gs) /\
  Forall (fun b : Bullet => isActive b = true) (bullets gs) /\
  Forall (fun u : PowerUp => isActive u = true) (powerUps gs).

(** ** Vocabulary for the life of an engine *)

(** What is asked of an engine after its construction: the public methods
    the screen calls, and the frame callback the host runs. *)
Inductive command :=
  | AddPlayer (player : Player)
  | RemovePlayer (pid : string)
  | UpdatePlayerPosition (pid : string) (pos : Position)
  | PlayerShoot (pid : string)
  | StartGame (isMultiplayer : option bool) (handle : nat)
  | PauseGame
  | ResumeGame (handle : nat)
  | StopGame
  | AnimationFrame (handle : nat).

Definition obey {math : MathLib} (c : command) (e : GameEngine.Engine)
  : IO GameEngine.Engine :=
  match c with
  | AddPlayer player => ret (GameEngine.addPlayer e player)
  | RemovePlayer pid => ret (GameEngine.removePlayer e pid)
  | UpdatePlayerPosition pid pos => ret (GameEngine.updatePlayerPosition e pid pos)
  | PlayerShoot pid => GameEngine.playerShoot e pid
  | StartGame isMultiplayer handle => GameEngine.startGame e isMultiplayer handle
  | PauseGame => ret (GameEngine.pauseGame e)
  | ResumeGame handle => GameEngine.resumeGame e handle
  | StopGame => ret (GameEngine.stopGame e)
  | AnimationFrame handle => r <- GameEngine.gameLoop e handle ;; ret (snd r)
  end.

Fixpoint obey_all {math : MathLib} (cmds : list command) (e : GameEngine.Engine)
  : IO GameEngine.Engine :=
  match cmds with
  | [] => ret e
  | c :: rest => e1 <- obey c e ;; obey_all rest e1
  end.

(** The engine a run of commands leads to, from the constructor on. *)
Definition engine_after {math : MathLib} (config : GameConfig) (cmds : list command)
                        (w : World) : GameEngine.Engine :=
  run (e <- GameEngine.create config ;; obey_all cmds e) w.

(** The players that join have their lives in order, as the two players
    Game.tsx makes have (3 lives, active). *)
Definition joins_in_order (c : command) : Prop :=
  match c with
  | AddPlayer player => lives_in_order player
  | _ => True
  end.

(** A session: the local player joins, the game starts, a touch, a shot,
    and two frames. *)
Definition sample_session : list command :=
  [AddPlayer local_player; StartGame (Some false) 1;
   UpdatePlayerPosition "local_player" (mkPosition 120 640);
   PlayerShoot "local_player"; AnimationFrame 2; AnimationFrame 3].

(** ** Vocabulary for the spawner properties *)

(** The new-wave condition, in words: no enemy of the state is active, the
    time since the wave started exceeds the inter-wave delay, and the wave's
    quota has been spawned in full. *)
Definition wave_complete (s : EnemySpawner.state) (gs : GameState) (now : number) : Prop :=
  Forall (fun e : Enemy => isActive e = false) (enemies gs) /\
  EnemySpawner.timeBetweenWaves s < now - EnemySpawner.lastWaveTime s /\
  (EnemySpawner.maxEnemiesPerWave s <= EnemySpawner.enemiesInCurrentWave s)%Z.

(** What the trigger does to the spawner, in the words of the specification. *)
Definition wave_started (s s1 : EnemySpawner.state) : Prop :=
  EnemySpawner.waveNumber s1 = (EnemySpawner.waveNumber s + 1)%Z /\
  EnemySpawner.enemiesInCurrentWave s1 = 0%Z /\
  EnemySpawner.bossSpawned s1 = false /\
  EnemySpawner.spawnInterval s1 = Qmax 500 (EnemySpawner.spawnInterval s * (9 # 10)) /\
  EnemySpawner.maxEnemiesPerWave s1 = Z.min 15 (EnemySpawner.maxEnemiesPerWave s + 1) /\
  EnemySpawner.timeBetweenWaves s1 = Qmax 2000 (EnemySpawner.timeBetweenWaves s * (95 # 100)).

(** A run of the spawner: the calls made on it after construction. *)
Inductive call :=
  | Update (gameState : GameState) (deltaTime : number)
  | SetDifficulty (d : string)
  | Reset.

(** One call of a run: the spawner before, the call, the enemies handed
    back, the spawner after. *)
Record frame := mkFrame {
  before : EnemySpawner.state;
  request : call;
  created : list Enemy;
  after : EnemySpawner.state
}.

Fixpoint trace (config : GameConfig) (calls : list call)
               (s : EnemySpawner.state) (w : World) : list frame :=
  match calls with
  | [] => []
  | Update gs dt :: rest =>
      let '((es, s'), w') := EnemySpawner.update config s gs dt w in
      mkFrame s (Update gs dt) es s' :: trace config rest s' w'
  | SetDifficulty d :: rest =>
      mkFrame s (SetDifficulty d) [] (EnemySpawner.setDifficulty s d)
        :: trace config rest (EnemySpawner.setDifficulty s d) w
  | Reset :: rest =>
      let '(s', w') := EnemySpawner.reset s w in
      mkFrame s Reset [] s' :: trace config rest s' w'
  end.

Definition is_boss (e : Enemy) : bool :=
  match enemyType e with BOSS => true | _ => false end.

Definition bosses (f : frame) : list Enemy := filter is_boss (created f).

(** A call starts a wave when it is an [update] that moves the wave number,
    or a [reset] (which starts wave 1 again). *)
Definition starts_wave (f : frame) : bool :=
  match request f with
  | Update _ _ =>
      negb (EnemySpawner.waveNumber (after f) =? EnemySpawner.waveNumber (before f))%Z
  | SetDifficulty _ => false
  | Reset => true
  end.

(** The bosses created from the head of [tr] until a call starts a wave. *)
Fixpoint bosses_before_next_wave (tr : list frame) : list Enemy :=
  match tr with
  | [] => []
  | f :: rest => if starts_wave f then [] else bosses f ++ bosses_before_next_wave rest
  end.

(** The bosses a run created while the wave number was [n]. *)
Definition bosses_of_wave (n : Z) (tr : list frame) : list Enemy :=
  flat_map (fun f => if (EnemySpawner.waveNumber (after f) =? n)%Z
                     then bosses f else [])
           tr.

Definition is_reset (c : call) : bool :=
  match c with Reset => true | _ => false end.

Section SpawnerStages.
Import EnemySpawner.

(** What makes a boss legitimate: the state [s'] it was created under and
    the way it looks. *)
Definition boss_in_order (cfg : GameConfig) (s' : state) (e : Enemy) : Prop :=
  (5 | waveNumber s')%Z /\
  inject_Z (maxEnemiesPerWave s') * (8 # 10) <= inject_Z (enemiesInCurrentWave s') /\
  attackPattern e = CIRCULAR /\
  position e = mkPosition (screenWidth cfg / 2) (-50).

(** The boss and regular stages of [update], from the state [s1] the
    new-wave stage leaves: what they create and what they do to the spawner. *)
Definition spawn_stages (cfg : GameConfig) (s1 : state) (gs : GameState)
           (now : number) (w1 : World) : list Enemy * state * World :=
  let '(newEnemies, s2, w2) :=
    if shouldSpawnBoss s1 gs
    then let (boss, w2) := createBoss cfg s1 w1 in
         ([boss], set_bossSpawned s1 true, w2)
    else ([], s1, w1) in
  if shouldSpawnEnemy s2 now && (enemiesInCurrentWave s2 <? maxEnemiesPerWave s2)%Z
  then let (enemy, w3) := createRandomEnemy cfg s2 w2 in
       (newEnemies ++ [enemy],
        mkState now (spawnInterval s2) (waveNumber s2) (enemiesInCurrentWave s2 + 1)
                (maxEnemiesPerWave s2) (timeBetweenWaves s2) (lastWaveTime s2)
                (bossSpawned s2),
        w3)
  else (newEnemies, s2, w2).
End SpawnerStages.

(** Scenario C: wave 1 with its quota of 5 spawned, the fifth enemy 500 ms
    ago, the wave started 12 s ago, and no enemy left in the state. *)
Definition scenarioC_spawner : EnemySpawner.state :=
  EnemySpawner.mkState 12500 2000 1 5 5 5000 1000 false.

Definition scenarioC_world : World :=
  mkWorld (fun n => 13000 + inject_Z (Z.of_nat n)) 0 (fun _ => 1 # 2) 0 [].

(** A long run: forty frames 6 s apart (each clock read advances the clock
    by 6 s), each on a state cleared of enemies. *)
Definition slow_world : World :=
  mkWorld (fun n => 1000 + 6000 * inject_Z (Z.of_nat n)) 0 (fun _ => 1 # 2) 0 [].

Definition long_calls : list call :=
  repeat (Update GameEngine.initialGameState 16) 40.

Definition long_run : list frame :=
  trace sample_config long_calls
        (run EnemySpawner.create slow_world) (snd (EnemySpawner.create slow_world)).

(** The long run, a [reset], and the long run again. *)
Definition replayed_run : list frame :=
  trace sample_config (long_calls ++ Reset :: long_calls)
        (run EnemySpawner.create slow_world) (snd (EnemySpawner.create slow_world)).

(** The outcome of scenario C: one [update] takes the wave from 1 to 2 and
    leaves the per-wave counter at 0. *)
Definition scenarioC_outcome : Prop :=
  let gs := GameEngine.gameState sample_engine in
  let s' := snd (run (EnemySpawner.update sample_config scenarioC_spawner gs 16)
                     scenarioC_world) in
  wave_complete scenarioC_spawner gs (clock scenarioC_world 0) /\
  EnemySpawner.waveNumber scenarioC_spawner = 1%Z /\
  EnemySpawner.waveNumber s' = 2%Z /\
  EnemySpawner.enemiesInCurrentWave s' = 0%Z.

(** ** Vocabulary for the geometry of the collision module *)







Section SightVocabulary.
Import CollisionDetection.

End SightVocabulary.


(** The extents of an object are not negative. *)
Definition nonneg_size (o : GameObject) : Prop :=
  0 <= width (size o) /\ 0 <= height (size o).

(** ** Vocabulary for the helpers of the physics engine *)

(** A host whose square root is exact on the squares of whole numbers (it
    is the integer square root of the integer part); the rest is as in
    [flat_math]. *)
Definition root_math : MathLib :=
  {| Math_sin := fun _ => 0;
     Math_cos := fun _ => 0;
     Math_sqrt := fun q => inject_Z (Z.sqrt (Qfloor q));
     Math_atan2 := fun _ _ => 0;
     Math_PI := 22 # 7 |}.

(** An object at rest at the origin, and one moving with velocity (3, 4). *)
Definition resting_object : GameObject :=
  mkGameObject (Literal "probe") (mkPosition 0 0) (mkVelocity 0 0) (mkSize 10 10)
               0 1 1 true.
Definition moving_object : GameObject :=
  mkGameObject (Literal "probe") (mkPosition 0 0) (mkVelocity 3 4) (mkSize 10 10)
               0 1 1 true.

(** The distance from [o] to [target] as the enemy code computes it, with
    the host's square root. *)
Definition distance_to {math : MathLib} (o : GameObject) (target : Position) : number :=
  let dx := pos_x target - pos_x (position o) in
  let dy := pos_y target - pos_y (position o) in
  Math_sqrt (dx * dx + dy * dy).

(** ** Vocabulary for the power-up spawner *)

(** The random source answers in [0, 1), as [Math.random()] does. *)
Definition unit_entropy (w : World) : Prop :=
  forall n, 0 <= entropy w n /\ entropy w n < 1.

(** A power-up as the spawner makes it: active, 30 px above the screen,
    drifting down at 50 px/s, with the effect of its type. *)
Definition fresh_powerUp (u : PowerUp) : Prop :=
  isActive u = true /\ pos_y (position u) = -30 /\ velocity u = mkVelocity 0 50 /\
  health u = 1 /\ maxHealth u = 1 /\
  effect_type (effect u) = powerUpType u /\
  effect_duration (effect u) = powerUp_duration u /\
  size u = PowerUpSpawner.stat_size (PowerUpSpawner.getPowerUpStats (powerUpType u)).

(** The calls made on a power-up spawner after construction, and the states
    it goes through. *)
Inductive pickup_call :=
  | PickupUpdate (gameState : GameState) (deltaTime : number)
  | AdjustSpawnRate (difficulty : string)
  | IncreaseDifficulty
  | PickupReset.

Definition pickup_step (config : GameConfig) (c : pickup_call)
                       (s : PowerUpSpawner.state) (w : World)
  : PowerUpSpawner.state * World :=
  match c with
  | PickupUpdate gs dt =>
      let '((_, s'), w') := PowerUpSpawner.update config s gs dt w in (s', w')
  | AdjustSpawnRate d => (PowerUpSpawner.adjustSpawnRate s d, w)
  | IncreaseDifficulty => (PowerUpSpawner.increaseDifficulty s, w)
  | PickupReset => PowerUpSpawner.reset s w
  end.

Fixpoint pickup_states (config : GameConfig) (calls : list pickup_call)
                       (s : PowerUpSpawner.state) (w : World)
  : list PowerUpSpawner.state :=
  match calls with
  | [] => [s]
  | c :: rest =>
      s :: pickup_states config rest (fst (pickup_step config c s w))
                         (snd (pickup_step config c s w))
  end.

(** The range the two tuning fields of the power-up spawner stay in. *)
Definition pickup_tuning_in_range (s : PowerUpSpawner.state) : Prop :=
  12000 <= PowerUpSpawner.spawnInterval s /\ PowerUpSpawner.spawnInterval s <= 25000 /\
  15 # 100 <= PowerUpSpawner.spawnChance s /\ PowerUpSpawner.spawnChance s <= 4 # 10.

(** A state holding three active power-ups. *)
Definition three_pickups_state : GameState :=
  let u := run (PowerUpSpawner.createPowerUp sample_config HEALTH) sample_world in
  set_powerUps GameEngine.initialGameState [u; u; u].

(** ** Vocabulary for the runs of the enemy spawner *)

(** An enemy as the spawner makes it: active, at full health, heading
    straight down, with no shot fired yet. *)
Definition fresh_enemy (e : Enemy) : Prop :=
  isActive e = true /\ health e = maxHealth e /\ rotation e = 0 /\
  vel_x (velocity e) = 0 /\ lastShotTime e = None /\
  pos_y (position e) = (if is_boss e then -50 else -30).

(** The waves an enemy type appears in. *)
Definition wave_allows (n : Z) (t : EnemyType) : Prop :=
  match t with
  | BASIC => True
  | FAST => (2 <= n)%Z
  | HEAVY => (3 <= n)%Z
  | BOSS => (5 | n)%Z
  end.

(** The range the tuning fields and counters of the enemy spawner stay in. *)
Definition spawner_in_range (s : EnemySpawner.state) : Prop :=
  500 <= EnemySpawner.spawnInterval s /\ EnemySpawner.spawnInterval s <= 3000 /\
  (3 <= EnemySpawner.maxEnemiesPerWave s <= 15)%Z /\
  2000 <= EnemySpawner.timeBetweenWaves s /\ EnemySpawner.timeBetweenWaves s <= 5000 /\
  (1 <= EnemySpawner.waveNumber s)%Z /\
  (0 <= EnemySpawner.enemiesInCurrentWave s)%Z.

(** The wave's quota is respected. *)
Definition within_quota (s : EnemySpawner.state) : Prop :=
  (EnemySpawner.enemiesInCurrentWave s <= EnemySpawner.maxEnemiesPerWave s)%Z.

Definition is_set_difficulty (c : call) : bool :=
  match c with SetDifficulty _ => true | _ => false end.

(** The enemies other than bosses. *)
Definition regulars (es : list Enemy) : list Enemy :=
  filter (fun e => negb (is_boss e)) es.

(** The screen is at least as wide as the two spawn margins of 30 px. *)
Definition roomy (cfg : GameConfig) : Prop :=
  60 <= screenWidth cfg /\ 0 <= screenHeight cfg.

(** The spawn band: 30 px in from either side. *)
Definition in_spawn_band (cfg : GameConfig) (o : GameObject) : Prop :=
  30 <= pos_x (position o) /\ pos_x (position o) <= screenWidth cfg - 30.

(** The long run with the difficulty set to "easy" after its 16th call:
    the quota drops to 3 in the middle of a wave. *)
Definition eased_run : list frame :=
  trace sample_config
        (firstn 16 long_calls ++ SetDifficulty "easy" :: skipn 16 long_calls)
        (run EnemySpawner.create slow_world) (snd (EnemySpawner.create slow_world)).

(** ** Vocabulary for the frame of the physics engine *)

(** A bullet as an enemy fires it. *)
Definition enemy_shot (b : Bullet) : Prop :=
  bulletType b = ENEMY_BASIC /\ bullet_damage b = 10 /\
  velocity b = mkVelocity 0 150 /\ size b = mkSize 6 12 /\
  isActive b = true /\ isPlayerBullet b = None.

(** [gs'] is [gs] with the bullets [shots] appended and nothing else changed. *)
Definition with_shots (gs : GameState) (shots : list Bullet) (gs' : GameState) : Prop :=
  gs' = set_bullets gs (bullets gs ++ shots).

(** What a physics step does to the activity of an entity it may cull: an
    inactive entity is left as it is; an active one stays active exactly
    when it ends the step on screen.  It keeps its identity and extents. *)
Definition culled_off_screen (cfg : GameConfig) (o o' : GameObject) : Prop :=
  (isActive o = false -> o' = o) /\
  (isActive o = true ->
   (isActive o' = true <-> PhysicsEngine.isOnScreen cfg o' = true)) /\
  id o' = id o /\ size o' = size o /\ health o' = health o /\
  maxHealth o' = maxHealth o.

(** A player through a physics step: it may be moved, turned and stopped
    at an edge, and that is all; an inactive one is left exactly as it is. *)
Definition player_stepped (p p' : Player) : Prop :=
  p' = withObj p (player_obj p') /\
  id p' = id p /\ size p' = size p /\ health p' = health p /\
  maxHealth p' = maxHealth p /\ isActive p' = isActive p /\
  (isActive p = false -> p' = p).

(** An enemy through a physics step: culled by the rule above, with its
    kind, damage, points and attack pattern as before. *)
Definition enemy_stepped (cfg : GameConfig) (e e' : Enemy) : Prop :=
  culled_off_screen cfg e e' /\
  enemyType e' = enemyType e /\ enemy_damage e' = enemy_damage e /\
  points e' = points e /\ attackPattern e' = attackPattern e /\
  (isActive e = false -> e' = e).

(** A bullet or a power-up through a physics step: culled by the rule,
    with its velocity and every field of its own as before. *)
Definition bullet_stepped (cfg : GameConfig) (b b' : Bullet) : Prop :=
  culled_off_screen cfg b b' /\ b' = withObj b (bullet_obj b') /\
  velocity b' = velocity b /\ (isActive b = false -> b' = b).

Definition powerUp_stepped (cfg : GameConfig) (u u' : PowerUp) : Prop :=
  culled_off_screen cfg u u' /\ u' = withObj u (powerUp_obj u') /\
  velocity u' = velocity u /\ (isActive u = false -> u' = u).

(** A bullet fired by an active enemy of [es], as [createEnemyBullet] makes
    it: the fields a physics step leaves alone. *)
Definition fired_by (es : list Enemy) (b : Bullet) : Prop :=
  bulletType b = ENEMY_BASIC /\ bullet_damage b = 10 /\
  velocity b = mkVelocity 0 150 /\ size b = mkSize 6 12 /\
  isPlayerBullet b = None /\
  exists e : Enemy, In e es /\ isActive e = true /\ ownerId b = id e.

(** The fields of the state other than its five collections. *)
Definition same_settings (gs gs' : GameState) : Prop :=
  level gs' = level gs /\ wave gs' = wave gs /\
  enemiesKilled gs' = enemiesKilled gs /\
  powerUpsCollected gs' = powerUpsCollected gs /\ accuracy gs' = accuracy gs /\
  gameStatus gs' = gameStatus gs /\ isPaused gs' = isPaused gs /\
  timeElapsed gs' = timeElapsed gs /\ isMultiplayer gs' = isMultiplayer gs /\
  roomId gs' = roomId gs.

(** An enemy whose shot timer expired long ago, on the sample host. *)
Definition trigger_happy_enemy : Enemy :=
  set_lastShotTime (basic_enemy_at (mkPosition 100 100)) (Some (-5000)).

Definition skirmish_state : GameState :=
  set_enemies (GameEngine.gameState sample_engine) [trigger_happy_enemy].

(** An active player [p] is nearest to [e] among the players [ps], by the
    host's distances. *)
Definition nearest_active {math : MathLib} (e : Enemy) (ps : list Player) (p : Player)
  : Prop :=
  In p ps /\ isActive p = true /\
  forall q, In q ps -> isActive q = true ->
            distance_to e (position p) <= distance_to e (position q).


(** The state of the search loop of [findNearestPlayer] after the players
    [seen]: the nearest so far and its distance, or nothing yet. *)
Definition search_state {math : MathLib} (e : Enemy) (seen : list Player)
                        (acc : option Player * option number) : Prop :=
  match acc with
  | (None, None) => Forall (fun q : Player => isActive q = false) seen
  | (Some p, Some d) => d = distance_to e (position p) /\ nearest_active e seen p
  | _ => False
  end.

(** ** Vocabulary for the frame of the game engine *)

(** What collision handling may do to an entity: change its health and
    put it out of play.  It keeps its identity, place, motion and extents,
    and it is never put back in play. *)
Definition only_marked (o o' : GameObject) : Prop :=
  id o' = id o /\ position o' = position o /\ velocity o' = velocity o /\
  size o' = size o /\ rotation o' = rotation o /\ maxHealth o' = maxHealth o /\
  (isActive o' = true -> isActive o = true).

(** The same for a player, who also keeps name, weapon and score. *)
Definition only_hurt (p p' : Player) : Prop :=
  only_marked p p' /\ playerId p' = playerId p /\ playerName p' = playerName p /\
  weaponType p' = weaponType p /\ player_score p' = player_score p /\
  isLocalPlayer p' = isLocalPlayer p.

(** What collision handling may do to the rest of the state: append
    explosions (and change the score). *)
Definition only_explosions_added (gs gs' : GameState) : Prop :=
  (exists xs, explosions gs' = explosions gs ++ xs) /\ same_settings gs gs'.


(** What a collision handler does to the state it is given: the four
    entity collections are not its business. *)
Definition handled (gs gs' : GameState) : Prop :=
  players gs' = players gs /\ enemies gs' = enemies gs /\
  bullets gs' = bullets gs /\ powerUps gs' = powerUps gs /\
  only_explosions_added gs gs'.


(** The statistics and switches of the state that no frame writes. *)
Definition same_statistics (gs gs' : GameState) : Prop :=
  level gs' = level gs /\ wave gs' = wave gs /\
  enemiesKilled gs' = enemiesKilled gs /\
  powerUpsCollected gs' = powerUpsCollected gs /\ accuracy gs' = accuracy gs /\
  isPaused gs' = isPaused gs /\ isMultiplayer gs' = isMultiplayer gs /\
  roomId gs' = roomId gs.

(** An engine in play with nobody in it. *)
Definition deserted_engine : GameEngine.Engine :=
  let e := run (GameEngine.create sample_config) sample_world in
  GameEngine.set_gameState e (set_gameStatus (GameEngine.gameState e) PLAYING).


(** The game an engine holds, apart from status, switches and loop: the
    entities, the score, the time played and the two spawners. *)
Definition same_game (e e' : GameEngine.Engine) : Prop :=
  players (GameEngine.gameState e') = players (GameEngine.gameState e) /\
  enemies (GameEngine.gameState e') = enemies (GameEngine.gameState e) /\
  bullets (GameEngine.gameState e') = bullets (GameEngine.gameState e) /\
  powerUps (GameEngine.gameState e') = powerUps (GameEngine.gameState e) /\
  explosions (GameEngine.gameState e') = explosions (GameEngine.gameState e) /\
  score (GameEngine.gameState e') = score (GameEngine.gameState e) /\
  timeElapsed (GameEngine.gameState e') = timeElapsed (GameEngine.gameState e) /\
  GameEngine.enemySpawner e' = GameEngine.enemySpawner e /\
  GameEngine.powerUpSpawner e' = GameEngine.powerUpSpawner e /\
  GameEngine.config e' = GameEngine.config e.

(** ** Vocabulary for the engine's commands *)

(** Where a player's bullets start: the middle of its top edge. *)
Definition nose (player : Player) : Position :=
  mkPosition (pos_x (position player))
             (pos_y (position player) - height (size player) / 2).

(** [b] is a shot of the player known as [owner]: at [pos], flying at
    [vel], with the fields every bullet of the engine gets. *)
Definition player_shot (owner : string) (pos : Position) (vel : Velocity)
                       (b : Bullet) : Prop :=
  pos_x (position b) == pos_x pos /\ pos_y (position b) == pos_y pos /\
  vel_x (velocity b) == vel_x vel /\ vel_y (velocity b) == vel_y vel /\
  size b = mkSize 4 10 /\ isActive b = true /\ health b = 1 /\
  bullet_damage b = 10 /\ ownerId b = Literal owner /\
  bulletType b = PLAYER_BASIC.

(** The flag [createBullet] computes: some player's [id] is the owner. *)
Definition owner_is_known (e : GameEngine.Engine) (owner : string) : bool :=
  existsb (fun q : Player => ident_eqb (id q) (Literal owner))
          (players (GameEngine.gameState e)).

(** An engine whose two players share one [playerId]. *)
Definition twin_engine : GameEngine.Engine :=
  GameEngine.addPlayer two_player_engine
    (withObj local_player (set_position local_player (mkPosition 300 700))).

(** ** Vocabulary for pick-ups and explosions *)

(** What a pick-up leaves of a player apart from its health. *)
Definition only_healed (p p' : Player) : Prop :=
  p' = withObj p (set_health p (health p')).

(** The frames [dts], one after the other, as the explosions see them. *)
Definition age_through (gs : GameState) (dts : list number) : GameState :=
  fold_left GameEngine.updateExplosions dts gs.

(** The game time that [first :: rest] adds up to. *)
Definition time_passed (first : number) (rest : list number) : number :=
  fold_left Qplus rest first.

(** [x'] is the explosion [x], [total] ms later. *)
Definition aged (total : number) (x x' : Explosion) : Prop :=
  explosion_id x' = explosion_id x /\
  explosion_position x' = explosion_position x /\
  explosion_size x' = explosion_size x /\
  duration x' = duration x /\
  currentFrame x' == currentFrame x + total /\
  animationProgress x' == Math_min (currentFrame x' / duration x') 1.

(** The explosion has time left after [total] more ms. *)
Definition outlasts (total : number) (x : Explosion) : bool :=
  currentFrame x + total <? duration x.

(** A state with two explosions, 100 ms and 460 ms into their 500 ms. *)
Definition two_blasts : GameState :=
  set_explosions GameEngine.initialGameState
    [mkExplosion (Literal "early") (mkPosition 10 10) (mkSize 30 30) 500 100 (1 # 5);
     mkExplosion (Literal "late") (mkPosition 90 90) (mkSize 25 25) 500 460 (23 # 25)].

(** ** Vocabulary for the touch input and the radius search *)

(** The rectangle the touch handler keeps the player's centre in. *)
Definition in_touch_area (screenWidth screenHeight : number) (pos : Position) : Prop :=
  30 <= pos_x pos /\ pos_x pos <= screenWidth - 30 /\
  50 <= pos_y pos /\ pos_y pos <= screenHeight - 150.

(** The same point, coordinate by coordinate. *)
Definition same_point (a b : Position) : Prop :=
  pos_x a == pos_x b /\ pos_y a == pos_y b.

(** Four objects around the origin, one of them switched off. *)
Definition scattered : list GameObject :=
  [mkGameObject (Literal "near") (mkPosition 3 4) (mkVelocity 0 0) (mkSize 10 10) 0 1 1 true;
   mkGameObject (Literal "off") (mkPosition 1 1) (mkVelocity 0 0) (mkSize 10 10) 0 1 1 false;
   mkGameObject (Literal "far") (mkPosition 30 40) (mkVelocity 0 0) (mkSize 10 10) 0 1 1 true;
   mkGameObject (Literal "mid") (mkPosition 6 8) (mkVelocity 0 0) (mkSize 10 10) 0 1 1 true].

(** * Properties *)

Local Close Scope io_scope.

(** ** Boolean comparisons reflect the order on [Q] *)

Lemma Qltb_lt (a b : number) : (a <? b) = true <-> a < b.
Proof.
  unfold Qltb. rewrite negb_true_iff.
  split; intro Hab.
  - apply Qnot_le_lt. intro Hle. apply Qle_bool_iff in Hle. congruence.
  - destruct (Qle_bool b a) eqn:E; trivial.
    apply Qle_bool_iff in E. exfalso. apply (Qlt_not_le _ _ Hab E).
Qed.

Lemma Qltb_ge (a b : number) : (a <? b) = false <-> b <= a.
Proof.
  unfold Qltb. rewrite negb_false_iff. apply Qle_bool_iff.
Qed.

Lemma Qgtb_gt (a b : number) : (a >? b) = true <-> b < a.
Proof. apply Qltb_lt. Qed.

Lemma Qgtb_le (a b : number) : (a >? b) = false <-> a <= b.
Proof. apply Qltb_ge. Qed.

Lemma Qleb_le (a b : number) : (a <=? b) = true <-> a <= b.
Proof. apply Qle_bool_iff. Qed.

Lemma Qleb_gt (a b : number) : (a <=? b) = false <-> b < a.
Proof.
  split; intro Hab.
  - apply Qnot_le_lt. intro Hle. apply Qle_bool_iff in Hle. congruence.
  - destruct (a <=? b) eqn:E; trivial.
    apply Qle_bool_iff in E. exfalso. apply (Qlt_not_le _ _ Hab E).
Qed.

Lemma Qeqb_eq (a b : number) : (a =? b) = true <-> a == b.
Proof. apply Qeq_bool_iff. Qed.

Lemma Qeqb_neq (a b : number) : (a =? b) = false <-> ~ a == b.
Proof.
  split.
  - apply Qeq_bool_neq.
  - intro Hne. destruct (a =? b) eqn:E; trivial.
    apply Qeq_bool_iff in E. contradiction.
Qed.

(** Turns every boolean comparison among the hypotheses into its
    proposition, so that [lra] can use it. *)
Ltac reflect_cmp :=
  repeat match goal with
  | H : (_ <? _) = true |- _ => apply Qltb_lt in H
  | H : (_ <? _) = false |- _ => apply Qltb_ge in H
  | H : (_ >? _) = true |- _ => apply Qgtb_gt in H
  | H : (_ >? _) = false |- _ => apply Qgtb_le in H
  | H : (_ <=? _) = true |- _ => apply Qleb_le in H
  | H : (_ <=? _) = false |- _ => apply Qleb_gt in H
  | H : (_ =? _) = true |- _ => apply Qeqb_eq in H
  | H : (_ =? _) = false |- _ => apply Qeqb_neq in H
  end.

(** [lra] does not look under a division: the divisions by the literals
    the code uses are rewritten as products first. *)
Ltac div_literals :=
  unfold Qdiv in *;
  change (/ 2) with (1 # 2) in *;
  change (/ 1000) with (1 # 1000) in *.

Ltac qlra := div_literals; lra.

(** ** Collision module *)

Section Collision.
Import CollisionDetection.

Lemma checkAABBCollision_true (a b : GameObject) :
  checkAABBCollision (position a) (size a) (position b) (size b) = true
  <-> overlap_strict a b.
Proof.
  unfold checkAABBCollision, overlap_strict, box_left, box_right, box_top, box_bottom.
  cbv zeta. rewrite !andb_true_iff, !Qltb_lt, !Qgtb_gt. tauto.
Qed.

Lemma checkCollision_true (a b : GameObject) :
  checkCollision a b = true
  <-> isActive a = true /\ isActive b = true /\ overlap_strict a b.
Proof.
  unfold checkCollision.
  destruct (isActive a), (isActive b); cbn [negb orb];
    rewrite ?checkAABBCollision_true; intuition congruence.
Qed.

Lemma checkCollision_active (a b : GameObject) :
  checkCollision a b = true -> isActive a = true /\ isActive b = true.
Proof. rewrite checkCollision_true. tauto. Qed.

(** The same test on the centres: the distance on each axis is below the
    mean of the two extents. *)
Lemma overlap_strict_centres (a b : GameObject) :
  overlap_strict a b
  <-> Qabs (pos_x (position a) - pos_x (position b))
        < (width (size a) + width (size b)) / 2
      /\ Qabs (pos_y (position a) - pos_y (position b))
        < (height (size a) + height (size b)) / 2.
Proof.
  unfold overlap_strict, box_left, box_right, box_top, box_bottom.
  split.
  - intros (H1 & H2 & H3 & H4). split; apply Qabs_case; intros; qlra.
  - intros [Hx Hy].
    revert Hx Hy.
    apply (Qabs_case (pos_x (position a) - pos_x (position b)));
      apply (Qabs_case (pos_y (position a) - pos_y (position b)));
      intros; repeat split; qlra.
Qed.

(** C5. [checkCollision a b] is true exactly when both objects are active
    and their bounding boxes (centred on the position, full extents equal
    to the size) overlap strictly on both axes; so it is false as soon as
    one object is inactive, boxes whose edges merely touch do not collide,
    and the test is symmetric. *)
Theorem checkCollision_strict_aabb (a b : GameObject) :
  (checkCollision a b = true
   <-> isActive a = true /\ isActive b = true /\ overlap_strict a b)
  /\ (isActive a = false \/ isActive b = false -> checkCollision a b = false)
  /\ (edges_touch a b -> checkCollision a b = false)
  /\ checkCollision a b = checkCollision b a.
Proof.
  split; [apply checkCollision_true|].
  split; [|split].
  - intros Hin. destruct (checkCollision a b) eqn:E; trivial.
    apply checkCollision_active in E. destruct Hin; intuition congruence.
  - intros Ht. destruct (checkCollision a b) eqn:E; trivial.
    apply checkCollision_true in E. destruct E as (_ & _ & H1 & H2 & H3 & H4).
    unfold edges_touch in Ht. exfalso. lra.
  - apply eq_true_iff_eq. rewrite !checkCollision_true.
    unfold overlap_strict. intuition.
Qed.

End Collision.

(** ** Collision handlers of the engine *)

Section Handlers.
Import CollisionDetection GameEngine.

Lemma loseLifeIfDepleted_depleted (p : Player) :
  isActive p = true -> 1 <= lives p -> health p <= 0 ->
  let p' := loseLifeIfDepleted p in
  lives p' = lives p - 1 /\ 0 <= lives p' /\ health p' = maxHealth p /\
  (isActive p' = false <-> lives p' == 0).
Proof.
  intros Hact Hl Hh. unfold loseLifeIfDepleted.
  apply Qleb_le in Hh. rewrite Hh. cbn.
  destruct (lives p - 1 <=? 0) eqn:E; cbn; reflect_cmp.
  - repeat split; trivial; lra.
  - repeat split; trivial; try lra.
    intro Hoff. congruence.
Qed.

(** What the depletion branch does whatever the number of lives: the
    count drops by 1, the health is reset, and the player is inactive
    afterwards exactly when the count is 0 or less (it was active before). *)
Lemma loseLifeIfDepleted_any_lives (p : Player) :
  isActive p = true -> health p <= 0 ->
  let p' := loseLifeIfDepleted p in
  lives p' = lives p - 1 /\ health p' = maxHealth p /\
  (isActive p' = false <-> lives p' <= 0).
Proof.
  intros Hact Hh. unfold loseLifeIfDepleted.
  apply Qleb_le in Hh. rewrite Hh. cbn.
  destruct (lives p - 1 <=? 0) eqn:E; cbn; reflect_cmp.
  - repeat split; trivial.
  - repeat split; trivial.
    + intro Hoff. congruence.
    + intro Hle. lra.
Qed.

Lemma loseLifeIfDepleted_alive (p : Player) :
  0 < health p -> loseLifeIfDepleted p = p.
Proof.
  intros Hh. unfold loseLifeIfDepleted.
  apply Qleb_gt in Hh. now rewrite Hh.
Qed.

Lemma handlePlayerEnemyCollision_player (p : Player) (e : Enemy) gs w :
  fst (fst (run (handlePlayerEnemyCollision p e gs) w))
  = loseLifeIfDepleted (withObj p (set_health p (health p - enemy_damage e))).
Proof. reflexivity. Qed.

Lemma handleBulletPlayerCollision_player (b : Bullet) (p : Player) gs w :
  snd (fst (run (handleBulletPlayerCollision b p gs) w))
  = loseLifeIfDepleted (withObj p (set_health p (health p - bullet_damage b))).
Proof. reflexivity. Qed.

Lemma damaged_player_outcome (p : Player) (dmg : number) :
  isActive p = true ->
  let p' := loseLifeIfDepleted (withObj p (set_health p (health p - dmg))) in
  (health p - dmg <= 0 -> life_taken p p' /\ (1 <= lives p -> life_lost p p')) /\
  (0 < health p - dmg -> life_kept p p' dmg).
Proof.
  intros Hact p'. split; intro Hh.
  - split.
    + exact (loseLifeIfDepleted_any_lives
               (withObj p (set_health p (health p - dmg))) Hact Hh).
    + intros Hl.
      exact (loseLifeIfDepleted_depleted
               (withObj p (set_health p (health p - dmg))) Hact Hl Hh).
  - subst p'. rewrite loseLifeIfDepleted_alive by exact Hh.
    repeat split.
Qed.

Lemma scenarioA_holds : scenarioA_outcome.
Proof.
  unfold scenarioA_outcome. cbv zeta.
  split; [reflexivity|].
  split; [repeat constructor|].
  split; [vm_compute; repeat constructor|].
  split; [vm_compute; reflexivity|].
  eexists. split; [vm_compute; reflexivity|].
  cbn. repeat split.
Qed.

Lemma scenarioB_holds : scenarioB_outcome.
Proof.
  unfold scenarioB_outcome; cbv zeta.
  split; [reflexivity|].
  split; [eexists; eexists; repeat split; try reflexivity|].
  split; [vm_compute; repeat constructor|].
  split; [vm_compute; repeat constructor|].
  split; vm_compute; reflexivity.
Qed.

(** C4. When a player bullet hits an enemy, the bullet's damage is taken
    off the enemy's health and the bullet is deactivated; if the enemy's
    health is then 0 or below, the enemy is deactivated, the score grows by
    exactly the enemy's point value and exactly one explosion is appended
    (otherwise score, explosions and the enemy's activity are untouched).
    For the damage-10 bullet of a player against a wave-1 basic enemy
    (health 10, 100 points) this happens on the first hit. *)
Theorem player_bullet_hits_enemy
  (b : Bullet) (e : Enemy) (gs : GameState) (w : World) :
  let r := run (handleBulletEnemyCollision b e gs) w in
  let b' := fst (fst r) in
  let e' := snd (fst r) in
  let gs' := snd r in
  health e' = health e - bullet_damage b /\
  isActive b' = false /\
  (health e - bullet_damage b <= 0 ->
   isActive e' = false /\
   score gs' = score gs + points e /\
   exists x, explosions gs' = explosions gs ++ [x]) /\
  (0 < health e - bullet_damage b ->
   isActive e' = isActive e /\ score gs' = score gs /\
   explosions gs' = explosions gs) /\
  scenarioB_outcome.
Proof.
  cbv zeta. unfold handleBulletEnemyCollision, run.
  destruct (health (withObj e (set_health e (health e - bullet_damage b))) <=? 0)
    eqn:E; cbn in E |- *; reflect_cmp.
  - split; [reflexivity|]. split; [reflexivity|]. split; [|split].
    + intros _. split; [reflexivity|]. split; [reflexivity|].
      eexists. reflexivity.
    + intro Hpos. lra.
    + exact scenarioB_holds.
  - split; [reflexivity|]. split; [reflexivity|]. split; [|split].
    + intro Hneg. lra.
    + intros _. repeat split.
    + exact scenarioB_holds.
Qed.
End Handlers.

(** ** Collision passes keep the lives of the players in order *)

Section PassInvariant.
Import CollisionDetection GameEngine.
Context {A B : Type} {EA : Entity A} {EB : Entity B}.
Variable guard : A -> bool.
Variable handle : A -> B -> GameState -> IO (A * B * GameState).
Variable PA : A -> Prop.
Variable PB : B -> Prop.
Variable PG : GameState -> Prop.

Hypothesis handle_keeps :
  forall a b gs w,
    checkCollision (obj a) (obj b) = true -> PA a -> PB b -> PG gs ->
    PA (fst (fst (fst (handle a b gs w)))) /\
    PB (snd (fst (fst (handle a b gs w)))) /\
    PG (snd (fst (handle a b gs w))).

(** A pass calls its handler on a pair exactly when the collision test
    holds for the pair. *)
Lemma inner_hit (a : A) (b : B) (gs : GameState) (w : World) :
  checkCollision (obj a) (obj b) = true ->
  fst (inner handle a [b] gs w)
  = (fst (fst (fst (handle a b gs w))),
     [snd (fst (fst (handle a b gs w)))],
     snd (fst (handle a b gs w))).
Proof.
  intros Hc. cbn [inner]. unfold bind. rewrite Hc.
  destruct (handle a b gs w) as [[[a1 b1] gs1] w1]. reflexivity.
Qed.

Lemma inner_miss (a : A) (b : B) (gs : GameState) (w : World) :
  checkCollision (obj a) (obj b) = false ->
  inner handle a [b] gs w = (a, [b], gs, w).
Proof.
  intros Hc. cbn [inner]. unfold bind. rewrite Hc. reflexivity.
Qed.

Lemma inner_keeps (bs : list B) :
  forall a gs w,
    PA a -> Forall PB bs -> PG gs ->
    PA (fst (fst (fst (inner handle a bs gs w)))) /\
    Forall PB (snd (fst (fst (inner handle a bs gs w)))) /\
    PG (snd (fst (inner handle a bs gs w))).
Proof.
  induction bs as [|b bs IH]; intros a gs w Ha Hbs Hgs.
  - cbn. auto.
  - inversion Hbs as [|? ? Hb Hrest]; subst.
    cbn [inner]. unfold bind.
    assert (Hstep : forall r,
               r = (if checkCollision (obj a) (obj b)
                    then handle a b gs else ret (a, b, gs)) w ->
               PA (fst (fst (fst r))) /\ PB (snd (fst (fst r))) /\ PG (snd (fst r))).
    { intros r ->. destruct (checkCollision (obj a) (obj b)) eqn:Hc.
      - apply handle_keeps; assumption.
      - cbn. auto. }
    specialize (Hstep _ eq_refl).
    destruct ((if checkCollision (obj a) (obj b)
               then handle a b gs else ret (a, b, gs)) w) as [[[a1 b1] gs1] w1].
    cbn [fst snd] in Hstep. destruct Hstep as (Ha1 & Hb1 & Hg1).
    specialize (IH a1 gs1 w1 Ha1 Hrest Hg1).
    destruct (inner handle a1 bs gs1 w1) as [[[a2 bs2] gs2] w2].
    cbn [fst snd ret] in *. destruct IH as (Ha2 & Hbs2 & Hg2).
    split; [exact Ha2|]. split; [constructor; assumption | exact Hg2].
Qed.

Lemma outer_keeps (l : list A) :
  forall bs gs w,
    Forall PA l -> Forall PB bs -> PG gs ->
    Forall PA (fst (fst (fst (outer guard handle l bs gs w)))) /\
    Forall PB (snd (fst (fst (outer guard handle l bs gs w)))) /\
    PG (snd (fst (outer guard handle l bs gs w))).
Proof.
  induction l as [|a l IH]; intros bs gs w Hl Hbs Hgs.
  - cbn. auto.
  - inversion Hl as [|? ? Ha Hrest]; subst.
    cbn [outer]. unfold bind.
    assert (Hstep : forall r,
               r = (if guard a then inner handle a bs gs else ret (a, bs, gs)) w ->
               PA (fst (fst (fst r))) /\ Forall PB (snd (fst (fst r))) /\
               PG (snd (fst r))).
    { intros r ->. destruct (guard a).
      - apply inner_keeps; assumption.
      - cbn. auto. }
    specialize (Hstep _ eq_refl).
    destruct ((if guard a then inner handle a bs gs else ret (a, bs, gs)) w)
      as [[[a1 bs1] gs1] w1].
    cbn [fst snd] in Hstep. destruct Hstep as (Ha1 & Hbs1 & Hg1).
    specialize (IH bs1 gs1 w1 Hrest Hbs1 Hg1).
    destruct (outer guard handle l bs1 gs1 w1) as [[[l2 bs2] gs2] w2].
    cbn [fst snd ret] in *. destruct IH as (Hl2 & Hbs2 & Hg2).
    split; [constructor; assumption|]. split; assumption.
Qed.
End PassInvariant.

Section Lives.
Import CollisionDetection GameEngine.

Lemma loseLifeIfDepleted_in_order (p : Player) :
  isActive p = true -> lives_in_order p -> lives_in_order (loseLifeIfDepleted p).
Proof.
  intros Hact (n & Hn & H0 & H1). specialize (H1 Hact).
  unfold loseLifeIfDepleted.
  destruct (health p <=? 0); [|exists n; auto].
  cbn. destruct (lives p - 1 <=? 0) eqn:E; cbn; reflect_cmp;
    exists (n - 1)%Z; unfold Zminus; rewrite inject_Z_plus, inject_Z_opp;
    change (inject_Z 1) with 1;
    cbn [lives isActive player_obj set_isActive set_health].
  - split; [lra|]. split; [lia|discriminate].
  - split; [lra|]. split; [lia|]. intros _.
    assert (Hpos : inject_Z 1 < inject_Z n) by (change (inject_Z 1) with 1; lra).
    rewrite <- Zlt_Qlt in Hpos. lia.
Qed.

(** Neither the spawned explosions nor the score have a say in this, so
    the state is left out of the invariant ([PG] is trivial). *)
Lemma handleCollisions_players (gs : GameState) (w : World) :
  Forall lives_in_order (players gs) ->
  Forall lives_in_order (players (run (handleCollisions gs) w)).
Proof.
  intros Hp. unfold handleCollisions, run, bind.
  pose proof (outer_keeps (fun _ : Player => true) handlePlayerEnemyCollision
                lives_in_order (fun _ : Enemy => True) (fun _ => True)) as H1.
  pose proof (outer_keeps
                (fun b : Bullet => startsWith (bulletTypeValue (bulletType b)) "player")
                handleBulletEnemyCollision
                (fun _ : Bullet => True) (fun _ : Enemy => True)
                (fun gs' => Forall lives_in_order (players gs'))) as H2.
  pose proof (outer_keeps
                (fun b : Bullet => startsWith (bulletTypeValue (bulletType b)) "enemy")
                handleBulletPlayerCollision
                (fun _ : Bullet => True) lives_in_order (fun _ => True)) as H3.
  pose proof (outer_keeps (fun _ : Player => true) handlePlayerPowerUpCollision
                lives_in_order (fun _ : PowerUp => True) (fun _ => True)) as H4.
  (* pass 1 *)
  specialize (H1 ltac:(
    intros a b g w0 Hc Ha _ _; split; [|split; exact I];
    change (fst (fst (fst (handlePlayerEnemyCollision a b g w0))))
      with (loseLifeIfDepleted (withObj a (set_health a (health a - enemy_damage b))));
    apply checkCollision_active in Hc;
    apply loseLifeIfDepleted_in_order; [apply Hc | exact Ha])
    (players gs) (enemies gs) gs w Hp
    ltac:(apply Forall_forall; intros; exact I) I).
  destruct (outer (fun _ : Player => true) handlePlayerEnemyCollision
              (players gs) (enemies gs) gs w) as [[[ps1 es1] gs1] w1].
  cbn [fst snd] in H1. destruct H1 as (Hp1 & _ & _).
  (* pass 2 *)
  set (g1 := set_enemies (set_players gs1 ps1) es1).
  specialize (H2 ltac:(
    intros a b g w0 _ _ _ Hg; split; [exact I|]; split; [exact I|];
    unfold handleBulletEnemyCollision;
    match goal with |- context [if ?c then _ else _] => destruct c end;
    exact Hg)
    (bullets g1) (enemies g1) g1 w1
    ltac:(apply Forall_forall; intros; exact I)
    ltac:(apply Forall_forall; intros; exact I) Hp1).
  destruct (outer _ handleBulletEnemyCollision (bullets g1) (enemies g1) g1 w1)
    as [[[bs2 es2] gs2] w2].
  cbn [fst snd] in H2. destruct H2 as (_ & _ & Hp2).
  (* pass 3 *)
  set (g2 := set_enemies (set_bullets gs2 bs2) es2).
  specialize (H3 ltac:(
    intros a b g w0 Hc _ Hb _; split; [exact I|]; split; [|exact I];
    change (snd (fst (fst (handleBulletPlayerCollision a b g w0))))
      with (loseLifeIfDepleted (withObj b (set_health b (health b - bullet_damage a))));
    apply checkCollision_active in Hc;
    apply loseLifeIfDepleted_in_order; [apply Hc | exact Hb])
    (bullets g2) (players g2) g2 w2
    ltac:(apply Forall_forall; intros; exact I) Hp2 I).
  destruct (outer _ handleBulletPlayerCollision (bullets g2) (players g2) g2 w2)
    as [[[bs3 ps3] gs3] w3].
  cbn [fst snd] in H3. destruct H3 as (_ & Hp3 & _).
  (* pass 4 *)
  set (g3 := set_players (set_bullets gs3 bs3) ps3).
  specialize (H4 ltac:(
    intros a b g w0 _ Ha _ _; split; [|split; exact I];
    unfold handlePlayerPowerUpCollision, applyPowerUp; cbn;
    destruct (powerUpType b); exact Ha)
    (players g3) (powerUps g3) g3 w3 Hp3
    ltac:(apply Forall_forall; intros; exact I) I).
  destruct (outer _ handlePlayerPowerUpCollision (players g3) (powerUps g3) g3 w3)
    as [[[ps4 us4] gs4] w4].
  cbn [fst snd] in H4. destruct H4 as (Hp4 & _ & _).
  exact Hp4.
Qed.

(** So a player whose lives are in order never shows a negative count, in
    any state that collision passes lead to. *)
Lemma lives_in_order_nonneg (p : Player) : lives_in_order p -> 0 <= lives p.
Proof.
  intros (n & Hn & H0 & _). rewrite Hn.
  change 0 with (inject_Z 0). now rewrite <- Zle_Qle.
Qed.
End Lives.

(** ** Player commands of the engine *)

Section Commands.
Import GameEngine.

Lemma find_playerId_none (pid : string) (l : list Player) :
  Forall (fun p => playerId p <> pid) l ->
  find (fun p => String.eqb (playerId p) pid) l = None.
Proof.
  induction 1 as [|p l Hp _ IH]; cbn.
  - reflexivity.
  - destruct (String.eqb_spec (playerId p) pid) as [Heq|_].
    + contradiction.
    + exact IH.
Qed.

(** C8. For a [playerId] that matches no player of the state,
    [updatePlayerPosition] and [playerShoot] are silent no-ops: both are
    total, the engine (hence the whole game state) is returned unchanged,
    and [playerShoot] leaves the host untouched as well (no bullet id is
    drawn, no sound is requested). *)
Theorem unknown_player_commands_are_noops
  (e : Engine) (pid : string) (pos : Position) (w : World) :
  Forall (fun p => playerId p <> pid) (players (gameState e)) ->
  updatePlayerPosition e pid pos = e /\
  gameState (updatePlayerPosition e pid pos) = gameState e /\
  playerShoot e pid w = (e, w) /\
  gameState (fst (playerShoot e pid w)) = gameState e.
Proof.
  intros Hmiss. apply find_playerId_none in Hmiss.
  unfold updatePlayerPosition, playerShoot. rewrite Hmiss.
  repeat split.
Qed.

Lemma unknown_player_commands_are_noops_witness :
  updatePlayerPosition two_player_engine "ghost" (mkPosition 10 20) = two_player_engine /\
  gameState (updatePlayerPosition two_player_engine "ghost" (mkPosition 10 20))
  = gameState two_player_engine /\
  playerShoot two_player_engine "ghost" sample_world = (two_player_engine, sample_world) /\
  gameState (fst (playerShoot two_player_engine "ghost" sample_world))
  = gameState two_player_engine.
Proof.
  apply (unknown_player_commands_are_noops two_player_engine "ghost"
           (mkPosition 10 20) sample_world).
  repeat constructor; discriminate.
Defined.

Lemma set_bullets_same (gs : GameState) : set_bullets gs (bullets gs) = gs.
Proof. destruct gs; reflexivity. Qed.

Lemma set_gameState_same (e : Engine) : set_gameState e (gameState e) = e.
Proof. destruct e; reflexivity. Qed.

(** C10. A player whose weapon is neither [basic] nor [spreadShot] fires
    nothing: while the game is playing, [playerShoot] for that player
    creates no bullet, so the bullet collection (indeed the whole engine)
    is as before; the only trace of the command is the shoot sound that is
    still requested. *)
Theorem unsupported_weapon_fires_nothing
  (e : Engine) (pid : string) (player : Player) (w : World) :
  find (fun p => String.eqb (playerId p) pid) (players (gameState e)) = Some player ->
  weaponType player <> BASIC_WEAPON ->
  weaponType player <> SPREAD_SHOT ->
  gameStatus (gameState e) = PLAYING ->
  run (createPlayerBullets e player) w = [] /\
  bullets (gameState (fst (playerShoot e pid w))) = bullets (gameState e) /\
  fst (playerShoot e pid w) = e /\
  cues (snd (playerShoot e pid w))
  = cues w ++ [ShootSound (weaponTypeValue (weaponType player))].
Proof.
  intros Hfind Hb Hs Hplay.
  assert (Hnone : createPlayerBullets e player = ret []).
  { unfold createPlayerBullets.
    destruct (weaponType player); try reflexivity; congruence. }
  unfold playerShoot. rewrite Hfind, Hplay, Hnone. cbn.
  rewrite app_nil_r, set_bullets_same, set_gameState_same.
  repeat split.
Qed.

Lemma unsupported_weapon_fires_nothing_witness :
  run (createPlayerBullets two_player_engine laser_player) sample_world = [] /\
  bullets (gameState (fst (playerShoot two_player_engine "guest" sample_world)))
  = bullets (gameState two_player_engine) /\
  fst (playerShoot two_player_engine "guest" sample_world) = two_player_engine /\
  cues (snd (playerShoot two_player_engine "guest" sample_world))
  = cues sample_world ++ [ShootSound (weaponTypeValue (weaponType laser_player))].
Proof.
  apply (unsupported_weapon_fires_nothing two_player_engine "guest" laser_player
           sample_world);
    [reflexivity | discriminate | discriminate | reflexivity].
Defined.

End Commands.

(** ** The enemy spawner *)

Section Spawner.
Import EnemySpawner.

Lemma no_active_enemies (l : list Enemy) :
  Nat.eqb (List.length (filter (fun e : Enemy => isActive e) l)) 0 = true
  <-> Forall (fun e : Enemy => isActive e = false) l.
Proof.
  rewrite Nat.eqb_eq. induction l as [|e l IH]; cbn.
  - split; [constructor | reflexivity].
  - destruct (isActive e) eqn:E; cbn.
    + split; [discriminate|]. intro H. inversion H; subst. congruence.
    + rewrite IH. split.
      * intro H. constructor; assumption.
      * intro H. inversion H; assumption.
Qed.

Lemma shouldStartNewWave_iff (s : state) (gs : GameState) (now : number) :
  shouldStartNewWave s gs now = true <-> wave_complete s gs now.
Proof.
  unfold shouldStartNewWave, wave_complete. cbv zeta.
  rewrite !andb_true_iff, no_active_enemies, Qgtb_gt, Z.geb_le.
  tauto.
Qed.

Lemma startNewWave_started (s : state) (w : World) :
  wave_started s (run (startNewWave s) w).
Proof. repeat split. Qed.

(** [update], with the world threaded by hand. *)
Lemma update_eq (cfg : GameConfig) (s : state) (gs : GameState)
      (dt : number) (w : World) :
  update cfg s gs dt w =
  let now := clock w (clockReads w) in
  let '(s1, w1) := if shouldStartNewWave s gs now
                   then startNewWave s (snd (Date_now w))
                   else (s, snd (Date_now w)) in
  let '(newEnemies, s2, w2) :=
    if shouldSpawnBoss s1 gs
    then let (boss, w2) := createBoss cfg s1 w1 in
         ([boss], set_bossSpawned s1 true, w2)
    else ([], s1, w1) in
  if shouldSpawnEnemy s2 now && (enemiesInCurrentWave s2 <? maxEnemiesPerWave s2)%Z
  then let (enemy, w3) := createRandomEnemy cfg s2 w2 in
       (newEnemies ++ [enemy],
        mkState now (spawnInterval s2) (waveNumber s2) (enemiesInCurrentWave s2 + 1)
                (maxEnemiesPerWave s2) (timeBetweenWaves s2) (lastWaveTime s2)
                (bossSpawned s2),
        w3)
  else (newEnemies, s2, w2).
Proof.
  unfold update, bind. unfold Date_now at 1. cbv beta iota zeta.
  change (mkWorld (clock w) (S (clockReads w)) (entropy w) (entropyReads w) (cues w))
    with (snd (Date_now w)).
  destruct (shouldStartNewWave s gs (clock w (clockReads w))).
  - destruct (startNewWave s (snd (Date_now w))) as [s1 w1].
    destruct (shouldSpawnBoss s1 gs).
    + destruct (createBoss cfg s1 w1) as [boss w2]. unfold ret at 1.
      cbv beta iota.
      destruct (shouldSpawnEnemy _ _ && _); reflexivity.
    + unfold ret at 1. cbv beta iota.
      destruct (shouldSpawnEnemy _ _ && _); reflexivity.
  - unfold ret at 1. cbv beta iota.
    destruct (shouldSpawnBoss s gs).
    + destruct (createBoss cfg s (snd (Date_now w))) as [boss w2]. unfold ret at 1.
      cbv beta iota.
      destruct (shouldSpawnEnemy _ _ && _); reflexivity.
    + unfold ret at 1. cbv beta iota.
      destruct (shouldSpawnEnemy _ _ && _); reflexivity.
Qed.

Lemma createBoss_spec (cfg : GameConfig) (s : state) (w : World) :
  let e := fst (createBoss cfg s w) in
  enemyType e = BOSS /\ attackPattern e = CIRCULAR /\
  position e = mkPosition (screenWidth cfg / 2) (-50).
Proof. repeat split. Qed.

Lemma createEnemy_type (cfg : GameConfig) (s : state) (t : EnemyType) (w : World) :
  enemyType (fst (createEnemy cfg s t w)) = t.
Proof. destruct t; reflexivity. Qed.

Lemma pick_In {A} (arr : list A) (r : number) (d : A) :
  In (pick arr r d) arr \/ pick arr r d = d.
Proof. unfold pick. destruct (nth_in_or_default (Z.to_nat (Qfloor (r * inject_Z (Z.of_nat (List.length arr))))) arr d); auto. Qed.

Lemma available_types_regular (s : state) (t : EnemyType) :
  In t (getAvailableEnemyTypes s) -> t <> BOSS.
Proof.
  unfold getAvailableEnemyTypes.
  destruct (waveNumber s >=? 2)%Z, (waveNumber s >=? 3)%Z; cbn;
    intuition (subst; discriminate).
Qed.

Lemma createRandomEnemy_regular (cfg : GameConfig) (s : state) (w : World) :
  is_boss (fst (createRandomEnemy cfg s w)) = false.
Proof.
  unfold createRandomEnemy, bind. destruct (Math_random w) as [r w1].
  unfold is_boss. rewrite createEnemy_type.
  destruct (pick_In (getAvailableEnemyTypes s) r BASIC) as [Hin|Heq].
  - apply available_types_regular in Hin.
    destruct (pick (getAvailableEnemyTypes s) r BASIC); congruence.
  - rewrite Heq. reflexivity.
Qed.

Lemma shouldSpawnBoss_true (s : state) (gs : GameState) :
  shouldSpawnBoss s gs = true ->
  (5 | waveNumber s)%Z /\ bossSpawned s = false /\
  inject_Z (maxEnemiesPerWave s) * (8 # 10) <= inject_Z (enemiesInCurrentWave s).
Proof.
  unfold shouldSpawnBoss. rewrite !andb_true_iff, negb_true_iff, Z.eqb_eq.
  intros [[Hrem Hflag] Hq]. unfold Qgeb in Hq. apply Qleb_le in Hq.
  repeat split; trivial.
  apply Z.rem_divide; [discriminate | exact Hrem].
Qed.

Lemma set_bossSpawned_fields (s : state) (b : bool) :
  waveNumber (set_bossSpawned s b) = waveNumber s /\
  enemiesInCurrentWave (set_bossSpawned s b) = enemiesInCurrentWave s /\
  maxEnemiesPerWave (set_bossSpawned s b) = maxEnemiesPerWave s /\
  bossSpawned (set_bossSpawned s b) = b.
Proof. repeat split. Qed.

Lemma update_stages (cfg : GameConfig) (s : state) (gs : GameState)
      (dt : number) (w : World) :
  update cfg s gs dt w =
  let now := clock w (clockReads w) in
  if shouldStartNewWave s gs now
  then spawn_stages cfg (run (startNewWave s) (snd (Date_now w))) gs now
                    (snd (startNewWave s (snd (Date_now w))))
  else spawn_stages cfg s gs now (snd (Date_now w)).
Proof.
  rewrite update_eq. cbv zeta.
  destruct (shouldStartNewWave s gs (clock w (clockReads w))); reflexivity.
Qed.

Lemma spawn_stages_spec (cfg : GameConfig) (s1 : state) (gs : GameState)
      (now : number) (w1 : World) :
  let r := spawn_stages cfg s1 gs now w1 in
  let es := fst (fst r) in
  let s' := snd (fst r) in
  waveNumber s' = waveNumber s1 /\
  spawnInterval s' = spawnInterval s1 /\
  maxEnemiesPerWave s' = maxEnemiesPerWave s1 /\
  timeBetweenWaves s' = timeBetweenWaves s1 /\
  (enemiesInCurrentWave s' = enemiesInCurrentWave s1 \/
   enemiesInCurrentWave s' = (enemiesInCurrentWave s1 + 1)%Z) /\
  (filter is_boss es = [] /\ bossSpawned s' = bossSpawned s1 \/
   shouldSpawnBoss s1 gs = true /\
   filter is_boss es = [fst (createBoss cfg s1 w1)] /\ bossSpawned s' = true).
Proof.
  cbv zeta. unfold spawn_stages.
  destruct (shouldSpawnBoss s1 gs) eqn:Hboss.
  - destruct (createBoss cfg s1 w1) as [boss w2] eqn:Hcb.
    assert (Hb : is_boss boss = true).
    { replace boss with (fst (createBoss cfg s1 w1)) by (rewrite Hcb; reflexivity).
      reflexivity. }
    destruct (shouldSpawnEnemy _ _ && _).
    + pose proof (createRandomEnemy_regular cfg (set_bossSpawned s1 true) w2) as Hreg.
      destruct (createRandomEnemy cfg (set_bossSpawned s1 true) w2) as [enemy w3].
      cbn [fst snd] in *. rewrite filter_app. cbn [filter]. rewrite Hb, Hreg.
      cbn. auto 10.
    + cbn [fst snd filter]. rewrite Hb. cbn. auto 10.
  - destruct (shouldSpawnEnemy _ _ && _).
    + pose proof (createRandomEnemy_regular cfg s1 w1) as Hreg.
      destruct (createRandomEnemy cfg s1 w1) as [enemy w3].
      cbn [fst snd] in *. cbn [app filter]. rewrite Hreg. cbn. auto 10.
    + cbn. auto 10.
Qed.

Lemma wave_started_fields (s : state) (w : World) :
  waveNumber (run (startNewWave s) w) = (waveNumber s + 1)%Z /\
  bossSpawned (run (startNewWave s) w) = false.
Proof. split; reflexivity. Qed.

Lemma scenarioC_holds : scenarioC_outcome.
Proof.
  unfold scenarioC_outcome. cbv zeta.
  split.
  - apply shouldStartNewWave_iff. reflexivity.
  - repeat split.
Qed.

(** The boss and regular stages leave the wave clock alone. *)
Lemma spawn_stages_wave_clock (cfg : GameConfig) (s1 : state) (gs : GameState)
      (now : number) (w1 : World) :
  lastWaveTime (snd (fst (spawn_stages cfg s1 gs now w1))) = lastWaveTime s1.
Proof.
  unfold spawn_stages.
  destruct (shouldSpawnBoss s1 gs).
  - destruct (createBoss cfg s1 w1) as [boss w2].
    match goal with |- context [if ?c then _ else _] => destruct c end.
    + destruct (createRandomEnemy cfg (set_bossSpawned s1 true) w2). reflexivity.
    + reflexivity.
  - match goal with |- context [if ?c then _ else _] => destruct c end.
    + destruct (createRandomEnemy cfg s1 w1). reflexivity.
    + reflexivity.
Qed.

(** C3. The spawner starts a new wave in [update] exactly when no enemy of
    the state is active, the inter-wave delay has elapsed since the wave
    started, and the wave's quota has been spawned in full; the wave number
    changes in no other case.  The time the wave started is the field
    [lastWaveTime]: the constructor and [reset] (which start wave 1) and the
    trigger write the clock into it, and nothing else writes it, neither an
    [update] that starts no wave nor [setDifficulty].  The trigger adds 1 to
    the wave number, puts [enemiesInCurrentWave] back to 0, clears the boss
    flag, multiplies the spawn interval by 0.9 (not below 500), adds 1 to
    the quota (not above 15) and multiplies the inter-wave delay by 0.95
    (not below 2000); the rest of the same [update] keeps wave number and
    difficulty and may spawn the first enemy of the new wave. *)
Theorem new_wave_trigger
  (cfg : GameConfig) (s : state) (gs : GameState) (dt : number) (w : World) :
  let now := clock w (clockReads w) in
  let s1 := run (startNewWave s) (snd (Date_now w)) in
  let s' := snd (run (update cfg s gs dt) w) in
  (shouldStartNewWave s gs now = true <-> wave_complete s gs now) /\
  (waveNumber s' <> waveNumber s -> wave_complete s gs now) /\
  (wave_complete s gs now ->
   wave_started s s1 /\
   waveNumber s' = (waveNumber s + 1)%Z /\
   spawnInterval s' = spawnInterval s1 /\
   maxEnemiesPerWave s' = maxEnemiesPerWave s1 /\
   timeBetweenWaves s' = timeBetweenWaves s1 /\
   (enemiesInCurrentWave s' = 0%Z \/ enemiesInCurrentWave s' = 1%Z) /\
   lastWaveTime s' = clock w (S (clockReads w))) /\
  (~ wave_complete s gs now ->
   waveNumber s' = waveNumber s /\ lastWaveTime s' = lastWaveTime s /\
   spawnInterval s' = spawnInterval s /\
   maxEnemiesPerWave s' = maxEnemiesPerWave s /\
   timeBetweenWaves s' = timeBetweenWaves s) /\
  (forall w0 : World,
     waveNumber (run create w0) = 1%Z /\
     lastWaveTime (run create w0) = clock w0 (S (clockReads w0)) /\
     waveNumber (run (reset s) w0) = 1%Z /\
     lastWaveTime (run (reset s) w0) = clock w0 (S (clockReads w0))) /\
  (forall d : string,
     waveNumber (setDifficulty s d) = waveNumber s /\
     lastWaveTime (setDifficulty s d) = lastWaveTime s /\
     timeBetweenWaves (setDifficulty s d) = timeBetweenWaves s) /\
  (500 <= spawnInterval s1 /\ (maxEnemiesPerWave s1 <= 15)%Z /\
   2000 <= timeBetweenWaves s1) /\
  scenarioC_outcome.
Proof.
  intros now s1 s'.
  assert (Hfloor : 500 <= spawnInterval s1 /\ (maxEnemiesPerWave s1 <= 15)%Z /\
                   2000 <= timeBetweenWaves s1).
  { split; [apply Q.le_max_l|]. split; [apply Z.le_min_l|apply Q.le_max_l]. }
  assert (Hs' : s' = snd (fst (if shouldStartNewWave s gs now
                               then spawn_stages cfg s1 gs now
                                      (snd (startNewWave s (snd (Date_now w))))
                               else spawn_stages cfg s gs now (snd (Date_now w))))).
  { subst s'. unfold run. rewrite update_stages. reflexivity. }
  assert (Hhost : (forall w0 : World,
                     waveNumber (run create w0) = 1%Z /\
                     lastWaveTime (run create w0) = clock w0 (S (clockReads w0)) /\
                     waveNumber (run (reset s) w0) = 1%Z /\
                     lastWaveTime (run (reset s) w0) = clock w0 (S (clockReads w0))) /\
                  (forall d : string,
                     waveNumber (setDifficulty s d) = waveNumber s /\
                     lastWaveTime (setDifficulty s d) = lastWaveTime s /\
                     timeBetweenWaves (setDifficulty s d) = timeBetweenWaves s)).
  { split; [intros w0; repeat split|].
    intros d. unfold setDifficulty.
    repeat match goal with |- context [if ?c then _ else _] => destruct c end;
      repeat split. }
  destruct Hhost as [Hstart Hdiff].
  split; [apply shouldStartNewWave_iff|].
  destruct (shouldStartNewWave s gs now) eqn:Hnew.
  - apply shouldStartNewWave_iff in Hnew.
    destruct (spawn_stages_spec cfg s1 gs now (snd (startNewWave s (snd (Date_now w)))))
      as (Hw & Hi & Hm & Ht & Hc & _).
    pose proof (spawn_stages_wave_clock cfg s1 gs now
                  (snd (startNewWave s (snd (Date_now w))))) as Hl.
    rewrite <- Hs' in Hw, Hi, Hm, Ht, Hc, Hl.
    split; [intros _; exact Hnew|].
    split; [|split; [intros Hno; contradiction|]].
    + intros _. split; [apply startNewWave_started|].
      split; [exact Hw|]. split; [exact Hi|]. split; [exact Hm|].
      split; [exact Ht|]. split; [exact Hc|]. rewrite Hl. reflexivity.
    + split; [exact Hstart|]. split; [exact Hdiff|].
      split; [exact Hfloor | exact scenarioC_holds].
  - destruct (spawn_stages_spec cfg s gs now (snd (Date_now w)))
      as (Hw & Hi & Hm & Ht & _).
    pose proof (spawn_stages_wave_clock cfg s gs now (snd (Date_now w))) as Hl.
    rewrite <- Hs' in Hw, Hi, Hm, Ht, Hl.
    split; [intros Hne; contradiction|].
    split; [intros Hc; apply shouldStartNewWave_iff in Hc; congruence|].
    split; [intros _; repeat split; assumption|].
    split; [exact Hstart|]. split; [exact Hdiff|].
    split; [exact Hfloor | exact scenarioC_holds].
Qed.

Lemma is_boss_true (e : Enemy) : is_boss e = true <-> enemyType e = BOSS.
Proof. unfold is_boss. destruct (enemyType e); split; congruence. Qed.

(** One [update] as a step of a run. *)
Lemma update_step (cfg : GameConfig) (s : state) (gs : GameState)
      (dt : number) (w : World) :
  let es := fst (fst (update cfg s gs dt w)) in
  let s' := snd (fst (update cfg s gs dt w)) in
  (waveNumber s' = waveNumber s \/ waveNumber s' = (waveNumber s + 1)%Z) /\
  (List.length (filter is_boss es) <= 1)%nat /\
  (filter is_boss es <> [] -> bossSpawned s' = true) /\
  (waveNumber s' = waveNumber s -> bossSpawned s = true ->
   filter is_boss es = [] /\ bossSpawned s' = true) /\
  (forall e, In e (filter is_boss es) -> boss_in_order cfg s' e).
Proof.
  intros es s'.
  assert (Hstage : exists s1 w1,
             fst (update cfg s gs dt w)
             = fst (spawn_stages cfg s1 gs (clock w (clockReads w)) w1) /\
             (s1 = s \/ waveNumber s1 = (waveNumber s + 1)%Z /\ bossSpawned s1 = false)).
  { rewrite update_stages. cbv zeta.
    destruct (shouldStartNewWave s gs (clock w (clockReads w))).
    - do 2 eexists. split; [reflexivity|]. right. apply wave_started_fields.
    - do 2 eexists. split; [reflexivity|]. left. reflexivity. }
  destruct Hstage as (s1 & w1 & Heq & Hs1).
  subst es s'. rewrite Heq.
  destruct (spawn_stages_spec cfg s1 gs (clock w (clockReads w)) w1)
    as (Hw & _ & Hm & _ & Hc & Hb).
  set (r := spawn_stages cfg s1 gs (clock w (clockReads w)) w1) in *.
  rewrite Hw.
  split; [destruct Hs1 as [->|[-> _]]; auto|].
  split; [destruct Hb as [[-> _]|(_ & -> & _)]; cbn; lia|].
  split; [destruct Hb as [[-> _]|(_ & _ & ->)]; congruence|].
  split.
  - intros Hsame Hflag.
    destruct Hs1 as [->|[Hadv _]]; [|lia].
    destruct Hb as [[-> ->]|(Hsb & _)]; [auto|].
    apply shouldSpawnBoss_true in Hsb. destruct Hsb as (_ & Hoff & _). congruence.
  - intros e He.
    destruct Hb as [[Hnil _]|(Hsb & Hone & _)].
    + rewrite Hnil in He. contradiction.
    + rewrite Hone in He. destruct He as [<-|[]].
      apply shouldSpawnBoss_true in Hsb. destruct Hsb as (Hdiv & _ & Hq).
      unfold boss_in_order. rewrite Hw, Hm.
      split; [exact Hdiv|]. split; [|split; reflexivity].
      destruct Hc as [->| ->]; [exact Hq|].
      rewrite inject_Z_plus. change (inject_Z 1) with 1. lra.
Qed.

Lemma setDifficulty_fields (s : state) (d : string) :
  waveNumber (setDifficulty s d) = waveNumber s /\
  bossSpawned (setDifficulty s d) = bossSpawned s.
Proof.
  unfold setDifficulty.
  repeat match goal with |- context [if ?b then _ else _] => destruct b end;
    split; reflexivity.
Qed.

Lemma reset_fields (s : state) (w : World) :
  waveNumber (fst (reset s w)) = 1%Z /\ bossSpawned (fst (reset s w)) = false.
Proof. split; reflexivity. Qed.

Lemma trace_boss_in_order (cfg : GameConfig) (calls : list call) :
  forall (s : state) (w : World) (f : frame) (e : Enemy),
    In f (trace cfg calls s w) -> In e (created f) -> enemyType e = BOSS ->
    boss_in_order cfg (after f) e.
Proof.
  induction calls as [|c calls IH]; intros s w f e Hf He Hboss.
  - contradiction.
  - destruct c as [gs dt|d|]; cbn [trace] in Hf.
    + pose proof (update_step cfg s gs dt w) as Hstep. cbv zeta in Hstep.
      destruct (update cfg s gs dt w) as [[es s'] w'].
      cbn [fst snd] in Hstep. destruct Hstep as (_ & _ & _ & _ & Hord).
      destruct Hf as [<-|Hf]; [|eapply IH; eassumption].
      cbn [created after] in *. apply Hord.
      apply filter_In. split; [exact He | apply is_boss_true; exact Hboss].
    + destruct Hf as [<-|Hf]; [contradiction|].
      eapply IH; eassumption.
    + destruct (reset s w) as [s' w'].
      destruct Hf as [<-|Hf]; [contradiction|].
      eapply IH; eassumption.
Qed.

(** The boss flag stays up while the wave lasts: from a spawner that has
    had its boss, no boss comes before the next wave starts; from any
    spawner, at most one does. *)
Lemma trace_bosses_before_next_wave (cfg : GameConfig) (calls : list call) :
  forall (s : state) (w : World),
    (List.length (bosses_before_next_wave (trace cfg calls s w)) <= 1)%nat /\
    (bossSpawned s = true -> bosses_before_next_wave (trace cfg calls s w) = []).
Proof.
  induction calls as [|c calls IH]; intros s w.
  - cbn. split; [lia | reflexivity].
  - destruct c as [gs dt|d|]; cbn [trace].
    + pose proof (update_step cfg s gs dt w) as Hstep. cbv zeta in Hstep.
      destruct (update cfg s gs dt w) as [[es s'] w'].
      cbn [fst snd] in Hstep.
      destruct Hstep as (_ & Hone & Hup & Hkeep & _).
      destruct (IH s' w') as (IHle & IHdone).
      cbn [bosses_before_next_wave]. unfold starts_wave, bosses.
      cbn [request after before created].
      destruct (Z.eqb_spec (waveNumber s') (waveNumber s)) as [Hn|Hn]; cbn [negb].
      * destruct (filter is_boss es) as [|b bs] eqn:Hb.
        -- cbn [app]. split; [exact IHle|].
           intros Hflag. apply IHdone. apply (Hkeep Hn Hflag).
        -- rewrite (IHdone (Hup ltac:(discriminate))), app_nil_r.
           split; [exact Hone|].
           intros Hflag. destruct (Hkeep Hn Hflag) as [Hnone _]. discriminate.
      * split; [cbn; lia | reflexivity].
    + destruct (setDifficulty_fields s d) as [_ Hf].
      destruct (IH (setDifficulty s d) w) as (IHle & IHdone).
      cbn [bosses_before_next_wave]. unfold starts_wave, bosses.
      cbn [request created filter app].
      split; [exact IHle|]. intros Hflag. apply IHdone. congruence.
    + destruct (reset s w) as [s' w'].
      cbn [bosses_before_next_wave]. unfold starts_wave. cbn [request].
      split; [cbn; lia | reflexivity].
Qed.

(** What follows a frame of a run is a run from the state the frame leaves. *)
Lemma trace_suffix (cfg : GameConfig) (calls : list call) :
  forall (s : state) (w : World) (pre : list frame) (f : frame) (post : list frame),
    trace cfg calls s w = pre ++ f :: post ->
    (exists calls' w', post = trace cfg calls' (after f) w') /\
    (List.length (bosses f) <= 1)%nat /\
    (bosses f <> [] -> bossSpawned (after f) = true).
Proof.
  induction calls as [|c calls IH]; intros s w pre f post Htr.
  - destruct pre; discriminate.
  - destruct c as [gs dt|d|]; cbn [trace] in Htr.
    + pose proof (update_step cfg s gs dt w) as Hstep. cbv zeta in Hstep.
      destruct (update cfg s gs dt w) as [[es s'] w'].
      cbn [fst snd] in Hstep. destruct Hstep as (_ & Hone & Hup & _).
      destruct pre as [|g pre]; cbn [app] in Htr.
      * injection Htr as <- <-. unfold bosses. cbn [created after].
        split; [exists calls, w'; reflexivity|]. split; assumption.
      * injection Htr as _ Htr. apply (IH _ _ _ _ _ Htr).
    + destruct pre as [|g pre]; cbn [app] in Htr.
      * injection Htr as <- <-. unfold bosses. cbn [created after filter].
        split; [exists calls, w; reflexivity|].
        split; [cbn; lia | intros Hne; contradiction].
      * injection Htr as _ Htr. apply (IH _ _ _ _ _ Htr).
    + destruct (reset s w) as [s' w'].
      destruct pre as [|g pre]; cbn [app] in Htr.
      * injection Htr as <- <-. unfold bosses. cbn [created after filter].
        split; [exists calls, w'; reflexivity|].
        split; [cbn; lia | intros Hne; contradiction].
      * injection Htr as _ Htr. apply (IH _ _ _ _ _ Htr).
Qed.

(** Without [reset] the wave number never goes down along a run, so that the
    waves can be told apart by their numbers: a wave that has had its boss,
    or that is over, gets none. *)
Lemma trace_boss_count (cfg : GameConfig) (calls : list call) :
  forall (s : state) (w : World) (n : Z),
    existsb is_reset calls = false ->
    (List.length (bosses_of_wave n (trace cfg calls s w)) <= 1)%nat /\
    ((n < waveNumber s)%Z -> bosses_of_wave n (trace cfg calls s w) = []) /\
    (n = waveNumber s -> bossSpawned s = true ->
     bosses_of_wave n (trace cfg calls s w) = []).
Proof.
  induction calls as [|c calls IH]; intros s w n Hfree.
  - cbn. repeat split; lia.
  - destruct c as [gs dt|d|]; cbn [existsb is_reset orb] in Hfree;
      [| |discriminate]; cbn [trace].
    + pose proof (update_step cfg s gs dt w) as Hstep. cbv zeta in Hstep.
      destruct (update cfg s gs dt w) as [[es s'] w'].
      cbn [fst snd] in Hstep.
      destruct Hstep as (Hwave & Hone & Hup & Hkeep & _).
      destruct (IH s' w' n Hfree) as (IHle & IHpast & IHdone).
      unfold bosses_of_wave, bosses in *. cbn [flat_map after created].
      destruct (Z.eqb_spec (waveNumber s') n) as [Hn|Hn].
      * rewrite length_app.
        destruct (filter is_boss es) as [|b bs] eqn:Hb.
        -- cbn [List.length app]. split; [exact IHle|]. split.
           ++ intros Hlt. lia.
           ++ intros Hcur Hflag.
              destruct (Hkeep ltac:(lia) Hflag) as [_ Hflag'].
              apply IHdone; [lia | exact Hflag'].
        -- rewrite (IHdone (eq_sym Hn) (Hup ltac:(discriminate))).
           split; [rewrite Nat.add_0_r; exact Hone|]. split.
           ++ intros Hlt. lia.
           ++ intros Hcur Hflag.
              destruct (Hkeep ltac:(lia) Hflag) as [Hnone _]. discriminate.
      * cbn [app]. split; [exact IHle|]. split.
        -- intros Hlt. apply IHpast. lia.
        -- intros Hcur Hflag. apply IHpast. lia.
    + destruct (setDifficulty_fields s d) as [Hw Hf].
      destruct (IH (setDifficulty s d) w n Hfree) as (IHle & IHpast & IHdone).
      unfold bosses_of_wave, bosses in *. cbn [flat_map after created filter].
      replace (if (waveNumber (setDifficulty s d) =? n)%Z then [] else [])
        with (@nil Enemy) by (destruct (waveNumber (setDifficulty s d) =? n)%Z; reflexivity).
      cbn [app]. rewrite Hw, Hf in *. repeat split; assumption.
Qed.

(** The cadence is not vacuous: the long run reaches wave 5 in its 27th
    frame and gets its one boss in the 35th, with 8 of the 9 regular
    enemies of the wave spawned before it. *)
Example long_run_meets_a_boss :
  map (fun n => List.length (bosses_of_wave n long_run)) [1; 2; 3; 4; 5; 6]%Z
  = [0; 0; 0; 0; 1; 0]%nat /\
  map (fun f => (waveNumber (before f), enemiesInCurrentWave (before f),
                 maxEnemiesPerWave (before f), map enemyType (created f)))
      (firstn 1 (skipn 34 long_run))
  = [(5, 8, 9, [BOSS; FAST])%Z].
Proof. split; vm_compute; reflexivity. Qed.

(** The frame that starts a wave may spawn its first enemy at once: in
    the long run the sixth frame starts wave 2 and hands back an enemy. *)
Example new_wave_may_spawn_at_once :
  map (fun f => (waveNumber (before f), waveNumber (after f),
                 enemiesInCurrentWave (after f), List.length (created f)))
      (firstn 1 (skipn 5 long_run))
  = [(1, 2, 1, 1%nat)%Z].
Proof. vm_compute. reflexivity. Qed.

(** After a [reset] the wave numbers start again from 1, and the second
    wave 5 gets a boss of its own: the waves of a run are told apart by the
    calls that start them, not by their numbers. *)
Example replayed_run_meets_two_bosses :
  List.length (bosses_of_wave 5 replayed_run) = 2%nat /\
  map (fun f => (waveNumber (before f), waveNumber (after f), starts_wave f))
      (firstn 1 (skipn 40 replayed_run))
  = [(6, 1, true)%Z].
Proof. split; vm_compute; reflexivity. Qed.

(** C6. In every run of the spawner (any sequence of [update],
    [setDifficulty] and [reset] calls after construction, on any game states
    and any host): an enemy of type boss is created only in a wave whose
    number is divisible by 5 and only once 80% of that wave's quota has been
    spawned; it has attack pattern circular and starts at the horizontal
    centre, 50 px above the top of the screen; and no wave gets more than
    one: from any call of the run until the next call that starts a wave, at
    most one boss is created, and in a run without [reset] at most one boss
    is created under each wave number. *)
Theorem boss_cadence (cfg : GameConfig) (calls : list call) (w : World) :
  let tr := trace cfg calls (run create w) (snd (create w)) in
  (forall f e, In f tr -> In e (created f) -> enemyType e = BOSS ->
     (5 | waveNumber (after f))%Z /\
     inject_Z (maxEnemiesPerWave (after f)) * (8 # 10)
       <= inject_Z (enemiesInCurrentWave (after f)) /\
     attackPattern e = CIRCULAR /\
     pos_x (position e) = screenWidth cfg / 2 /\
     pos_y (position e) = -50) /\
  (forall pre f post, tr = pre ++ f :: post ->
     (List.length (bosses f ++ bosses_before_next_wave post) <= 1)%nat) /\
  (existsb is_reset calls = false ->
   forall n, (List.length (bosses_of_wave n tr) <= 1)%nat).
Proof.
  cbv zeta. split; [|split].
  - intros f e Hf He Hb.
    destruct (trace_boss_in_order cfg calls _ _ f e Hf He Hb) as (H5 & Hq & Hp & Hpos).
    rewrite Hpos. repeat split; assumption.
  - intros pre f post Htr.
    destruct (trace_suffix cfg calls _ _ pre f post Htr)
      as ((calls' & w' & ->) & Hone & Hup).
    destruct (trace_bosses_before_next_wave cfg calls' (after f) w') as (Hle & Hdone).
    destruct (bosses f) as [|b bs] eqn:Hb.
    + exact Hle.
    + rewrite (Hdone (Hup ltac:(discriminate))), app_nil_r. exact Hone.
  - intros Hfree n. apply trace_boss_count. exact Hfree.
Qed.
End Spawner.

(** ** The physics engine *)

Section Physics.
Context {math : MathLib}.
Variable cfg : GameConfig.
Import PhysicsEngine.

Ltac fields :=
  cbn [id position velocity size rotation health maxHealth isActive
       set_position set_velocity set_rotation set_health set_isActive
       pos_x pos_y vel_x vel_y width height
       obj withObj mutate GameObject_Entity Player_Entity Enemy_Entity
       Bullet_Entity PowerUp_Entity
       player_obj enemy_obj bullet_obj powerUp_obj set_lastShotTime
       fst snd] in *.

Lemma constrainToScreen_spec (o : GameObject) :
  let o' := constrainToScreen cfg o in
  size o' = size o /\ isActive o' = isActive o /\ rotation o' = rotation o /\
  (fits_screen cfg o -> in_playfield cfg o') /\
  (beyond_x cfg o -> vel_x (velocity o') = 0) /\
  (beyond_y cfg o -> vel_y (velocity o') = 0) /\
  (in_playfield cfg o -> o' = o).
Proof.
  unfold constrainToScreen, fits_screen, in_playfield, beyond_x, beyond_y. cbv zeta.
  destruct (pos_x (position o) - width (size o) / 2 <? 0) eqn:Ex1;
    [|destruct (pos_x (position o) + width (size o) / 2 >? screenWidth cfg) eqn:Ex2];
    fields;
    (destruct (pos_y (position o) - height (size o) / 2 <? 0) eqn:Ey1;
     [|destruct (pos_y (position o) + height (size o) / 2 >? screenHeight cfg) eqn:Ey2]);
    fields; reflect_cmp;
    (split; [reflexivity|]); (split; [reflexivity|]); (split; [reflexivity|]);
    (split; [intros [Hw Hh]; repeat split; qlra|]);
    (split; [intros Hx; try reflexivity; exfalso; qlra|]);
    (split; [intros Hy; try reflexivity; exfalso; qlra|]);
    intros (H1 & H2 & H3 & H4); try reflexivity; exfalso; qlra.
Qed.

Lemma updateGameObject_spec (o : GameObject) (dt : number) :
  let o' := updateGameObject o dt in
  pos_x (position o') = pos_x (position o) + vel_x (velocity o) * dt /\
  pos_y (position o') = pos_y (position o) + vel_y (velocity o) * dt /\
  velocity o' = velocity o /\ size o' = size o /\ isActive o' = isActive o /\
  (still o -> rotation o' = rotation o) /\
  (~ still o ->
   rotation o' = Math_atan2 (vel_y (velocity o)) (vel_x (velocity o)) + Math_PI / 2).
Proof.
  unfold updateGameObject, still. cbv zeta. fields.
  destruct (vel_x (velocity o) =? 0) eqn:Ex, (vel_y (velocity o) =? 0) eqn:Ey;
    cbn [negb orb]; fields; reflect_cmp;
    repeat split; trivial; tauto.
Qed.

Lemma extends_refl (gs : GameState) : extends gs gs.
Proof.
  split; [reflexivity|]. split; [reflexivity|].
  exists []. now rewrite app_nil_r.
Qed.

Lemma extends_trans (a b c : GameState) : extends a b -> extends b c -> extends a c.
Proof.
  intros (Hp & Hu & s1 & Hb) (Hp' & Hu' & s2 & Hb').
  split; [congruence|]. split; [congruence|].
  exists (s1 ++ s2). rewrite Hb', Hb. now rewrite app_assoc.
Qed.

Lemma handleEnemyShooting_spec (e : Enemy) (gs : GameState) (dt : number) (w : World) :
  let r := fst (handleEnemyShooting e gs dt w) in
  enemy_obj (fst r) = enemy_obj e /\ attackPattern (fst r) = attackPattern e /\
  extends gs (snd r).
Proof.
  intros r. subst r.
  remember (handleEnemyShooting e gs dt w) as r eqn:Hr.
  unfold handleEnemyShooting, createEnemyBullet, bind, ret, Date_now, Math_random in Hr.
  destruct (lastShotTime_falsy e);
    cbn [clock clockReads entropy entropyReads cues] in Hr;
    match type of Hr with context [if ?c then _ else _] => destruct c end;
    subst r; cbn [fst snd];
    (split; [reflexivity|]); (split; [reflexivity|]);
    try apply extends_refl;
    (split; [reflexivity|]); (split; [reflexivity|]);
    eexists; reflexivity.
Qed.

Lemma updateEnemyBehavior_spec (e : Enemy) (gs : GameState) (dt : number) (w : World) :
  let r := fst (updateEnemyBehavior e gs dt w) in
  position (fst r) = position e /\ rotation (fst r) = rotation e /\
  size (fst r) = size e /\ isActive (fst r) = isActive e /\
  extends gs (snd r).
Proof.
  intros r. subst r. unfold updateEnemyBehavior, bind.
  match goal with
  | |- context [let (_, _) := ?m w in _] => destruct (m w) as [e1 w1] eqn:Hm
  end.
  assert (H1 : position e1 = position e /\ rotation e1 = rotation e /\
               size e1 = size e /\ isActive e1 = isActive e).
  { destruct (attackPattern e).
    - inversion Hm. repeat split.
    - inversion Hm. repeat split.
    - inversion Hm. repeat split.
    - destruct (findNearestPlayer e (players gs)) as [nearest|].
      + match type of Hm with context [if ?c then _ else _] => destruct c end;
          inversion Hm; repeat split.
      + inversion Hm. repeat split. }
  destruct (handleEnemyShooting_spec e1 gs dt w1) as (Hobj & _ & Hext).
  destruct H1 as (Hp & Hr & Hs & Ha).
  change (position (fst (fst (handleEnemyShooting e1 gs dt w1))))
    with (position (enemy_obj (fst (fst (handleEnemyShooting e1 gs dt w1))))).
  change (rotation (fst (fst (handleEnemyShooting e1 gs dt w1))))
    with (rotation (enemy_obj (fst (fst (handleEnemyShooting e1 gs dt w1))))).
  change (size (fst (fst (handleEnemyShooting e1 gs dt w1))))
    with (size (enemy_obj (fst (fst (handleEnemyShooting e1 gs dt w1))))).
  change (isActive (fst (fst (handleEnemyShooting e1 gs dt w1))))
    with (isActive (enemy_obj (fst (fst (handleEnemyShooting e1 gs dt w1))))).
  rewrite Hobj.
  split; [exact Hp|]. split; [exact Hr|]. split; [exact Hs|].
  split; [exact Ha | exact Hext].
Qed.

Lemma updateEnemy_spec (ds : number) (e : Enemy) (gs : GameState) (w : World) :
  let r := fst (updateEnemy cfg ds e gs w) in
  integrated ds e (fst r) /\ extends gs (snd r).
Proof.
  intros r. subst r. unfold updateEnemy, integrated.
  destruct (isActive e) eqn:Hact.
  - unfold bind.
    pose proof (updateEnemyBehavior_spec
                  (mutate (fun o => updateGameObject o ds) e) gs ds w) as Hb.
    cbv zeta in Hb.
    destruct (updateEnemyBehavior (mutate (fun o => updateGameObject o ds) e) gs ds w)
      as [[e2 gs2] w2].
    cbn [fst snd] in Hb. destruct Hb as (Hp & Hr & Hs & Ha & Hext).
    destruct (updateGameObject_spec e ds) as (_ & _ & _ & Hsz & _).
    destruct (negb (isOnScreen cfg e2)); cbn [fst snd ret]; fields;
      (split; [|exact Hext]); (split; [discriminate|]); intros _;
      fields; rewrite ?Hp, ?Hr, ?Hs; fields; repeat split; exact Hsz.
  - cbn. split; [|apply extends_refl]. split; [reflexivity|discriminate].
Qed.

Lemma forEachEnemy_spec (ds : number) (es : list Enemy) :
  forall (gs : GameState) (w : World),
    let r := fst (forEachEnemy cfg ds es gs w) in
    Forall2 (fun e e' : Enemy => integrated ds e e') es (fst r) /\
    extends gs (snd r).
Proof.
  induction es as [|e es IH]; intros gs w r; subst r.
  - cbn. split; [constructor | apply extends_refl].
  - cbn [forEachEnemy]. unfold bind.
    pose proof (updateEnemy_spec ds e gs w) as He. cbv zeta in He.
    destruct (updateEnemy cfg ds e gs w) as [[e' gs1] w1].
    pose proof (IH gs1 w1) as Hrest. cbv zeta in Hrest.
    destruct (forEachEnemy cfg ds es gs1 w1) as [[es' gs2] w2].
    cbn [fst snd ret] in *. destruct He as [He Hx1]. destruct Hrest as [Hes Hx2].
    split; [constructor; assumption | eapply extends_trans; eassumption].
Qed.


Lemma forEachPowerUp_spec (ds : number) (us : list PowerUp) :
  forall w : World,
    Forall2 (fun u u' : PowerUp => exists w0, u' = fst (updatePowerUp cfg ds u w0))
            us (fst (forEachPowerUp cfg ds us w)).
Proof.
  induction us as [|u us IH]; intros w.
  - constructor.
  - cbn [forEachPowerUp]. unfold bind.
    destruct (updatePowerUp cfg ds u w) as [u' w1] eqn:Hu.
    specialize (IH w1).
    destruct (forEachPowerUp cfg ds us w1) as [us' w2].
    cbn [fst ret] in *. constructor; [|exact IH].
    exists w. rewrite Hu. reflexivity.
Qed.

(** [update], collection by collection. *)
Lemma update_spec (gs : GameState) (dt : number) (w : World) :
  let ds := dt / 1000 in
  let gs' := run (update cfg gs dt) w in
  players gs' = map (updatePlayer cfg ds) (players gs) /\
  Forall2 (fun e e' : Enemy => integrated ds e e') (enemies gs) (enemies gs') /\
  (exists shots, bullets gs' = map (updateBullet cfg ds) (bullets gs ++ shots)) /\
  Forall2 (fun u u' : PowerUp => exists w0, u' = fst (updatePowerUp cfg ds u w0))
          (powerUps gs) (powerUps gs').
Proof.
  intros ds gs'. subst gs'. unfold update, run, bind. fold ds.
  set (gs1 := set_players gs (map (updatePlayer cfg ds) (players gs))).
  pose proof (forEachEnemy_spec ds (enemies gs1) gs1 w) as He. cbv zeta in He.
  destruct (forEachEnemy cfg ds (enemies gs1) gs1 w) as [[es' gs2] w1].
  cbn [fst snd] in He. destruct He as (Hes & Hp & Hu & shots & Hb).
  match goal with
  | |- context [forEachPowerUp cfg ds ?us w1] =>
      pose proof (forEachPowerUp_spec ds us w1) as Hus;
      destruct (forEachPowerUp cfg ds us w1) as [us' w2]
  end.
  cbn [fst snd ret] in *. cbn [players enemies bullets powerUps set_players
    set_enemies set_bullets set_powerUps] in *.
  rewrite Hp, Hb. subst gs1. cbn [players bullets set_players].
  split; [reflexivity|]. split; [exact Hes|].
  split; [exists shots; reflexivity|].
  rewrite Hu in Hus. exact Hus.
Qed.

Lemma updatePlayer_spec (ds : number) (p : Player) :
  let p' := updatePlayer cfg ds p in
  isActive p' = isActive p /\
  (isActive p = false -> p' = p) /\
  (isActive p = true ->
   player_obj p' = constrainToScreen cfg (updateGameObject p ds)).
Proof.
  intros p'. subst p'. unfold updatePlayer.
  destruct (isActive p) eqn:Hact.
  - fields.
    destruct (constrainToScreen_spec (updateGameObject p ds)) as (_ & Ha & _).
    destruct (updateGameObject_spec p ds) as (_ & _ & _ & _ & Ha' & _).
    split; [congruence|]. split; [discriminate|reflexivity].
  - split; [exact Hact|]. split; [reflexivity|discriminate].
Qed.








End Physics.




(** The other two design choices that move things at a zero time step, for
    every [MathLib]: an active, moving object has its rotation set from its
    velocity, whatever it was. *)
Lemma zero_delta_rederives_rotation {math : MathLib} (o : GameObject) :
  ~ still o ->
  rotation (PhysicsEngine.updateGameObject o (0 / 1000))
  = Math_atan2 (vel_y (velocity o)) (vel_x (velocity o)) + Math_PI / 2.
Proof.
  intros Hmove.
  destruct (updateGameObject_spec o (0 / 1000)) as (_ & _ & _ & _ & _ & _ & Hr).
  exact (Hr Hmove).
Qed.

(** ** The frame pipeline of the engine *)

Section Frame.
Context {math : MathLib}.
Import GameEngine.

Lemma filter_all_active {A} (f : A -> bool) (l : list A) :
  Forall (fun a => f a = true) (filter f l).
Proof.
  apply Forall_forall. intros a Ha. apply filter_In in Ha. apply Ha.
Qed.

Lemma cleanupInactiveObjects_all_active (gs : GameState) :
  all_active (cleanupInactiveObjects gs).
Proof.
  unfold all_active, cleanupInactiveObjects. cbn.
  repeat split; apply (filter_all_active (fun o => isActive _)).
Qed.

Lemma updateExplosions_entities (gs : GameState) (dt : number) :
  all_active gs -> all_active (updateExplosions gs dt).
Proof. intros H. exact H. Qed.

Lemma checkGameOverConditions_entities (e : Engine) :
  all_active (gameState e) -> all_active (gameState (checkGameOverConditions e)).
Proof.
  intros H. unfold checkGameOverConditions.
  match goal with |- context [if ?c then _ else _] => destruct c end; exact H.
Qed.

(** The shape of a frame's result: the game-over check applied to an
    engine whose state went through cleanup and then explosion ageing. *)
Lemma update_shape (e : Engine) (w : World) :
  exists gs dt es ps t w',
    update e w
    = (gameState (checkGameOverConditions
                    (mkEngine (updateExplosions (cleanupInactiveObjects gs) dt)
                              (config e) es ps t (gameLoopId e))),
       checkGameOverConditions
         (mkEngine (updateExplosions (cleanupInactiveObjects gs) dt)
                   (config e) es ps t (gameLoopId e)),
       w').
Proof.
  unfold update, bind. unfold Date_now at 1. cbv beta iota zeta.
  repeat match goal with
  | |- context [let (_, _) := ?m in _] => destruct m as [? ?]
  | |- context [match ?m with (_, _) => _ end] => destruct m as [? ?]
  end.
  unfold ret. do 6 eexists. reflexivity.
Qed.

(** C9. When a frame of [update] completes, every entity left in the
    players, enemies, bullets and power-ups collections is active, in the
    engine's state and in the snapshot handed to the state-update callback
    (which is that state): the cleanup pass filters all four collections
    and the two passes after it (explosion ageing, game-over check) touch
    neither the collections nor any activity flag. *)
Theorem update_leaves_only_active (e : Engine) (w : World) :
  let snapshot := fst (run (update e) w) in
  let e' := snd (run (update e) w) in
  all_active snapshot /\ all_active (gameState e') /\ snapshot = gameState e'.
Proof.
  cbv zeta. unfold run.
  destruct (update_shape e w) as (gs & dt & es & ps & t & w' & Heq).
  rewrite Heq. cbn [fst snd].
  assert (H : all_active (gameState (checkGameOverConditions
                (mkEngine (updateExplosions (cleanupInactiveObjects gs) dt)
                          (config e) es ps t (gameLoopId e))))).
  { apply checkGameOverConditions_entities. cbn [gameState].
    apply updateExplosions_entities, cleanupInactiveObjects_all_active. }
  split; [exact H|]. split; [exact H|reflexivity].
Qed.
End Frame.

(** ** The lives of the players, over the life of an engine *)

Section Accounting.
Context {math : MathLib}.
Import CollisionDetection GameEngine.

Lemma lives_in_order_same (p q : Player) :
  lives q = lives p -> isActive q = isActive p ->
  lives_in_order p -> lives_in_order q.
Proof.
  intros Hl Ha (n & Hn & H0 & H1). exists n.
  rewrite Hl, Ha. auto.
Qed.

Lemma updateFirst_keeps {A} (P : A -> Prop) (pred : A -> bool) (f : A -> A)
                        (l : list A) :
  (forall a, P a -> P (f a)) -> Forall P l -> Forall P (updateFirst pred f l).
Proof.
  intros Hf Hl. induction Hl as [|a l Ha Hrest IH]; cbn.
  - constructor.
  - destruct (pred a).
    + constructor; [apply Hf; exact Ha | exact Hrest].
    + constructor; [exact Ha | exact IH].
Qed.

Lemma filter_keeps {A} (P : A -> Prop) (f : A -> bool) (l : list A) :
  Forall P l -> Forall P (filter f l).
Proof.
  intros Hl. apply Forall_forall. intros a Ha. apply filter_In in Ha.
  destruct Ha as [Ha _]. revert a Ha. apply Forall_forall. exact Hl.
Qed.

Lemma updatePlayer_keeps_lives (cfg : GameConfig) (ds : number) (p : Player) :
  lives_in_order p -> lives_in_order (PhysicsEngine.updatePlayer cfg ds p).
Proof.
  apply lives_in_order_same.
  - unfold PhysicsEngine.updatePlayer. destruct (isActive p); reflexivity.
  - destruct (updatePlayer_spec cfg ds p) as (Ha & _). exact Ha.
Qed.

(** A frame keeps the lives in order: the physics step and the spawners do
    not touch them, the collision passes keep them in order, and the rest
    of the frame only drops players. *)
Lemma update_keeps_lives (e : Engine) (w : World) :
  Forall lives_in_order (players (gameState e)) ->
  Forall lives_in_order (players (gameState (snd (fst (update e w))))).
Proof.
  intros He. unfold update, bind. unfold Date_now at 1. cbv beta iota zeta.
  cbn [clock clockReads].
  match goal with
  | |- context [PhysicsEngine.update ?c ?g ?d ?v] =>
      pose proof (update_spec c g d v) as Hphys;
      destruct (PhysicsEngine.update c g d v) as [gs1 w1] eqn:Hrun
  end.
  cbv zeta in Hphys. destruct Hphys as (Hplayers & _).
  unfold run in Hplayers. rewrite Hrun in Hplayers.
  cbn [fst players set_timeElapsed] in Hplayers.
  assert (H1 : Forall lives_in_order (players gs1)).
  { rewrite Hplayers. clear - He. induction He as [|p l Hp _ IH]; cbn [map].
    - constructor.
    - constructor; [apply updatePlayer_keeps_lives; exact Hp | exact IH]. }
  destruct (EnemySpawner.update (config e) (enemySpawner e) gs1 _ w1)
    as [[newEnemies es] w2].
  destruct (PowerUpSpawner.update (config e) (powerUpSpawner e) _ _ w2)
    as [[newPowerUps ps] w3].
  match goal with
  | |- context [handleCollisions ?g w3] =>
      pose proof (handleCollisions_players g w3) as Hcoll;
      destruct (handleCollisions g w3) as [gs4 w4] eqn:Hrun4
  end.
  unfold run in Hcoll. rewrite Hrun4 in Hcoll. cbn [fst] in Hcoll.
  specialize (Hcoll H1).
  cbn [ret fst snd]. unfold checkGameOverConditions.
  match goal with |- context [if ?c then _ else _] => destruct c end;
    cbn; apply filter_keeps; exact Hcoll.
Qed.

Lemma obey_keeps_lives (c : command) (e : Engine) (w : World) :
  joins_in_order c ->
  Forall lives_in_order (players (gameState e)) ->
  Forall lives_in_order (players (gameState (fst (obey c e w)))).
Proof.
  intros Hc He. destruct c; cbn [obey joins_in_order] in *.
  - cbn. apply Forall_app. split; [exact He | constructor; [exact Hc | constructor]].
  - cbn. apply filter_keeps. exact He.
  - cbn [ret fst]. unfold updatePlayerPosition.
    destruct (find _ _); [|exact He].
    cbn. apply updateFirst_keeps; [|exact He].
    intros a. apply lives_in_order_same; reflexivity.
  - unfold playerShoot.
    destruct (find _ _) as [player|]; [|exact He].
    destruct (gameStatus_eqb _ _); [|exact He].
    unfold bind. destruct (createPlayerBullets e player w) as [bs w1].
    cbn. exact He.
  - cbn. exact He.
  - cbn. exact He.
  - cbn. exact He.
  - cbn. exact He.
  - unfold bind, gameLoop.
    destruct (gameStatus_eqb _ _ && negb _); [|exact He].
    unfold bind. pose proof (update_keeps_lives e w He) as Hu.
    destruct (update e w) as [[snapshot e1] w1]. exact Hu.
Qed.

Lemma obey_all_keeps_lives (cmds : list command) :
  forall (e : Engine) (w : World),
    Forall joins_in_order cmds ->
    Forall lives_in_order (players (gameState e)) ->
    Forall lives_in_order (players (gameState (fst (obey_all cmds e w)))).
Proof.
  induction cmds as [|c cmds IH]; intros e w Hc He.
  - exact He.
  - inversion Hc as [|? ? Hc1 Hrest]; subst.
    cbn [obey_all]. unfold bind.
    pose proof (obey_keeps_lives c e w Hc1 He) as H1.
    destruct (obey c e w) as [e1 w1]. exact (IH e1 w1 Hrest H1).
Qed.

Lemma lives_in_order_hit (p : Player) (dmg : number) :
  isActive p = true -> lives_in_order p ->
  let p' := loseLifeIfDepleted (withObj p (set_health p (health p - dmg))) in
  lives_in_order p' /\
  (health p - dmg <= 0 -> life_lost p p') /\
  (0 < health p - dmg -> life_kept p p' dmg).
Proof.
  intros Hact Hord p'.
  destruct (damaged_player_outcome p dmg Hact) as [Hdown Hup]. fold p' in Hdown, Hup.
  split; [|split].
  - apply loseLifeIfDepleted_in_order; [exact Hact|].
    revert Hord. apply lives_in_order_same; reflexivity.
  - intros Hh. apply (Hdown Hh).
    destruct Hord as (n & Hn & _ & H1). specialize (H1 Hact). rewrite Hn.
    change 1 with (inject_Z 1). rewrite <- Zle_Qle. exact H1.
  - exact Hup.
Qed.

(** C1.  During the life of an engine (any run of its commands and frames
    from the constructor on, the players joining with their lives in order,
    as every player with 3 lives does, the number Game.tsx gives the players
    it makes) every player the engine holds has its lives in order: a whole
    number, not negative, and at least 1 while the player is active.  A
    player in that state hit by an enemy contact or by an enemy bullet
    during collision resolution (the collision test holds, so the player is
    active) is left in that state, so the next hit of the pass meets it in
    order again; if the hit takes the health to 0 or below, [lives] drops by
    exactly 1 and stays >= 0, [health] is reset to [maxHealth], and the
    player is inactive afterwards exactly when [lives] has reached 0;
    otherwise only the health changes.  In particular a player at 100/100
    with 3 lives taking ten hits of damage 10 ends with 2 lives, health 100,
    still active. *)
Theorem player_hit_life_accounting :
  (forall (cfg : GameConfig) (cmds : list command) (w : World),
     Forall joins_in_order cmds ->
     Forall lives_in_order (players (gameState (engine_after cfg cmds w)))) /\
  (forall p : Player, lives p = 3 -> lives_in_order p) /\
  (forall pos : Position, lives (Game.localPlayer pos) = 3) /\
  (forall (p : Player) (e : Enemy) (b : Bullet) (gs : GameState) (w : World),
     lives_in_order p ->
     (checkCollision p e = true ->
      let p' := fst (fst (run (handlePlayerEnemyCollision p e gs) w)) in
      lives_in_order p' /\
      (health p - enemy_damage e <= 0 -> life_lost p p') /\
      (0 < health p - enemy_damage e -> life_kept p p' (enemy_damage e)))
     /\
     (checkCollision b p = true ->
      let p' := snd (fst (run (handleBulletPlayerCollision b p gs) w)) in
      lives_in_order p' /\
      (health p - bullet_damage b <= 0 -> life_lost p p') /\
      (0 < health p - bullet_damage b -> life_kept p p' (bullet_damage b))))
  /\
  scenarioA_outcome.
Proof.
  split; [|split; [|split; [|split]]].
  - intros cfg cmds w Hjoin. unfold engine_after, run, bind.
    destruct (create cfg w) as [e0 w0] eqn:Hcreate.
    apply obey_all_keeps_lives; [exact Hjoin|].
    unfold create, bind, ret in Hcreate.
    destruct (EnemySpawner.create w) as [es w1].
    destruct (PowerUpSpawner.create w1) as [ps w2].
    inversion Hcreate. constructor.
  - intros p Hp. exists 3%Z. rewrite Hp. split; [reflexivity|]. split; lia.
  - intros pos. reflexivity.
  - intros p e b gs w Hord. split; intros Hc.
    + apply checkCollision_active in Hc.
      rewrite handlePlayerEnemyCollision_player.
      apply lives_in_order_hit; [apply Hc | exact Hord].
    + apply checkCollision_active in Hc.
      rewrite handleBulletPlayerCollision_player.
      apply lives_in_order_hit; [apply Hc | exact Hord].
  - exact scenarioA_holds.
Qed.

End Accounting.

Lemma player_hit_life_accounting_witness :
  Forall lives_in_order
         (players (GameEngine.gameState
                     (engine_after (math := flat_math) sample_config sample_session
                                   sample_world))) /\
  life_lost weakened_player
    (fst (fst (run (GameEngine.handlePlayerEnemyCollision weakened_player
                      (basic_enemy_at (position weakened_player))
                      scenarioA_state) sample_world)))
  /\
  life_lost weakened_player
    (snd (fst (run (GameEngine.handleBulletPlayerCollision
                      (enemy_bullet_of (basic_enemy_at (position weakened_player)))
                      weakened_player scenarioA_state) sample_world))).
Proof.
  destruct (player_hit_life_accounting (math := flat_math))
    as (Hrun & Hthree & _ & Hhit & _).
  assert (Hord : lives_in_order weakened_player) by (apply Hthree; reflexivity).
  destruct (Hhit weakened_player
              (basic_enemy_at (position weakened_player))
              (enemy_bullet_of (basic_enemy_at (position weakened_player)))
              scenarioA_state sample_world Hord) as (He & Hb).
  split; [|split].
  - apply Hrun. unfold sample_session.
    repeat (apply Forall_cons; [try exact I|]); [|apply Forall_nil].
    apply Hthree. reflexivity.
  - apply He; [vm_compute; reflexivity | vm_compute; discriminate].
  - apply Hb; [vm_compute; reflexivity | vm_compute; discriminate].
Defined.

(** The session of the witness ends with the local player in the game,
    where the touch put it, and one bullet in flight. *)
Example session_of_the_witness :
  let e := engine_after (math := flat_math) sample_config sample_session sample_world in
  map playerId (players (GameEngine.gameState e)) = ["local_player"%string] /\
  map lives (players (GameEngine.gameState e)) = [3] /\
  List.length (bullets (GameEngine.gameState e)) = 1%nat /\
  gameStatus (GameEngine.gameState e) = PLAYING.
Proof. cbv zeta. repeat split; vm_compute; reflexivity. Qed.

(** * Further properties of the code *)


(** ** Segments, rectangles and the line of sight *)

Section Sight.
Import CollisionDetection.











End Sight.

(** ** Point tests and bounds of the collision module *)

Section Bounds.
Import CollisionDetection.

Lemma checkPointCollision_true (p : Position) (o : GameObject) :
  checkPointCollision p o = true <->
  isActive o = true /\
  box_left o <= pos_x p /\ pos_x p <= box_right o /\
  box_top o <= pos_y p /\ pos_y p <= box_bottom o.
Proof.
  unfold checkPointCollision, box_left, box_right, box_top, box_bottom, Qgeb.
  cbv zeta. destruct (isActive o); cbn [negb].
  - rewrite !andb_true_iff, !Qleb_le. tauto.
  - split; [discriminate|]. intros [H _]. discriminate.
Qed.

(** Two objects of non-negative extents that collide have a point in
    common, one that the point test finds inside both: the strict box test
    and the inclusive point test agree on overlapping boxes. *)
Theorem colliding_boxes_share_a_point (a b : GameObject) :
  nonneg_size a -> nonneg_size b ->
  checkCollision a b = true ->
  exists p, checkPointCollision p a = true /\ checkPointCollision p b = true.
Proof.
  intros [Hwa Hha] [Hwb Hhb] Hc.
  apply checkCollision_true in Hc. destruct Hc as (Ha & Hb & H1 & H2 & H3 & H4).
  exists (mkPosition (Qmax (box_left a) (box_left b)) (Qmax (box_top a) (box_top b))).
  rewrite !checkPointCollision_true. cbn [pos_x pos_y].
  unfold box_left, box_right, box_top, box_bottom in *.
  pose proof (Q.le_max_l (pos_x (position a) - width (size a) / 2)
                         (pos_x (position b) - width (size b) / 2)) as Hx1.
  pose proof (Q.le_max_r (pos_x (position a) - width (size a) / 2)
                         (pos_x (position b) - width (size b) / 2)) as Hx2.
  pose proof (Q.le_max_l (pos_y (position a) - height (size a) / 2)
                         (pos_y (position b) - height (size b) / 2)) as Hy1.
  pose proof (Q.le_max_r (pos_y (position a) - height (size a) / 2)
                         (pos_y (position b) - height (size b) / 2)) as Hy2.
  assert (Hx3 : forall hi, pos_x (position a) - width (size a) / 2 <= hi ->
                           pos_x (position b) - width (size b) / 2 <= hi ->
                           Qmax (pos_x (position a) - width (size a) / 2)
                                (pos_x (position b) - width (size b) / 2) <= hi)
    by (intros hi; apply Q.max_lub).
  assert (Hy3 : forall hi, pos_y (position a) - height (size a) / 2 <= hi ->
                           pos_y (position b) - height (size b) / 2 <= hi ->
                           Qmax (pos_y (position a) - height (size a) / 2)
                                (pos_y (position b) - height (size b) / 2) <= hi)
    by (intros hi; apply Q.max_lub).
  repeat split; trivial; try (apply Hx3; qlra); apply Hy3; qlra.
Qed.

Lemma colliding_boxes_share_a_point_witness :
  exists p,
    checkPointCollision p local_player = true /\
    checkPointCollision p (basic_enemy_at (position local_player)) = true.
Proof.
  apply (colliding_boxes_share_a_point local_player
           (basic_enemy_at (position local_player)));
    [split; vm_compute; discriminate | split; vm_compute; discriminate
    | vm_compute; reflexivity].
Defined.

Lemma isWithinBounds_true (o : GameObject) (W H m : number) :
  isWithinBounds o W H (Some m) = true <->
  - m < pos_x (position o) /\ pos_x (position o) < W + m /\
  - m < pos_y (position o) /\ pos_y (position o) < H + m.
Proof.
  unfold isWithinBounds. rewrite !andb_true_iff, !Qgtb_gt, !Qltb_lt. tauto.
Qed.

Lemma isOnScreen_true (cfg : GameConfig) (o : GameObject) :
  PhysicsEngine.isOnScreen cfg o = true <->
  - (100) < pos_x (position o) /\ pos_x (position o) < screenWidth cfg + 100 /\
  - (100) < pos_y (position o) /\ pos_y (position o) < screenHeight cfg + 100.
Proof.
  unfold PhysicsEngine.isOnScreen. cbv zeta.
  rewrite !andb_true_iff, !Qgtb_gt, !Qltb_lt. tauto.
Qed.

(** The bounds test of the collision module (default margin 50) is stricter
    than the off-screen test of the physics engine (margin 100): what is
    within bounds for a margin of at most 100, the default included, is on
    screen and is not culled; for a margin of at least 100 it is the other
    way round; and a larger margin accepts more. *)
Theorem within_bounds_is_on_screen (cfg : GameConfig) (o : GameObject) (m m' : number) :
  let W := screenWidth cfg in
  let H := screenHeight cfg in
  isWithinBounds o W H None = isWithinBounds o W H (Some 50) /\
  (m <= 100 -> isWithinBounds o W H (Some m) = true ->
   PhysicsEngine.isOnScreen cfg o = true) /\
  (isWithinBounds o W H None = true -> PhysicsEngine.isOnScreen cfg o = true) /\
  (100 <= m -> PhysicsEngine.isOnScreen cfg o = true ->
   isWithinBounds o W H (Some m) = true) /\
  (m <= m' -> isWithinBounds o W H (Some m) = true ->
   isWithinBounds o W H (Some m') = true).
Proof.
  cbv zeta. split; [reflexivity|].
  change (isWithinBounds o (screenWidth cfg) (screenHeight cfg) None)
    with (isWithinBounds o (screenWidth cfg) (screenHeight cfg) (Some 50)).
  rewrite !isWithinBounds_true, isOnScreen_true.
  repeat split; intros; lra.
Qed.
End Bounds.

(** ** The public helpers of the physics engine *)

Section Kinematics.
Context {math : MathLib}.
Import PhysicsEngine.


Example normalizeVelocity_on_exact_host :
  velocity (normalizeVelocity (math := root_math) moving_object 10)
  = mkVelocity (3 * (10 / 5)) (4 * (10 / 5)) /\
  normalizeVelocity (math := root_math) resting_object 10 = resting_object.
Proof. split; reflexivity. Qed.

End Kinematics.

(** ** The power-up spawner *)

Section Pickups.
Import PowerUpSpawner.

Lemma createPowerUp_fresh (cfg : GameConfig) (t : PowerUpType) (w : World) :
  let u := fst (createPowerUp cfg t w) in
  fresh_powerUp u /\ powerUpType u = t /\
  pos_x (position u) = entropy w (entropyReads w) * (screenWidth cfg - 60) + 30.
Proof. destruct t; repeat split. Qed.

Lemma createRandomPowerUp_fresh (cfg : GameConfig) (w : World) :
  fresh_powerUp (fst (createRandomPowerUp cfg w)).
Proof.
  unfold createRandomPowerUp, bind. unfold Math_random at 1. cbv zeta.
  apply createPowerUp_fresh.
Qed.

Lemma powerUp_update_eq
  (cfg : GameConfig) (s : state) (gs : GameState) (dt : number) (w : World) :
  update cfg s gs dt w =
  let now := clock w (clockReads w) in
  let active := List.length (filter (fun u : PowerUp => isActive u) (powerUps gs)) in
  let w1 := snd (Date_now w) in
  if now - lastSpawnTime s <? spawnInterval s then ([], s, w1)
  else if (3 <=? active)%nat then ([], s, w1)
  else if entropy w (entropyReads w) <? spawnChance s
       then ([fst (createRandomPowerUp cfg (snd (Math_random w1)))],
             mkState now (spawnInterval s) (spawnChance s),
             snd (createRandomPowerUp cfg (snd (Math_random w1))))
       else ([], s, snd (Math_random w1)).
Proof.
  unfold update, bind. unfold Date_now at 1. cbv beta iota zeta.
  unfold shouldSpawnPowerUp.
  cbn [clock clockReads entropy entropyReads cues].
  destruct (clock w (clockReads w) - lastSpawnTime s <? spawnInterval s);
    [reflexivity|].
  destruct (3 <=? List.length (filter (fun u : PowerUp => isActive u) (powerUps gs)))%nat;
    [reflexivity|].
  unfold bind. unfold Math_random at 1. cbv beta iota zeta.
  cbn [clock clockReads entropy entropyReads cues]. unfold ret at 1.
  destruct (entropy w (entropyReads w) <? spawnChance s); [|reflexivity].
  unfold Date_now, Math_random. cbn [snd].
  destruct (createRandomPowerUp cfg _) as [u w3]. reflexivity.
Qed.

Lemma powerUp_update_tuning
  (cfg : GameConfig) (s : state) (gs : GameState) (dt : number) (w : World) :
  spawnInterval (snd (fst (update cfg s gs dt w))) = spawnInterval s /\
  spawnChance (snd (fst (update cfg s gs dt w))) = spawnChance s.
Proof.
  rewrite powerUp_update_eq. cbv zeta.
  repeat match goal with |- context [if ?b then _ else _] => destruct b end;
    split; reflexivity.
Qed.

(** One [update] of the power-up spawner hands back at most one power-up.
    It hands back none, and leaves the spawner and the random source
    untouched, while the spawn interval has not elapsed or three power-ups
    or more are active; otherwise one random draw below the spawn chance
    decides.  A spawn sets [lastSpawnTime] to the time of the call and
    changes nothing else of the spawner; the power-up is a fresh one. *)
Theorem powerUp_update_is_gated
  (cfg : GameConfig) (s : state) (gs : GameState) (dt : number) (w : World) :
  let now := clock w (clockReads w) in
  let active := List.length (filter (fun u : PowerUp => isActive u) (powerUps gs)) in
  let ups := fst (fst (update cfg s gs dt w)) in
  let s' := snd (fst (update cfg s gs dt w)) in
  let w' := snd (update cfg s gs dt w) in
  (List.length ups <= 1)%nat /\
  Forall fresh_powerUp ups /\
  (now - lastSpawnTime s < spawnInterval s \/ (3 <= active)%nat ->
   ups = [] /\ s' = s /\ entropyReads w' = entropyReads w) /\
  (ups <> [] <->
   spawnInterval s <= now - lastSpawnTime s /\ (active < 3)%nat /\
   entropy w (entropyReads w) < spawnChance s) /\
  (ups <> [] -> s' = mkState now (spawnInterval s) (spawnChance s)) /\
  (ups = [] -> s' = s).
Proof.
  cbv zeta. rewrite powerUp_update_eq. cbv zeta.
  set (now := clock w (clockReads w)).
  set (active := List.length (filter (fun u : PowerUp => isActive u) (powerUps gs))).
  destruct (now - lastSpawnTime s <? spawnInterval s) eqn:E1; reflect_cmp.
  { cbn [fst snd Date_now entropyReads].
    split; [cbn; lia|]. split; [constructor|].
    split; [intros _; repeat split|].
    split; [|split; [intros H; contradiction|reflexivity]].
    split; [intros H; contradiction|]. intros (H & _). lra. }
  destruct (3 <=? active)%nat eqn:E2.
  { apply Nat.leb_le in E2. cbn [fst snd Date_now entropyReads].
    split; [cbn; lia|]. split; [constructor|].
    split; [intros _; repeat split|].
    split; [|split; [intros H; contradiction|reflexivity]].
    split; [intros H; contradiction|]. intros (_ & H & _). lia. }
  apply Nat.leb_gt in E2.
  destruct (entropy w (entropyReads w) <? spawnChance s) eqn:E3; reflect_cmp;
    cbn [fst snd].
  - split; [cbn; lia|].
    split; [constructor; [apply createRandomPowerUp_fresh|constructor]|].
    split; [intros [H|H]; exfalso; [lra|lia]|].
    split; [|split; [reflexivity|discriminate]].
    split; [intros _; repeat split; assumption|discriminate].
  - split; [cbn; lia|]. split; [constructor|].
    split; [intros [H|H]; exfalso; [lra|lia]|].
    split; [|split; [intros H; contradiction|reflexivity]].
    split; [intros H; contradiction|]. intros (_ & _ & H). lra.
Qed.

(** The spawner does spawn: on the sample host 20 s after construction, with
    the chance raised above the draw of 1/2; and it does not with three
    power-ups in play. *)
Example powerUp_update_spawns_and_holds :
  let s := mkState 0 15000 (6 # 10) in
  let w := mkWorld (fun _ => 20000) 0 (fun _ => 1 # 2) 0 [] in
  List.length (fst (run (update sample_config s GameEngine.initialGameState 16) w))
  = 1%nat /\
  fst (run (update sample_config s three_pickups_state 16) w) = [].
Proof. split; vm_compute; reflexivity. Qed.

(** The position handed to [spawnSpecificPowerUp] (and so to
    [spawnHealthPowerUp], [spawnWeaponUpgrade] and the rewards for a
    defeated boss) plays no part: the power-up is the one [createPowerUp]
    makes, above the screen at a random x.  A defeated boss yields one to
    three rewards, a health power-up first, none of them at the boss. *)
Theorem rewards_ignore_the_position
  (cfg : GameConfig) (t : PowerUpType) (p q : Position) (w : World) :
  spawnSpecificPowerUp cfg t (Some p) w = createPowerUp cfg t w /\
  spawnHealthPowerUp cfg p w = createPowerUp cfg HEALTH w /\
  spawnWeaponUpgrade cfg p w = createPowerUp cfg WEAPON_UPGRADE w /\
  spawnBossDefeatReward cfg p w = spawnBossDefeatReward cfg q w /\
  let rewards := run (spawnBossDefeatReward cfg p) w in
  (1 <= List.length rewards <= 3)%nat /\
  option_map powerUpType (hd_error rewards) = Some HEALTH /\
  Forall fresh_powerUp rewards.
Proof.
  split; [reflexivity|]. split; [reflexivity|]. split; [reflexivity|].
  split; [reflexivity|].
  cbv zeta. unfold run.
  remember (spawnBossDefeatReward cfg p w) as r eqn:Hr.
  unfold spawnBossDefeatReward, spawnHealthPowerUp, spawnWeaponUpgrade,
    spawnSpecificPowerUp, bind, ret in Hr.
  cbv beta iota in Hr.
  pose proof (createPowerUp_fresh cfg HEALTH w) as H1.
  destruct (createPowerUp cfg HEALTH w) as [u1 w1].
  cbn [fst] in H1. destruct H1 as (Hf1 & Ht1 & _).
  unfold Math_random at 1 in Hr. cbv beta iota zeta in Hr.
  destruct (entropy w1 (entropyReads w1) <? 5 # 10).
  - match type of Hr with context [createPowerUp cfg WEAPON_UPGRADE ?w0] =>
      pose proof (createPowerUp_fresh cfg WEAPON_UPGRADE w0) as H2;
      destruct (createPowerUp cfg WEAPON_UPGRADE w0) as [u2 w2]
    end.
    cbn [fst] in H2. destruct H2 as (Hf2 & _ & _).
    unfold Math_random at 1 in Hr. cbv beta iota zeta in Hr.
    destruct (entropy w2 (entropyReads w2) <? 3 # 10).
    + match type of Hr with context [createPowerUp cfg SCORE_MULTIPLIER ?w0] =>
        pose proof (createPowerUp_fresh cfg SCORE_MULTIPLIER w0) as H3;
        destruct (createPowerUp cfg SCORE_MULTIPLIER w0) as [u3 w3]
      end.
      cbn [fst] in H3. destruct H3 as (Hf3 & _ & _).
      subst r. cbn [fst app List.length hd_error option_map].
      split; [lia|]. split; [now rewrite Ht1|].
      repeat (apply Forall_cons; [assumption|]). apply Forall_nil.
    + subst r. cbn [fst app List.length hd_error option_map].
      split; [lia|]. split; [now rewrite Ht1|].
      repeat (apply Forall_cons; [assumption|]). apply Forall_nil.
  - unfold Math_random at 1 in Hr. cbv beta iota zeta in Hr.
    match type of Hr with context [if ?c then _ else _] => destruct c end.
    + match type of Hr with context [createPowerUp cfg SCORE_MULTIPLIER ?w0] =>
        pose proof (createPowerUp_fresh cfg SCORE_MULTIPLIER w0) as H3;
        destruct (createPowerUp cfg SCORE_MULTIPLIER w0) as [u3 w3]
      end.
      cbn [fst] in H3. destruct H3 as (Hf3 & _ & _).
      subst r. cbn [fst app List.length hd_error option_map].
      split; [lia|]. split; [now rewrite Ht1|].
      repeat (apply Forall_cons; [assumption|]). apply Forall_nil.
    + subst r. cbn [fst app List.length hd_error option_map].
      split; [lia|]. split; [now rewrite Ht1|].
      repeat (apply Forall_cons; [assumption|]). apply Forall_nil.
Qed.

Lemma adjustSpawnRate_in_range (s : state) (d : string) :
  pickup_tuning_in_range s -> pickup_tuning_in_range (adjustSpawnRate s d).
Proof.
  intros Hs. unfold adjustSpawnRate.
  repeat match goal with |- context [if ?b then _ else _] => destruct b end;
    try exact Hs; unfold pickup_tuning_in_range; cbn [spawnInterval spawnChance];
    repeat split; lra.
Qed.

Lemma increaseDifficulty_in_range (s : state) :
  pickup_tuning_in_range s -> pickup_tuning_in_range (increaseDifficulty s).
Proof.
  intros (H1 & H2 & H3 & H4).
  unfold pickup_tuning_in_range, increaseDifficulty, Math_min, Math_max.
  cbn [spawnInterval spawnChance].
  split; [apply Q.min_glb; lra|]. split; [apply Q.le_min_l|].
  split; [apply Q.le_max_l|]. apply Q.max_lub; lra.
Qed.

Lemma pickup_step_in_range (cfg : GameConfig) (c : pickup_call) (s : state) (w : World) :
  pickup_tuning_in_range s -> pickup_tuning_in_range (fst (pickup_step cfg c s w)).
Proof.
  intros Hs. destruct c as [gs dt|d| |]; cbn [pickup_step].
  - pose proof (powerUp_update_tuning cfg s gs dt w) as Hf.
    destruct (update cfg s gs dt w) as [[ups s'] w']. cbn [fst snd] in *.
    destruct Hf as [Hi Hc]. unfold pickup_tuning_in_range. rewrite Hi, Hc. exact Hs.
  - apply adjustSpawnRate_in_range, Hs.
  - apply increaseDifficulty_in_range, Hs.
  - unfold pickup_tuning_in_range. cbn. repeat split; lra.
Qed.

Lemma pickup_states_in_range (cfg : GameConfig) (calls : list pickup_call) :
  forall (s : state) (w : World),
    pickup_tuning_in_range s ->
    Forall pickup_tuning_in_range (pickup_states cfg calls s w).
Proof.
  induction calls as [|c calls IH]; intros s w Hs; cbn [pickup_states].
  - constructor; [exact Hs|constructor].
  - constructor; [exact Hs|]. apply IH. apply pickup_step_in_range, Hs.
Qed.

(** Whatever is called on a power-up spawner after construction ([update],
    [adjustSpawnRate], [increaseDifficulty], [reset], in any order and
    number), its spawn interval stays between 12 s and 25 s and its spawn
    chance between 15% and 40%. *)
Theorem pickup_tuning_stays_in_range
  (cfg : GameConfig) (calls : list pickup_call) (w : World) :
  Forall pickup_tuning_in_range
         (pickup_states cfg calls (run create w) (snd (create w))).
Proof.
  apply pickup_states_in_range.
  unfold pickup_tuning_in_range. cbn. repeat split; lra.
Qed.

(** Six calls of [increaseDifficulty] take the interval from 15 s to the
    cap of 25 s. *)
Example increaseDifficulty_reaches_the_cap :
  let states := pickup_states sample_config (repeat IncreaseDifficulty 6)
                              (run create sample_world) (snd (create sample_world)) in
  option_map spawnInterval (hd_error states) = Some 15000 /\
  Forall (fun s => spawnInterval s < 25000) (firstn 6 states) /\
  Forall (fun s => spawnInterval s == 25000) (skipn 6 states).
Proof.
  cbv zeta. split; [reflexivity|].
  split; repeat constructor.
Qed.
End Pickups.


(** ** The enemy spawner: what it creates and the range it stays in *)

Section Waves.
Import EnemySpawner.

Lemma spawn_stages_eq (cfg : GameConfig) (s1 : state) (gs : GameState)
      (now : number) (w1 : World) :
  spawn_stages cfg s1 gs now w1 =
  let boss := shouldSpawnBoss s1 gs in
  let s2 := if boss then set_bossSpawned s1 true else s1 in
  let w2 := if boss then snd (createBoss cfg s1 w1) else w1 in
  let go := shouldSpawnEnemy s2 now
            && (enemiesInCurrentWave s2 <? maxEnemiesPerWave s2)%Z in
  ((if boss then [fst (createBoss cfg s1 w1)] else [])
   ++ (if go then [fst (createRandomEnemy cfg s2 w2)] else []),
   (if go
    then mkState now (spawnInterval s2) (waveNumber s2) (enemiesInCurrentWave s2 + 1)
                 (maxEnemiesPerWave s2) (timeBetweenWaves s2) (lastWaveTime s2)
                 (bossSpawned s2)
    else s2),
   (if go then snd (createRandomEnemy cfg s2 w2) else w2)).
Proof.
  unfold spawn_stages. cbv zeta.
  destruct (shouldSpawnBoss s1 gs).
  - destruct (createBoss cfg s1 w1) as [boss w2]. cbn [fst snd].
    destruct (shouldSpawnEnemy _ _ && _).
    + destruct (createRandomEnemy cfg (set_bossSpawned s1 true) w2) as [e w3].
      reflexivity.
    + reflexivity.
  - destruct (shouldSpawnEnemy _ _ && _).
    + destruct (createRandomEnemy cfg s1 w1) as [e w3]. reflexivity.
    + reflexivity.
Qed.

Lemma createBoss_fresh (cfg : GameConfig) (s : state) (w : World) :
  fresh_enemy (fst (createBoss cfg s w)) /\
  is_boss (fst (createBoss cfg s w)) = true /\
  pos_x (position (fst (createBoss cfg s w))) = screenWidth cfg / 2 /\
  entropy (snd (createBoss cfg s w)) = entropy w.
Proof. repeat split. Qed.

Lemma createEnemy_fresh (cfg : GameConfig) (s : state) (t : EnemyType) (w : World) :
  t <> BOSS ->
  fresh_enemy (fst (createEnemy cfg s t w)) /\
  pos_x (position (fst (createEnemy cfg s t w)))
  = entropy w (entropyReads w) * (screenWidth cfg - 60) + 30 /\
  entropy (snd (createEnemy cfg s t w)) = entropy w.
Proof. destruct t; intros Ht; try congruence; repeat split. Qed.

Lemma available_types_by_wave (s : state) (t : EnemyType) :
  In t (getAvailableEnemyTypes s) -> wave_allows (waveNumber s) t /\ t <> BOSS.
Proof.
  unfold getAvailableEnemyTypes.
  destruct (waveNumber s >=? 2)%Z eqn:E2, (waveNumber s >=? 3)%Z eqn:E3;
    cbn [app In]; intros Hin;
    repeat match type of Hin with _ \/ _ => destruct Hin as [<-|Hin] end;
    try contradiction; cbn [wave_allows]; (split; [|discriminate]); trivial; lia.
Qed.

Lemma createRandomEnemy_fresh (cfg : GameConfig) (s : state) (w : World) :
  let e := fst (createRandomEnemy cfg s w) in
  fresh_enemy e /\ is_boss e = false /\
  wave_allows (waveNumber s) (enemyType e) /\
  pos_x (position e) = entropy w (S (entropyReads w)) * (screenWidth cfg - 60) + 30 /\
  entropy (snd (createRandomEnemy cfg s w)) = entropy w.
Proof.
  cbv zeta. unfold createRandomEnemy, bind, Math_random. cbv beta iota zeta.
  set (t := pick (getAvailableEnemyTypes s) (entropy w (entropyReads w)) BASIC).
  assert (Ht : wave_allows (waveNumber s) t /\ t <> BOSS).
  { destruct (pick_In (getAvailableEnemyTypes s) (entropy w (entropyReads w)) BASIC)
      as [Hin|Heq].
    - apply available_types_by_wave. exact Hin.
    - fold t in Heq. rewrite Heq. split; [exact I|discriminate]. }
  destruct Ht as [Hallow Hreg].
  destruct (createEnemy_fresh cfg s t
              (mkWorld (clock w) (clockReads w) (entropy w) (S (entropyReads w)) (cues w))
              Hreg) as (Hf & Hx & He).
  split; [exact Hf|]. split.
  { unfold is_boss. rewrite createEnemy_type. destruct t; congruence. }
  split; [rewrite createEnemy_type; exact Hallow|].
  split; [exact Hx | exact He].
Qed.

(** [update] hands back at most two enemies, a boss and a regular one at
    most, the boss first.  Each is fresh; fast enemies come from wave 2,
    heavy ones from wave 3, a boss only in a wave divisible by 5.  Only a
    regular enemy counts towards the wave's quota, and it does so only when
    the quota was not yet reached and more than the spawn interval has
    passed since the last regular spawn. *)
Theorem enemy_update_spawns
  (cfg : GameConfig) (s : state) (gs : GameState) (dt : number) (w : World) :
  let now := clock w (clockReads w) in
  let es := fst (fst (update cfg s gs dt w)) in
  let s' := snd (fst (update cfg s gs dt w)) in
  (List.length es <= 2)%nat /\
  (List.length (filter is_boss es) <= 1)%nat /\
  (List.length (regulars es) <= 1)%nat /\
  es = filter is_boss es ++ regulars es /\
  Forall (fun e => fresh_enemy e /\ wave_allows (waveNumber s') (enemyType e)) es /\
  (waveNumber s' = waveNumber s ->
   enemiesInCurrentWave s'
   = (enemiesInCurrentWave s + Z.of_nat (List.length (regulars es)))%Z) /\
  (waveNumber s' <> waveNumber s ->
   enemiesInCurrentWave s' = Z.of_nat (List.length (regulars es))) /\
  (regulars es <> [] ->
   (enemiesInCurrentWave s' <= maxEnemiesPerWave s')%Z /\ lastSpawnTime s' = now /\
   (waveNumber s' = waveNumber s -> spawnInterval s < now - lastSpawnTime s)) /\
  (regulars es = [] -> lastSpawnTime s' = lastSpawnTime s).
Proof.
  cbv zeta. rewrite update_stages. cbv zeta.
  set (now := clock w (clockReads w)).
  assert (Hgen : forall s1 w1,
    (s1 = s \/ waveNumber s1 = (waveNumber s + 1)%Z /\ enemiesInCurrentWave s1 = 0%Z
               /\ lastSpawnTime s1 = lastSpawnTime s) ->
    let es := fst (fst (spawn_stages cfg s1 gs now w1)) in
    let s' := snd (fst (spawn_stages cfg s1 gs now w1)) in
    (List.length es <= 2)%nat /\
    (List.length (filter is_boss es) <= 1)%nat /\
    (List.length (regulars es) <= 1)%nat /\
    es = filter is_boss es ++ regulars es /\
    Forall (fun e => fresh_enemy e /\ wave_allows (waveNumber s') (enemyType e)) es /\
    (waveNumber s' = waveNumber s ->
     enemiesInCurrentWave s'
     = (enemiesInCurrentWave s + Z.of_nat (List.length (regulars es)))%Z) /\
    (waveNumber s' <> waveNumber s ->
     enemiesInCurrentWave s' = Z.of_nat (List.length (regulars es))) /\
    (regulars es <> [] ->
     (enemiesInCurrentWave s' <= maxEnemiesPerWave s')%Z /\ lastSpawnTime s' = now /\
     (waveNumber s' = waveNumber s -> spawnInterval s < now - lastSpawnTime s)) /\
    (regulars es = [] -> lastSpawnTime s' = lastSpawnTime s)).
  { intros s1 w1 Hs1. cbv zeta. rewrite spawn_stages_eq. cbv zeta.
    set (s2 := if shouldSpawnBoss s1 gs then set_bossSpawned s1 true else s1).
    set (w2 := if shouldSpawnBoss s1 gs then snd (createBoss cfg s1 w1) else w1).
    assert (Hs2 : waveNumber s2 = waveNumber s1 /\
                  enemiesInCurrentWave s2 = enemiesInCurrentWave s1 /\
                  maxEnemiesPerWave s2 = maxEnemiesPerWave s1 /\
                  lastSpawnTime s2 = lastSpawnTime s1 /\
                  spawnInterval s2 = spawnInterval s1)
      by (subst s2; destruct (shouldSpawnBoss s1 gs); repeat split).
    destruct Hs2 as (Hw2 & Hc2 & Hm2 & Hl2 & Hi2).
    destruct (createBoss_fresh cfg s1 w1) as (Hbf & Hbb & _ & _).
    destruct (createRandomEnemy_fresh cfg s2 w2) as (Hrf & Hrb & Hra & _ & _).
    set (boss := fst (createBoss cfg s1 w1)) in *.
    set (enemy := fst (createRandomEnemy cfg s2 w2)) in *.
    destruct (shouldSpawnEnemy s2 now
              && (enemiesInCurrentWave s2 <? maxEnemiesPerWave s2)%Z) eqn:Ego;
      [apply andb_prop in Ego; destruct Ego as [Ego1 Ego2];
       unfold shouldSpawnEnemy in Ego1; apply Qgtb_gt in Ego1;
       apply Z.ltb_lt in Ego2|];
      destruct (shouldSpawnBoss s1 gs) eqn:Eboss;
      try (apply shouldSpawnBoss_true in Eboss; destruct Eboss as (Hdiv & _ & _));
      cbn [fst snd app List.length]; unfold regulars;
      cbn [filter waveNumber enemiesInCurrentWave maxEnemiesPerWave lastSpawnTime];
      rewrite ?Hbb, ?Hrb; cbn [negb app List.length];
      (split; [lia|]); (split; [lia|]); (split; [lia|]); (split; [reflexivity|]).
    - split.
      { constructor; [|constructor; [|constructor]].
        - split; [exact Hbf|]. rewrite Hw2.
          replace (enemyType boss) with BOSS by reflexivity. exact Hdiv.
        - split; [exact Hrf | exact Hra]. }
      rewrite Hw2, Hc2, Hm2, Hl2 in *.
      destruct Hs1 as [->|(Hadv & Hzero & Hlast)].
      + split; [intros _; lia|]. split; [intros Hne; congruence|].
        split; [intros _; split; [lia|split; [reflexivity|intros _; congruence]]|].
        intros H; discriminate.
      + split; [intros Heq; lia|]. split; [intros _; lia|].
        split; [intros _; split; [lia|split; [reflexivity|intros Heq; lia]]|].
        intros H; discriminate.
    - split.
      { constructor; [|constructor]. split; [exact Hrf | exact Hra]. }
      rewrite Hw2, Hc2, Hm2, Hl2 in *.
      destruct Hs1 as [->|(Hadv & Hzero & Hlast)].
      + split; [intros _; lia|]. split; [intros Hne; congruence|].
        split; [intros _; split; [lia|split; [reflexivity|intros _; congruence]]|].
        intros H; discriminate.
      + split; [intros Heq; lia|]. split; [intros _; lia|].
        split; [intros _; split; [lia|split; [reflexivity|intros Heq; lia]]|].
        intros H; discriminate.
    - split.
      { constructor; [|constructor].
        split; [exact Hbf|].
        replace (enemyType boss) with BOSS by reflexivity. exact Hdiv. }
      destruct Hs1 as [->|(Hadv & Hzero & Hlast)].
      + split; [intros _; lia|]. split; [intros Hne; congruence|].
        split; [intros H; congruence|]. intros _. reflexivity.
      + split; [intros Heq; lia|]. split; [intros _; lia|].
        split; [intros H; congruence|]. intros _. exact Hlast.
    - split; [constructor|].
      destruct Hs1 as [->|(Hadv & Hzero & Hlast)].
      + split; [intros _; lia|]. split; [intros Hne; congruence|].
        split; [intros H; congruence|]. intros _. reflexivity.
      + split; [intros Heq; lia|]. split; [intros _; lia|].
        split; [intros H; congruence|]. intros _. exact Hlast. }
  destruct (shouldStartNewWave s gs now).
  - apply Hgen. right. repeat split.
  - apply Hgen. left. reflexivity.
Qed.

Lemma startNewWave_in_range (s : state) (w : World) :
  spawner_in_range s -> spawner_in_range (fst (startNewWave s w)).
Proof.
  intros (H1 & H2 & H3 & H4 & H5 & H6 & H7).
  unfold spawner_in_range, startNewWave, scaleDifficulty, bind, ret, Date_now,
    Math_max.
  cbn [fst spawnInterval maxEnemiesPerWave timeBetweenWaves waveNumber
       enemiesInCurrentWave].
  split; [apply Q.le_max_l|]. split; [apply Q.max_lub; lra|].
  split; [lia|].
  split; [apply Q.le_max_l|]. split; [apply Q.max_lub; lra|].
  split; lia.
Qed.

Lemma spawn_stages_fields (cfg : GameConfig) (s1 : state) (gs : GameState)
      (now : number) (w1 : World) :
  let s' := snd (fst (spawn_stages cfg s1 gs now w1)) in
  spawnInterval s' = spawnInterval s1 /\
  maxEnemiesPerWave s' = maxEnemiesPerWave s1 /\
  timeBetweenWaves s' = timeBetweenWaves s1 /\
  waveNumber s' = waveNumber s1 /\
  (enemiesInCurrentWave s' = enemiesInCurrentWave s1 \/
   enemiesInCurrentWave s' = (enemiesInCurrentWave s1 + 1)%Z /\
   (enemiesInCurrentWave s1 < maxEnemiesPerWave s1)%Z).
Proof.
  cbv zeta. rewrite spawn_stages_eq. cbv zeta. cbn [fst snd].
  destruct (shouldSpawnBoss s1 gs);
    match goal with |- context [if ?c then _ else _] => destruct c eqn:Ego end;
    try (apply andb_prop in Ego; destruct Ego as [_ Ego]; apply Z.ltb_lt in Ego);
    cbn in *; auto 10.
Qed.

Lemma update_in_range (cfg : GameConfig) (s : state) (gs : GameState)
      (dt : number) (w : World) :
  spawner_in_range s -> spawner_in_range (snd (fst (update cfg s gs dt w))).
Proof.
  intros Hs. rewrite update_stages. cbv zeta.
  assert (Hgen : forall s1 w1, spawner_in_range s1 ->
            spawner_in_range (snd (fst (spawn_stages cfg s1 gs
                                          (clock w (clockReads w)) w1)))).
  { intros s1 w1 (H1 & H2 & H3 & H4 & H5 & H6 & H7).
    destruct (spawn_stages_fields cfg s1 gs (clock w (clockReads w)) w1)
      as (Ei & Em & Et & Ew & Ec).
    unfold spawner_in_range. rewrite Ei, Em, Et, Ew.
    repeat split; try assumption; lia. }
  destruct (shouldStartNewWave s gs (clock w (clockReads w))).
  - apply Hgen. unfold run. apply startNewWave_in_range, Hs.
  - apply Hgen, Hs.
Qed.

Lemma setDifficulty_in_range (s : state) (d : string) :
  spawner_in_range s -> spawner_in_range (setDifficulty s d).
Proof.
  intros Hs. pose proof Hs as (H1 & H2 & H3 & H4 & H5 & H6 & H7).
  unfold setDifficulty.
  repeat match goal with |- context [if ?b then _ else _] => destruct b end;
    try exact Hs; unfold spawner_in_range;
    cbn [spawnInterval maxEnemiesPerWave timeBetweenWaves waveNumber
         enemiesInCurrentWave];
    repeat split; try assumption; try lia; lra.
Qed.

Lemma fresh_spawner_in_range (t1 t2 : number) :
  spawner_in_range (mkState t1 2000 1 0 5 5000 t2 false).
Proof.
  unfold spawner_in_range.
  cbn [spawnInterval maxEnemiesPerWave timeBetweenWaves waveNumber
       enemiesInCurrentWave].
  repeat split; try lia; lra.
Qed.

Lemma trace_in_range (cfg : GameConfig) (calls : list call) :
  forall (s : state) (w : World),
    spawner_in_range s ->
    Forall (fun f => spawner_in_range (after f)) (trace cfg calls s w).
Proof.
  induction calls as [|c calls IH]; intros s w Hs; cbn [trace].
  - constructor.
  - destruct c as [gs dt|d|].
    + pose proof (update_in_range cfg s gs dt w Hs) as Hu.
      destruct (update cfg s gs dt w) as [[es s'] w']. cbn [fst snd] in Hu.
      constructor; [exact Hu|]. apply IH, Hu.
    + constructor; [apply setDifficulty_in_range, Hs|].
      apply IH, setDifficulty_in_range, Hs.
    + unfold reset, bind, ret, Date_now. cbn [clock clockReads entropy entropyReads cues].
      constructor; [apply fresh_spawner_in_range|].
      apply IH, fresh_spawner_in_range.
Qed.

(** Whatever is called on an enemy spawner after construction ([update],
    [setDifficulty], [reset], in any order and number), its spawn interval
    stays between 500 ms and 3 s, its quota between 3 and 15 enemies, its
    delay between waves between 2 s and 5 s; the wave number is at least 1
    and the per-wave counter is never negative. *)
Theorem enemy_spawner_stays_in_range
  (cfg : GameConfig) (calls : list call) (w : World) :
  spawner_in_range (run create w) /\
  Forall (fun f => spawner_in_range (after f))
         (trace cfg calls (run create w) (snd (create w))).
Proof.
  split; [apply fresh_spawner_in_range|].
  apply trace_in_range, fresh_spawner_in_range.
Qed.

Lemma update_within_quota (cfg : GameConfig) (s : state) (gs : GameState)
      (dt : number) (w : World) :
  spawner_in_range s -> within_quota s ->
  within_quota (snd (fst (update cfg s gs dt w))).
Proof.
  intros Hr Hs. rewrite update_stages. cbv zeta.
  assert (Hgen : forall s1 w1, within_quota s1 ->
            within_quota (snd (fst (spawn_stages cfg s1 gs
                                      (clock w (clockReads w)) w1)))).
  { intros s1 w1 Hq.
    destruct (spawn_stages_fields cfg s1 gs (clock w (clockReads w)) w1)
      as (_ & Em & _ & _ & Ec).
    unfold within_quota in *. rewrite Em.
    destruct Ec as [-> | [-> Hlt]]; lia. }
  destruct (shouldStartNewWave s gs (clock w (clockReads w))).
  - apply Hgen.
    pose proof (startNewWave_in_range s (snd (Date_now w)) Hr) as (_ & _ & H3 & _).
    unfold within_quota, run. unfold startNewWave, scaleDifficulty, bind, ret, Date_now in *.
    cbn [fst enemiesInCurrentWave maxEnemiesPerWave] in *. lia.
  - apply Hgen, Hs.
Qed.

Lemma trace_within_quota (cfg : GameConfig) (calls : list call) :
  existsb is_set_difficulty calls = false ->
  forall (s : state) (w : World),
    spawner_in_range s -> within_quota s ->
    Forall (fun f => within_quota (after f)) (trace cfg calls s w).
Proof.
  induction calls as [|c calls IH]; intros Hfree s w Hr Hs; cbn [trace].
  - constructor.
  - destruct c as [gs dt|d|]; cbn [existsb is_set_difficulty orb] in Hfree;
      [| discriminate |].
    + pose proof (update_in_range cfg s gs dt w Hr) as Hr'.
      pose proof (update_within_quota cfg s gs dt w Hr Hs) as Hu.
      destruct (update cfg s gs dt w) as [[es s'] w']. cbn [fst snd] in Hu, Hr'.
      constructor; [exact Hu|]. apply IH; assumption.
    + unfold reset, bind, ret, Date_now. cbn [clock clockReads entropy entropyReads cues].
      constructor; [unfold within_quota; cbn; lia|].
      apply IH; [exact Hfree|apply fresh_spawner_in_range|unfold within_quota; cbn; lia].
Qed.

(** As long as [setDifficulty] is not called, the spawner never counts more
    regular enemies in a wave than the wave's quota, whatever the calls of
    [update] and [reset]. *)
Theorem wave_quota_is_respected
  (cfg : GameConfig) (calls : list call) (w : World) :
  existsb is_set_difficulty calls = false ->
  Forall (fun f => within_quota (after f))
         (trace cfg calls (run create w) (snd (create w))).
Proof.
  intros Hfree. apply trace_within_quota.
  - exact Hfree.
  - apply fresh_spawner_in_range.
  - unfold within_quota. cbn. lia.
Qed.

Lemma wave_quota_is_respected_witness :
  Forall (fun f => within_quota (after f)) long_run.
Proof.
  apply (wave_quota_is_respected sample_config long_calls slow_world).
  reflexivity.
Defined.

(** [setDifficulty] can lower the quota under the count in the middle of a
    wave: in the eased run the 17th call leaves 5 enemies counted against a
    quota of 3, and the next [update] starts the next wave at once. *)
Example setDifficulty_may_break_the_quota :
  map (fun f => (waveNumber (after f), enemiesInCurrentWave (after f),
                 maxEnemiesPerWave (after f)))
      (firstn 3 (skipn 15 eased_run))
  = [(3, 5, 7); (3, 5, 3); (4, 1, 4)]%Z.
Proof. vm_compute. reflexivity. Qed.

Lemma draw_in_band (cfg : GameConfig) (r : number) :
  roomy cfg -> 0 <= r -> r < 1 ->
  30 <= r * (screenWidth cfg - 60) + 30 /\
  r * (screenWidth cfg - 60) + 30 <= screenWidth cfg - 30.
Proof.
  intros [Hw _] H0 H1.
  assert (Ha : 0 <= r * (screenWidth cfg - 60)) by (apply Qmult_le_0_compat; lra).
  assert (Hb : r * (screenWidth cfg - 60) <= 1 * (screenWidth cfg - 60))
    by (apply Qmult_le_compat_r; lra).
  lra.
Qed.

Lemma band_is_on_screen (cfg : GameConfig) (o : GameObject) :
  roomy cfg -> in_spawn_band cfg o ->
  pos_y (position o) = -30 \/ pos_y (position o) = -50 ->
  PhysicsEngine.isOnScreen cfg o = true.
Proof.
  intros [Hw Hh] [Hx1 Hx2] Hy. apply isOnScreen_true.
  destruct Hy as [-> | ->]; repeat split; lra.
Qed.

(** On a screen at least 60 px wide, with a random source that answers in
    [0, 1): every enemy and every power-up the two spawners hand back from
    [update] starts in the band 30 px in from either side, above the top
    edge, and within the 100 px margin of the physics engine, which
    therefore does not take it for off screen. *)
Theorem spawns_start_in_the_band
  (cfg : GameConfig) (s : state) (p : PowerUpSpawner.state) (gs : GameState)
  (dt : number) (w : World) :
  roomy cfg -> unit_entropy w ->
  Forall (fun e : Enemy =>
            in_spawn_band cfg e /\ pos_y (position e) < 0 /\
            PhysicsEngine.isOnScreen cfg e = true)
         (fst (fst (update cfg s gs dt w))) /\
  Forall (fun u : PowerUp =>
            in_spawn_band cfg u /\ pos_y (position u) < 0 /\
            PhysicsEngine.isOnScreen cfg u = true)
         (fst (fst (PowerUpSpawner.update cfg p gs dt w))).
Proof.
  intros Hroomy Hunit. split.
  - rewrite update_stages. cbv zeta.
    assert (Hgen : forall s1 w1, entropy w1 = entropy w ->
              Forall (fun e : Enemy =>
                        in_spawn_band cfg e /\ pos_y (position e) < 0 /\
                        PhysicsEngine.isOnScreen cfg e = true)
                     (fst (fst (spawn_stages cfg s1 gs (clock w (clockReads w)) w1)))).
    { intros s1 w1 Hw1. rewrite spawn_stages_eq. cbv zeta. cbn [fst].
      apply Forall_app. split.
      - destruct (shouldSpawnBoss s1 gs); [|constructor].
        constructor; [|constructor].
        destruct (createBoss_fresh cfg s1 w1) as (_ & _ & Hx & _).
        assert (Hband : in_spawn_band cfg (fst (createBoss cfg s1 w1))).
        { unfold in_spawn_band. rewrite Hx. destruct Hroomy as [Hw _].
          split; qlra. }
        split; [exact Hband|]. split; [cbn; lra|].
        apply band_is_on_screen; [exact Hroomy|exact Hband|right; reflexivity].
      - match goal with |- context [if ?c then _ else _] => destruct c end;
          [|constructor].
        constructor; [|constructor].
        match goal with |- context [createRandomEnemy cfg ?s2 ?w2] =>
          destruct (createRandomEnemy_fresh cfg s2 w2) as (Hf & Hb & _ & Hx & _);
          assert (He : entropy w2 = entropy w)
            by (destruct (shouldSpawnBoss s1 gs); [cbn; exact Hw1|exact Hw1])
        end.
        destruct Hf as (_ & _ & _ & _ & _ & Hy). rewrite Hb in Hy.
        match goal with |- context [createRandomEnemy cfg ?s2 ?w2] =>
          set (e := fst (createRandomEnemy cfg s2 w2)) in *
        end.
        assert (Hband : in_spawn_band cfg e).
        { unfold in_spawn_band. rewrite Hx, He.
          apply draw_in_band; [exact Hroomy|apply Hunit|apply Hunit]. }
        split; [exact Hband|]. split; [rewrite Hy; lra|].
        apply band_is_on_screen; [exact Hroomy|exact Hband|left; exact Hy]. }
    destruct (shouldStartNewWave s gs (clock w (clockReads w)));
      apply Hgen; reflexivity.
  - rewrite powerUp_update_eq. cbv zeta.
    repeat match goal with |- context [if ?c then _ else _] => destruct c end;
      cbn [fst]; try constructor; [|constructor].
    unfold PowerUpSpawner.createRandomPowerUp, bind, Math_random.
    cbv beta iota zeta. cbn [snd Date_now clock clockReads entropy entropyReads cues].
    match goal with |- context [PowerUpSpawner.createPowerUp cfg ?t ?w0] =>
      destruct (createPowerUp_fresh cfg t w0) as (Hf & _ & Hx);
      set (u := fst (PowerUpSpawner.createPowerUp cfg t w0)) in *
    end.
    cbn [entropy entropyReads] in Hx.
    destruct Hf as (_ & Hy & _).
    assert (Hband : in_spawn_band cfg u).
    { unfold in_spawn_band. rewrite Hx.
      apply draw_in_band; [exact Hroomy|apply Hunit|apply Hunit]. }
    split; [exact Hband|]. split; [rewrite Hy; lra|].
    apply band_is_on_screen; [exact Hroomy|exact Hband|left; exact Hy].
Qed.

Lemma spawns_start_in_the_band_witness :
  let now := mkWorld (fun _ => 20000) 0 (fun _ => 1 # 2) 0 [] in
  Forall (fun e : Enemy =>
            in_spawn_band sample_config e /\ pos_y (position e) < 0 /\
            PhysicsEngine.isOnScreen sample_config e = true)
         (fst (fst (update sample_config (mkState 0 2000 1 0 5 5000 0 false)
                           GameEngine.initialGameState 16 now))) /\
  Forall (fun u : PowerUp =>
            in_spawn_band sample_config u /\ pos_y (position u) < 0 /\
            PhysicsEngine.isOnScreen sample_config u = true)
         (fst (fst (PowerUpSpawner.update sample_config
                      (PowerUpSpawner.mkState 0 15000 (6 # 10))
                      GameEngine.initialGameState 16 now))).
Proof.
  apply (spawns_start_in_the_band sample_config (mkState 0 2000 1 0 5 5000 0 false)
           (PowerUpSpawner.mkState 0 15000 (6 # 10)) GameEngine.initialGameState 16
           (mkWorld (fun _ => 20000) 0 (fun _ => 1 # 2) 0 [])).
  - split; vm_compute; discriminate.
  - intros n. split; [vm_compute; discriminate | reflexivity].
Defined.

(** The two lists of the witness are not empty. *)
Example spawns_of_the_witness :
  let now := mkWorld (fun _ => 20000) 0 (fun _ => 1 # 2) 0 [] in
  List.length (fst (fst (update sample_config (mkState 0 2000 1 0 5 5000 0 false)
                                GameEngine.initialGameState 16 now))) = 1%nat /\
  List.length (fst (fst (PowerUpSpawner.update sample_config
                           (PowerUpSpawner.mkState 0 15000 (6 # 10))
                           GameEngine.initialGameState 16 now))) = 1%nat.
Proof. split; vm_compute; reflexivity. Qed.
(** The statistics are floored as doubles: the boss of wave 10 has health
    469 (the exact product 200 * 2.35 is 470) and damage 70, a heavy enemy
    of wave 37 has health 114 (exactly 25 * 4.6 = 115); in wave 1 the
    multiplier is 1 and nothing is lost. *)
Example statistics_are_floored_doubles :
  let in_wave (n : Z) := mkState 0 2000 n 0 5 5000 0 false in
  boss_health (getBossStats (in_wave 10%Z)) = 469 /\
  boss_damage (getBossStats (in_wave 10%Z)) = 70 /\
  boss_points (getBossStats (in_wave 10%Z)) = 1000 * 2 /\
  stat_health (getEnemyStats (in_wave 37%Z) HEAVY) = 114 /\
  stat_health (getEnemyStats (in_wave 1%Z) BASIC) = 10 /\
  stat_damage (getEnemyStats (in_wave 1%Z) BASIC) = 10.
Proof. cbv zeta. repeat split; vm_compute; reflexivity. Qed.

End Waves.


(** ** The frame of the physics engine: culling and enemy fire *)

Section PhysicsFrame.
Context {math : MathLib}.
Variable cfg : GameConfig.
Import PhysicsEngine.

Lemma with_shots_none (gs : GameState) : with_shots gs [] gs.
Proof. unfold with_shots. rewrite app_nil_r. destruct gs. reflexivity. Qed.

Lemma with_shots_then (a b c : GameState) (s1 s2 : list Bullet) :
  with_shots a s1 b -> with_shots b s2 c -> with_shots a (s1 ++ s2) c.
Proof.
  unfold with_shots. intros -> ->. cbn [bullets set_bullets].
  rewrite app_assoc. reflexivity.
Qed.

Lemma createEnemyBullet_shot (e : Enemy) (w : World) :
  enemy_shot (fst (createEnemyBullet e w)) /\
  ownerId (fst (createEnemyBullet e w)) = id e.
Proof. repeat split. Qed.

Lemma handleEnemyShooting_shots (e : Enemy) (gs : GameState) (dt : number) (w : World) :
  let r := fst (handleEnemyShooting e gs dt w) in
  exists shots, with_shots gs shots (snd r) /\ (List.length shots <= 1)%nat /\
                Forall (fun b => enemy_shot b /\ ownerId b = id e) shots.
Proof.
  intros r. subst r.
  remember (handleEnemyShooting e gs dt w) as r eqn:Hr.
  unfold handleEnemyShooting, bind, ret, Date_now in Hr.
  destruct (lastShotTime_falsy e);
    cbn [clock clockReads entropy entropyReads cues] in Hr;
    match type of Hr with context [if ?c then _ else _] => destruct c end;
    try (match type of Hr with context [createEnemyBullet ?e1 ?w1] =>
           pose proof (createEnemyBullet_shot e1 w1) as Hshot;
           destruct (createEnemyBullet e1 w1) as [b w2]
         end);
    subst r; cbn [fst snd] in *;
    [exists [b]; split; [reflexivity|]; split; [cbn; lia|];
     constructor; [exact Hshot|constructor]
    |exists []; split; [apply with_shots_none|split; [cbn; lia|constructor]]
    |exists [b]; split; [reflexivity|]; split; [cbn; lia|];
     constructor; [exact Hshot|constructor]
    |exists []; split; [apply with_shots_none|split; [cbn; lia|constructor]]].
Qed.

Lemma updateEnemyBehavior_shots (e : Enemy) (gs : GameState) (dt : number) (w : World) :
  let r := fst (updateEnemyBehavior e gs dt w) in
  exists shots, with_shots gs shots (snd r) /\ (List.length shots <= 1)%nat /\
                Forall (fun b => enemy_shot b /\ ownerId b = id e) shots.
Proof.
  intros r. subst r. unfold updateEnemyBehavior, bind.
  match goal with
  | |- context [let (_, _) := ?m w in _] => destruct (m w) as [e1 w1] eqn:Hm
  end.
  assert (H1 : id e1 = id e).
  { destruct (attackPattern e).
    - inversion Hm. reflexivity.
    - inversion Hm. reflexivity.
    - inversion Hm. reflexivity.
    - destruct (findNearestPlayer e (players gs)) as [nearest|].
      + match type of Hm with context [if ?c then _ else _] => destruct c end;
          inversion Hm; reflexivity.
      + inversion Hm. reflexivity. }
  rewrite <- H1. apply handleEnemyShooting_shots.
Qed.

Lemma updateGameObject_kept (o : GameObject) (ds : number) :
  id (updateGameObject o ds) = id o /\ health (updateGameObject o ds) = health o /\
  maxHealth (updateGameObject o ds) = maxHealth o /\
  velocity (updateGameObject o ds) = velocity o /\
  size (updateGameObject o ds) = size o /\
  isActive (updateGameObject o ds) = isActive o.
Proof.
  unfold updateGameObject. cbv zeta.
  match goal with |- context [if ?c then _ else _] => destruct c end; repeat split.
Qed.

Lemma handleEnemyShooting_kind (e : Enemy) (gs : GameState) (dt : number) (w : World) :
  let e' := fst (fst (handleEnemyShooting e gs dt w)) in
  enemyType e' = enemyType e /\ enemy_damage e' = enemy_damage e /\
  points e' = points e /\ attackPattern e' = attackPattern e.
Proof.
  intros e'. subst e'.
  remember (handleEnemyShooting e gs dt w) as r eqn:Hr.
  unfold handleEnemyShooting, bind, ret, Date_now in Hr.
  destruct (lastShotTime_falsy e);
    cbn [clock clockReads entropy entropyReads cues] in Hr;
    match type of Hr with context [if ?c then _ else _] => destruct c end;
    try (match type of Hr with context [createEnemyBullet ?e1 ?w1] =>
           destruct (createEnemyBullet e1 w1) as [b w2]
         end);
    subst r; repeat split.
Qed.

Lemma updateEnemyBehavior_kind (e : Enemy) (gs : GameState) (dt : number) (w : World) :
  let e' := fst (fst (updateEnemyBehavior e gs dt w)) in
  enemyType e' = enemyType e /\ enemy_damage e' = enemy_damage e /\
  points e' = points e /\ attackPattern e' = attackPattern e.
Proof.
  intros e'. subst e'. unfold updateEnemyBehavior, bind.
  match goal with
  | |- context [let (_, _) := ?m w in _] => destruct (m w) as [e1 w1] eqn:Hm
  end.
  assert (H1 : enemyType e1 = enemyType e /\ enemy_damage e1 = enemy_damage e /\
               points e1 = points e /\ attackPattern e1 = attackPattern e).
  { destruct (attackPattern e) eqn:Hp.
    - inversion Hm. subst e1. repeat split. exact Hp.
    - inversion Hm. cbn. repeat split. exact Hp.
    - inversion Hm. cbn. repeat split. exact Hp.
    - destruct (findNearestPlayer e (players gs)) as [nearest|].
      + match type of Hm with context [if ?c then _ else _] => destruct c end;
          inversion Hm; subst; cbn; repeat split; exact Hp.
      + inversion Hm. subst e1. repeat split. exact Hp. }
  destruct (handleEnemyShooting_kind e1 gs dt w1) as (K1 & K2 & K3 & K4).
  destruct H1 as (J1 & J2 & J3 & J4).
  repeat split; congruence.
Qed.

Lemma updateEnemy_kind (ds : number) (e : Enemy) (gs : GameState) (w : World) :
  let e' := fst (fst (updateEnemy cfg ds e gs w)) in
  enemyType e' = enemyType e /\ enemy_damage e' = enemy_damage e /\
  points e' = points e /\ attackPattern e' = attackPattern e /\
  (isActive e = false -> e' = e).
Proof.
  intros e'. subst e'. unfold updateEnemy.
  destruct (isActive e) eqn:Hact.
  - unfold bind.
    pose proof (updateEnemyBehavior_kind
                  (mutate (fun o => updateGameObject o ds) e) gs ds w) as Hk.
    cbv zeta in Hk.
    destruct (updateEnemyBehavior (mutate (fun o => updateGameObject o ds) e) gs ds w)
      as [[e2 gs2] w2].
    cbn [fst snd] in Hk. destruct Hk as (K1 & K2 & K3 & K4).
    destruct (negb (isOnScreen cfg e2)); cbn [ret fst snd];
      (split; [exact K1|]); (split; [exact K2|]); (split; [exact K3|]);
      (split; [exact K4|]); intros H; discriminate.
  - cbn. repeat split.
Qed.

Lemma updateEnemy_frame (ds : number) (e : Enemy) (gs : GameState) (w : World) :
  let r := fst (updateEnemy cfg ds e gs w) in
  culled_off_screen cfg e (fst r) /\
  exists shots, with_shots gs shots (snd r) /\
                (List.length shots <= (if isActive e then 1 else 0))%nat /\
                Forall (fun b => enemy_shot b /\ ownerId b = id e) shots.
Proof.
  intros r. subst r. unfold updateEnemy, culled_off_screen.
  destruct (isActive e) eqn:Hact.
  - unfold bind.
    pose proof (updateEnemyBehavior_spec
                  (mutate (fun o => updateGameObject o ds) e) gs ds w) as Hb.
    pose proof (updateEnemyBehavior_shots
                  (mutate (fun o => updateGameObject o ds) e) gs ds w) as Hs.
    cbv zeta in Hb, Hs.
    assert (Hid : forall r0, r0 = updateEnemyBehavior
                                    (mutate (fun o => updateGameObject o ds) e) gs ds w ->
                  id (fst (fst r0)) = id e /\ health (fst (fst r0)) = health e /\
                  maxHealth (fst (fst r0)) = maxHealth e).
    { intros r0 ->. unfold updateEnemyBehavior, bind.
      match goal with
      | |- context [let (_, _) := ?m w in _] => destruct (m w) as [e1 w1] eqn:Hm
      end.
      assert (H1 : id e1 = id e /\ health e1 = health e /\ maxHealth e1 = maxHealth e).
      { destruct (attackPattern e) eqn:Hp;
          unfold mutate in Hm; cbn [attackPattern withObj Enemy_Entity] in Hm;
          rewrite ?Hp in Hm.
        - inversion Hm. unfold updateGameObject. cbv zeta.
          match goal with |- context [if ?c then _ else _] => destruct c end;
            repeat split.
        - inversion Hm. unfold updateGameObject. cbv zeta.
          match goal with |- context [if ?c then _ else _] => destruct c end;
            repeat split.
        - inversion Hm. unfold updateGameObject. cbv zeta.
          match goal with |- context [if ?c then _ else _] => destruct c end;
            repeat split.
        - match type of Hm with context [findNearestPlayer ?a ?b] =>
            destruct (findNearestPlayer a b) as [nearest|]
          end.
          + match type of Hm with context [if ?c >? 0 then _ else _] =>
              destruct (c >? 0)
            end;
              inversion Hm; unfold updateGameObject; cbv zeta;
              match goal with |- context [if ?c then _ else _] => destruct c end;
              repeat split.
          + inversion Hm. unfold updateGameObject. cbv zeta.
            match goal with |- context [if ?c then _ else _] => destruct c end;
              repeat split. }
      destruct (handleEnemyShooting_spec e1 gs ds w1) as (Hobj & _ & _).
      destruct H1 as (Hi & Hh & Hm').
      change (id (fst (fst (handleEnemyShooting e1 gs ds w1))))
        with (id (enemy_obj (fst (fst (handleEnemyShooting e1 gs ds w1))))).
      change (health (fst (fst (handleEnemyShooting e1 gs ds w1))))
        with (health (enemy_obj (fst (fst (handleEnemyShooting e1 gs ds w1))))).
      change (maxHealth (fst (fst (handleEnemyShooting e1 gs ds w1))))
        with (maxHealth (enemy_obj (fst (fst (handleEnemyShooting e1 gs ds w1))))).
      rewrite Hobj. repeat split; assumption. }
    specialize (Hid _ eq_refl).
    destruct (updateEnemyBehavior (mutate (fun o => updateGameObject o ds) e) gs ds w)
      as [[e2 gs2] w2].
    cbn [fst snd] in Hb, Hs, Hid. destruct Hb as (Hp & Hr & Hsz & Ha & _).
    destruct Hid as (Hi & Hh & Hmx).
    destruct Hs as (shots & Hws & Hlen & Hall).
    destruct (updateGameObject_spec e ds) as (_ & _ & _ & Hsz0 & Hact0 & _).
    assert (Ha2 : isActive e2 = true).
    { rewrite Ha. unfold mutate. cbn [obj withObj Enemy_Entity enemy_obj].
      rewrite Hact0. exact Hact. }
    assert (Hsz2 : size e2 = size e).
    { rewrite Hsz. unfold mutate. cbn [obj withObj Enemy_Entity enemy_obj].
      exact Hsz0. }
    destruct (isOnScreen cfg e2) eqn:Hon; cbn [negb fst snd ret].
    + split.
      * split; [discriminate|]. split; [intros _; rewrite Ha2, Hon; tauto|].
        repeat split; assumption.
      * exists shots. split; [exact Hws|]. split; [exact Hlen|].
        eapply Forall_impl; [|exact Hall]. intros b [Hb Ho].
        split; [exact Hb|]. rewrite Ho.
        exact (proj1 (updateGameObject_kept e ds)).
    + split.
      * split; [discriminate|]. split.
        { intros _.
          change (isOnScreen cfg (withObj e2 (set_isActive e2 false)))
            with (isOnScreen cfg e2).
          rewrite Hon. cbn. split; discriminate. }
        cbn [withObj Enemy_Entity enemy_obj set_isActive id size health maxHealth].
        repeat split; assumption.
      * exists shots. split; [exact Hws|]. split; [exact Hlen|].
        eapply Forall_impl; [|exact Hall]. intros b [Hb Ho].
        split; [exact Hb|]. rewrite Ho.
        exact (proj1 (updateGameObject_kept e ds)).
  - cbn [ret fst snd]. split.
    + split; [reflexivity|]. split; [intros H; discriminate|]. repeat split.
    + exists []. split; [apply with_shots_none|]. split; [cbn; lia|constructor].
Qed.

Lemma fired_by_more (es es' : list Enemy) (b : Bullet) :
  incl es es' -> fired_by es b -> fired_by es' b.
Proof.
  intros Hincl (H1 & H2 & H3 & H4 & H5 & e & Hin & Ha & Ho).
  repeat (split; [assumption|]). exists e. split; [apply Hincl, Hin|]. split; assumption.
Qed.

Lemma forEachEnemy_frame (ds : number) (es : list Enemy) :
  forall (gs : GameState) (w : World),
    let r := fst (forEachEnemy cfg ds es gs w) in
    Forall2 (enemy_stepped cfg) es (fst r) /\
    exists shots,
      with_shots gs shots (snd r) /\
      (List.length shots
       <= List.length (filter (fun e : Enemy => isActive e) es))%nat /\
      Forall (fun b => enemy_shot b /\ fired_by es b) shots.
Proof.
  induction es as [|e es IH]; intros gs w r; subst r.
  - cbn. split; [constructor|].
    exists []. split; [apply with_shots_none|]. split; [cbn; lia|constructor].
  - cbn [forEachEnemy]. unfold bind.
    pose proof (updateEnemy_frame ds e gs w) as He. cbv zeta in He.
    pose proof (updateEnemy_kind ds e gs w) as Hk. cbv zeta in Hk.
    destruct (updateEnemy cfg ds e gs w) as [[e' gs1] w1].
    pose proof (IH gs1 w1) as Hrest. cbv zeta in Hrest.
    destruct (forEachEnemy cfg ds es gs1 w1) as [[es' gs2] w2].
    cbn [fst snd ret] in *.
    destruct He as (He & s1 & Hw1 & Hl1 & Hs1).
    destruct Hk as (K1 & K2 & K3 & K4 & K5).
    destruct Hrest as (Hes & s2 & Hw2 & Hl2 & Hs2).
    split.
    { constructor; [|exact Hes].
      split; [exact He|]. repeat (split; [assumption|]). exact K5. }
    exists (s1 ++ s2). split; [eapply with_shots_then; eassumption|].
    split.
    + rewrite length_app. cbn [filter].
      destruct (isActive e); cbn [List.length]; lia.
    + apply Forall_app. split.
      * destruct (isActive e) eqn:Hact.
        -- eapply Forall_impl; [|exact Hs1]. intros b [Hb Ho].
           split; [exact Hb|].
           destruct Hb as (B1 & B2 & B3 & B4 & _ & B6).
           repeat (split; [assumption|]).
           exists e. split; [left; reflexivity|]. split; [exact Hact | exact Ho].
        -- destruct s1; [constructor | cbn in Hl1; lia].
      * eapply Forall_impl; [|exact Hs2]. intros b [Hb Hf].
        split; [exact Hb|].
        apply (fired_by_more es); [|exact Hf].
        intros x Hx. right. exact Hx.
Qed.

Lemma updateBullet_frame (ds : number) (b : Bullet) :
  culled_off_screen cfg b (updateBullet cfg ds b).
Proof.
  unfold updateBullet, culled_off_screen.
  destruct (isActive b) eqn:Hact.
  - destruct (updateGameObject_spec b ds) as (_ & _ & _ & Hsz & Ha & _).
    assert (Hrest : id (updateGameObject b ds) = id b /\
                    health (updateGameObject b ds) = health b /\
                    maxHealth (updateGameObject b ds) = maxHealth b).
    { unfold updateGameObject. cbv zeta.
      match goal with |- context [if ?c then _ else _] => destruct c end;
        repeat split. }
    destruct Hrest as (Hi & Hh & Hm).
    unfold mutate. cbn [obj withObj Bullet_Entity bullet_obj].
    destruct (isOnScreen cfg (updateGameObject b ds)) eqn:Hon; cbn [negb].
    + cbn [bullet_obj]. split; [discriminate|].
      split; [intros _; rewrite Ha, Hact, Hon; tauto|]. repeat split; assumption.
    + cbn [withObj Bullet_Entity bullet_obj].
      split; [discriminate|]. split.
      { intros _.
        change (isOnScreen cfg (set_isActive (updateGameObject b ds) false))
          with (isOnScreen cfg (updateGameObject b ds)).
        rewrite Hon. cbn. split; discriminate. }
      cbn [set_isActive id size health maxHealth]. repeat split; assumption.
  - split; [reflexivity|]. split; [intros H; discriminate|]. repeat split.
Qed.

Lemma updatePowerUp_frame (ds : number) (u : PowerUp) (w : World) :
  culled_off_screen cfg u (fst (updatePowerUp cfg ds u w)).
Proof.
  unfold updatePowerUp, culled_off_screen.
  destruct (isActive u) eqn:Hact.
  - destruct (updateGameObject_spec u ds) as (_ & _ & _ & Hsz & Ha & _).
    assert (Hrest : id (updateGameObject u ds) = id u /\
                    health (updateGameObject u ds) = health u /\
                    maxHealth (updateGameObject u ds) = maxHealth u).
    { unfold updateGameObject. cbv zeta.
      match goal with |- context [if ?c then _ else _] => destruct c end;
        repeat split. }
    destruct Hrest as (Hi & Hh & Hm).
    unfold bind, Date_now. cbv beta iota zeta.
    unfold mutate. cbn [obj withObj PowerUp_Entity powerUp_obj].
    match goal with |- context [negb (isOnScreen cfg ?o)] =>
      destruct (isOnScreen cfg o) eqn:Hon
    end; cbn [negb ret fst].
    + cbn [powerUp_obj set_position isActive id size health maxHealth] in *.
      split; [discriminate|].
      split; [intros _; rewrite Hon, Ha, Hact; tauto|]. repeat split; assumption.
    + cbn [withObj PowerUp_Entity powerUp_obj].
      split; [discriminate|]. split.
      { intros _.
        match goal with |- context [isOnScreen cfg (set_isActive ?o false)] =>
          change (isOnScreen cfg (set_isActive o false)) with (isOnScreen cfg o)
        end.
        cbn [powerUp_obj] in Hon. rewrite Hon. cbn. split; discriminate. }
      cbn [set_isActive set_position id size health maxHealth]. repeat split; assumption.
  - cbn [ret fst]. split; [reflexivity|]. split; [intros H; discriminate|]. repeat split.
Qed.

Lemma updatePlayer_stepped (ds : number) (p : Player) :
  player_stepped p (updatePlayer cfg ds p).
Proof.
  unfold player_stepped, updatePlayer.
  destruct (isActive p) eqn:Hact.
  - destruct (updateGameObject_kept p ds) as (Hi & Hh & Hm & _ & Hs & Ha).
    unfold mutate. cbn [obj withObj Player_Entity player_obj].
    unfold constrainToScreen. cbv zeta.
    repeat match goal with |- context [if ?c then _ else _] => destruct c end;
      cbn [set_velocity set_position id size health maxHealth isActive
           position velocity];
      (split; [reflexivity|]); rewrite Hi, Hs, Hh, Hm, Ha, Hact;
      repeat split; intros H; discriminate.
  - split; [destruct p; reflexivity|].
    repeat (split; [first [reflexivity | exact Hact]|]). intros _. reflexivity.
Qed.

Lemma updateBullet_stepped (ds : number) (b : Bullet) :
  bullet_stepped cfg b (updateBullet cfg ds b).
Proof.
  unfold bullet_stepped. split; [apply updateBullet_frame|].
  unfold updateBullet.
  destruct (isActive b) eqn:Hact.
  - destruct (updateGameObject_kept b ds) as (_ & _ & _ & Hv & _).
    unfold mutate. cbn [obj withObj Bullet_Entity bullet_obj].
    destruct (negb (isOnScreen cfg (updateGameObject b ds)));
      cbn [withObj Bullet_Entity bullet_obj set_isActive velocity];
      (split; [reflexivity|]); (split; [exact Hv|]); intros H; discriminate.
  - split; [destruct b; reflexivity|]. split; reflexivity.
Qed.

Lemma updatePowerUp_stepped (ds : number) (u : PowerUp) (w : World) :
  powerUp_stepped cfg u (fst (updatePowerUp cfg ds u w)).
Proof.
  unfold powerUp_stepped. split; [apply updatePowerUp_frame|].
  unfold updatePowerUp.
  destruct (isActive u) eqn:Hact.
  - destruct (updateGameObject_kept u ds) as (_ & _ & _ & Hv & _).
    unfold bind, Date_now. cbv beta iota zeta.
    unfold mutate. cbn [obj withObj PowerUp_Entity powerUp_obj].
    match goal with |- context [negb (isOnScreen cfg ?o)] =>
      destruct (negb (isOnScreen cfg o))
    end;
      cbn [ret fst withObj PowerUp_Entity powerUp_obj set_isActive set_position
           velocity];
      (split; [reflexivity|]); (split; [exact Hv|]); intros H; discriminate.
  - cbn [ret fst]. split; [destruct u; reflexivity|]. split; reflexivity.
Qed.

Lemma forEachPowerUp_stepped (ds : number) (us : list PowerUp) :
  forall w : World,
    Forall2 (powerUp_stepped cfg) us (fst (forEachPowerUp cfg ds us w)).
Proof.
  induction us as [|u us IH]; intros w.
  - constructor.
  - cbn [forEachPowerUp]. unfold bind.
    pose proof (updatePowerUp_stepped ds u w) as Hu.
    destruct (updatePowerUp cfg ds u w) as [u' w1].
    specialize (IH w1).
    destruct (forEachPowerUp cfg ds us w1) as [us' w2].
    cbn [fst ret] in *. constructor; assumption.
Qed.

(** One frame of the physics engine, collection by collection. *)
Lemma physics_frame (gs : GameState) (dt : number) (w : World) :
  let gs' := run (update cfg gs dt) w in
  Forall2 player_stepped (players gs) (players gs') /\
  Forall2 (enemy_stepped cfg) (enemies gs) (enemies gs') /\
  (exists shots,
     (List.length shots
      <= List.length (filter (fun e : Enemy => isActive e) (enemies gs)))%nat /\
     Forall (fun b => enemy_shot b /\ fired_by (enemies gs) b) shots /\
     Forall2 (bullet_stepped cfg) (bullets gs ++ shots) (bullets gs')) /\
  Forall2 (powerUp_stepped cfg) (powerUps gs) (powerUps gs') /\
  explosions gs' = explosions gs /\ score gs' = score gs /\ same_settings gs gs'.
Proof.
  intros gs'. subst gs'. unfold update, run, bind.
  set (ds := dt / 1000).
  set (gs1 := set_players gs (map (updatePlayer cfg ds) (players gs))).
  pose proof (forEachEnemy_frame ds (enemies gs1) gs1 w) as He. cbv zeta in He.
  destruct (forEachEnemy cfg ds (enemies gs1) gs1 w) as [[es' gs2] w1].
  cbn [fst snd] in He. destruct He as (Hes & shots & Hws & Hlen & Hshots).
  match goal with
  | |- context [forEachPowerUp cfg ds ?us w1] =>
      pose proof (forEachPowerUp_stepped ds us w1) as Hus;
      destruct (forEachPowerUp cfg ds us w1) as [us' w2]
  end.
  unfold with_shots in Hws. subst gs2. subst gs1.
  cbn [fst snd ret players enemies bullets powerUps explosions score
       set_players set_enemies set_bullets set_powerUps] in *.
  split.
  { clear. induction (players gs) as [|p l IH]; cbn [map]; constructor.
    - apply updatePlayer_stepped.
    - exact IH. }
  split; [exact Hes|].
  split.
  { exists shots. split; [exact Hlen|]. split; [exact Hshots|].
    clear. induction (bullets gs ++ shots) as [|b l IH]; cbn [map]; constructor.
    - apply updateBullet_stepped.
    - exact IH. }
  split; [exact Hus|].
  split; [reflexivity|]. split; [reflexivity|]. repeat split.
Qed.


Lemma stepped_shot (es : list Enemy) (b b' : Bullet) :
  bullet_stepped cfg b b' -> fired_by es b -> fired_by es b'.
Proof.
  intros ((_ & _ & _ & Hsz & _) & Hb' & Hv & _) (H1 & H2 & H3 & H4 & H5 & Hown).
  rewrite Hb'. cbn [withObj Bullet_Entity bulletType bullet_damage isPlayerBullet ownerId].
  split; [exact H1|]. split; [exact H2|].
  split; [rewrite <- H3; exact Hv|]. split; [rewrite <- H4; exact Hsz|].
  split; [exact H5 | exact Hown].
Qed.

Lemma Forall2_image {A} (R : A -> A -> Prop) (P Q : A -> Prop) (l l' : list A) :
  (forall a a', R a a' -> P a -> Q a') ->
  Forall2 R l l' -> Forall P l -> Forall Q l'.
Proof.
  intros HR H. induction H as [|a a' l l' Ha _ IH]; intros HP.
  - constructor.
  - inversion HP; subst. constructor; [eapply HR; eassumption | auto].
Qed.

(** In one frame the enemies fire at most one shot each, and only the
    active ones fire.  The bullets after the frame are the bullets before
    it, each moved and culled but otherwise as it was, followed by the
    shots of the frame: each an enemy bullet of damage 10 moving down at
    150 px/s, 6 x 12 in size, owned by an active enemy of the state.  The
    frame adds nothing else to the state, and leaves the score, the
    explosions and every setting of the state as they were. *)
Theorem enemy_fire_is_bounded (gs : GameState) (dt : number) (w : World) :
  let gs' := run (update cfg gs dt) w in
  (exists kept fired,
     bullets gs' = kept ++ fired /\
     Forall2 (bullet_stepped cfg) (bullets gs) kept /\
     Forall (fired_by (enemies gs)) fired /\
     (List.length fired
      <= List.length (filter (fun e : Enemy => isActive e) (enemies gs)))%nat) /\
  List.length (players gs') = List.length (players gs) /\
  List.length (enemies gs') = List.length (enemies gs) /\
  List.length (powerUps gs') = List.length (powerUps gs) /\
  explosions gs' = explosions gs /\ score gs' = score gs /\ same_settings gs gs'.
Proof.
  cbv zeta.
  destruct (physics_frame gs dt w)
    as (Hp & He & (shots & Hlen & Hshots & Hb) & Hu & Hx & Hs & Hset).
  split.
  { apply Forall2_app_inv_l in Hb. destruct Hb as (kept & fired & Hk & Hf & Heq).
    exists kept, fired. split; [exact Heq|]. split; [exact Hk|]. split.
    - apply (Forall2_image (bullet_stepped cfg)
               (fun b => enemy_shot b /\ fired_by (enemies gs) b)
               (fired_by (enemies gs)) shots fired); [|exact Hf | exact Hshots].
      intros a a' Hstep [_ Hfired]. exact (stepped_shot _ a a' Hstep Hfired).
    - apply Forall2_length in Hf. rewrite <- Hf. exact Hlen. }
  split; [symmetry; exact (Forall2_length Hp)|].
  split; [symmetry; exact (Forall2_length He)|].
  split; [symmetry; exact (Forall2_length Hu)|].
  split; [exact Hx|]. split; [exact Hs | exact Hset].
Qed.
End PhysicsFrame.


(** The enemies do fire: an enemy whose timer ran out fires in the frame. *)
Example enemy_fire_happens :
  let gs' := run (PhysicsEngine.update (math := flat_math) sample_config
                    skirmish_state 16) sample_world in
  List.length (bullets skirmish_state) = 0%nat /\
  map (fun b : Bullet => (bulletType b, bullet_damage b, isActive b)) (bullets gs')
  = [(ENEMY_BASIC, 10, true)].
Proof. split; vm_compute; reflexivity. Qed.

(** ** The nearest player *)

Section Nearest.
Context {math : MathLib}.
Import PhysicsEngine.


Lemma findNearestPlayer_loop (e : Enemy) (ps : list Player) :
  forall (seen : list Player) (acc : option Player * option number),
    search_state e seen acc ->
    search_state e (seen ++ ps)
      (fold_left
         (fun (acc : option Player * option number) (player : Player) =>
            if isActive player then
              let dx := pos_x (position player) - pos_x (position e) in
              let dy := pos_y (position player) - pos_y (position e) in
              let distance := Math_sqrt (dx * dx + dy * dy) in
              match snd acc with
              | None => (Some player, Some distance)
              | Some nearestDistance =>
                  if distance <? nearestDistance
                  then (Some player, Some distance) else acc
              end
            else acc)
         ps acc).
Proof.
  induction ps as [|q ps IH]; intros seen acc Hacc.
  - rewrite app_nil_r. exact Hacc.
  - cbn [fold_left].
    replace (seen ++ q :: ps) with ((seen ++ [q]) ++ ps)
      by (rewrite <- app_assoc; reflexivity).
    apply IH.
    destruct (isActive q) eqn:Hq.
    + destruct acc as [[p|] [d|]]; cbn [snd search_state] in *; try contradiction.
      * destruct Hacc as (Hd & Hin & Hact & Hmin).
        change (Math_sqrt
                  ((pos_x (position q) - pos_x (position e)) *
                   (pos_x (position q) - pos_x (position e)) +
                   (pos_y (position q) - pos_y (position e)) *
                   (pos_y (position q) - pos_y (position e))))
          with (distance_to e (position q)).
        destruct (distance_to e (position q) <? d) eqn:E; reflect_cmp;
          cbn [search_state].
        -- split; [reflexivity|]. split; [apply in_or_app; right; left; reflexivity|].
           split; [exact Hq|].
           intros r Hr Hra. apply in_app_or in Hr. destruct Hr as [Hr|[<-|[]]].
           ++ specialize (Hmin r Hr Hra). rewrite <- Hd in Hmin. lra.
           ++ apply Qle_refl.
        -- split; [exact Hd|]. split; [apply in_or_app; left; exact Hin|].
           split; [exact Hact|].
           intros r Hr Hra. apply in_app_or in Hr. destruct Hr as [Hr|[<-|[]]].
           ++ apply Hmin; assumption.
           ++ rewrite <- Hd. exact E.
      * split; [reflexivity|]. split; [apply in_or_app; right; left; reflexivity|].
        split; [exact Hq|].
        intros r Hr Hra. apply in_app_or in Hr. destruct Hr as [Hr|[<-|[]]].
        -- rewrite Forall_forall in Hacc. rewrite (Hacc r Hr) in Hra. discriminate.
        -- apply Qle_refl.
    + destruct acc as [[p|] [d|]]; cbn [search_state] in *; try contradiction.
      * destruct Hacc as (Hd & Hin & Hact & Hmin).
        split; [exact Hd|]. split; [apply in_or_app; left; exact Hin|].
        split; [exact Hact|].
        intros r Hr Hra. apply in_app_or in Hr. destruct Hr as [Hr|[<-|[]]].
        -- apply Hmin; assumption.
        -- congruence.
      * apply Forall_app. split; [exact Hacc|]. constructor; [exact Hq|constructor].
Qed.

(** [findNearestPlayer] finds no player exactly when no player of the list
    is active; the player it finds is an active player of the list, and by
    the host's distances no active player of the list is nearer to the
    enemy. *)
Theorem findNearestPlayer_is_nearest (e : Enemy) (ps : list Player) :
  (findNearestPlayer e ps = None <->
   Forall (fun q : Player => isActive q = false) ps) /\
  (forall p, findNearestPlayer e ps = Some p -> nearest_active e ps p).
Proof.
  pose proof (findNearestPlayer_loop e ps [] (None, None)) as H.
  cbn [app] in H. specialize (H (Forall_nil _)).
  unfold findNearestPlayer.
  match type of H with search_state _ _ ?r => destruct r as [[p|] [d|]] end;
    cbn [search_state fst] in *; try contradiction.
  - destruct H as (_ & Hin & Hact & Hmin). split.
    + split; [discriminate|]. intros Hoff.
      rewrite Forall_forall in Hoff. rewrite (Hoff p Hin) in Hact. discriminate.
    + intros p' Hp. inversion Hp; subst. split; [exact Hin|]. split; assumption.
  - split; [split; [intros _; exact H|reflexivity]|]. intros p' Hp. discriminate.
Qed.
End Nearest.

(** On a host with an exact square root, the nearer of two players is
    found, whatever the order; an inactive one is passed over. *)
Example findNearestPlayer_picks_the_nearer :
  let e := basic_enemy_at (mkPosition 100 100) in
  let near := withObj local_player (set_position local_player (mkPosition 103 104)) in
  let far := withObj local_player (set_position local_player (mkPosition 106 108)) in
  let gone := withObj near (set_isActive near false) in
  PhysicsEngine.findNearestPlayer (math := root_math) e [far; near] = Some near /\
  PhysicsEngine.findNearestPlayer (math := root_math) e [near; far] = Some near /\
  PhysicsEngine.findNearestPlayer (math := root_math) e [gone; far] = Some far /\
  PhysicsEngine.findNearestPlayer (math := root_math) e [gone] = None.
Proof. repeat split. Qed.


(** ** The collision passes only mark *)

Section PassRelation.
Import CollisionDetection GameEngine.
Context {A B : Type} {EA : Entity A} {EB : Entity B}.
Variable guard : A -> bool.
Variable handle : A -> B -> GameState -> IO (A * B * GameState).
Variable RA : A -> A -> Prop.
Variable RB : B -> B -> Prop.
Variable RG : GameState -> GameState -> Prop.

Hypothesis RA_refl : forall a, RA a a.
Hypothesis RB_refl : forall b, RB b b.
Hypothesis RG_refl : forall g, RG g g.
Hypothesis RA_trans : forall a b c, RA a b -> RA b c -> RA a c.
Hypothesis RB_trans : forall a b c, RB a b -> RB b c -> RB a c.
Hypothesis RG_trans : forall a b c, RG a b -> RG b c -> RG a c.

Hypothesis handle_relates :
  forall a b gs w,
    checkCollision (obj a) (obj b) = true ->
    RA a (fst (fst (fst (handle a b gs w)))) /\
    RB b (snd (fst (fst (handle a b gs w)))) /\
    RG gs (snd (fst (handle a b gs w))).

Lemma Forall2_same {T} (R : T -> T -> Prop) (l : list T) :
  (forall x, R x x) -> Forall2 R l l.
Proof. intros Hr. induction l; constructor; auto. Qed.

Lemma Forall2_chain {T} (R : T -> T -> Prop) :
  (forall a b c, R a b -> R b c -> R a c) ->
  forall l1 l2 l3, Forall2 R l1 l2 -> Forall2 R l2 l3 -> Forall2 R l1 l3.
Proof.
  intros Ht l1 l2 l3 H12. revert l3.
  induction H12 as [|a b l1 l2 Hab _ IH]; intros l3 H23.
  - inversion H23. constructor.
  - inversion H23 as [|? c ? l3' Hbc Hrest]; subst.
    constructor; [eapply Ht; eassumption | apply IH; exact Hrest].
Qed.

Lemma inner_relates (bs : list B) :
  forall a gs w,
    RA a (fst (fst (fst (inner handle a bs gs w)))) /\
    Forall2 RB bs (snd (fst (fst (inner handle a bs gs w)))) /\
    RG gs (snd (fst (inner handle a bs gs w))).
Proof.
  induction bs as [|b bs IH]; intros a gs w.
  - cbn. split; [apply RA_refl|]. split; [constructor | apply RG_refl].
  - cbn [inner]. unfold bind.
    assert (Hstep : forall r,
               r = (if checkCollision (obj a) (obj b)
                    then handle a b gs else ret (a, b, gs)) w ->
               RA a (fst (fst (fst r))) /\ RB b (snd (fst (fst r))) /\
               RG gs (snd (fst r))).
    { intros r ->. destruct (checkCollision (obj a) (obj b)) eqn:Hc.
      - apply handle_relates; assumption.
      - cbn. auto. }
    specialize (Hstep _ eq_refl).
    destruct ((if checkCollision (obj a) (obj b)
               then handle a b gs else ret (a, b, gs)) w) as [[[a1 b1] gs1] w1].
    cbn [fst snd] in Hstep. destruct Hstep as (Ha1 & Hb1 & Hg1).
    specialize (IH a1 gs1 w1).
    destruct (inner handle a1 bs gs1 w1) as [[[a2 bs2] gs2] w2].
    cbn [fst snd ret] in *. destruct IH as (Ha2 & Hbs2 & Hg2).
    split; [eapply RA_trans; eassumption|].
    split; [constructor; assumption | eapply RG_trans; eassumption].
Qed.

Lemma outer_relates (l : list A) :
  forall bs gs w,
    Forall2 RA l (fst (fst (fst (outer guard handle l bs gs w)))) /\
    Forall2 RB bs (snd (fst (fst (outer guard handle l bs gs w)))) /\
    RG gs (snd (fst (outer guard handle l bs gs w))).
Proof.
  induction l as [|a l IH]; intros bs gs w.
  - cbn. split; [constructor|].
    split; [apply Forall2_same, RB_refl | apply RG_refl].
  - cbn [outer]. unfold bind.
    assert (Hstep : forall r,
               r = (if guard a then inner handle a bs gs else ret (a, bs, gs)) w ->
               RA a (fst (fst (fst r))) /\ Forall2 RB bs (snd (fst (fst r))) /\
               RG gs (snd (fst r))).
    { intros r ->. destruct (guard a).
      - apply inner_relates.
      - cbn. split; [apply RA_refl|].
        split; [apply Forall2_same, RB_refl | apply RG_refl]. }
    specialize (Hstep _ eq_refl).
    destruct ((if guard a then inner handle a bs gs else ret (a, bs, gs)) w)
      as [[[a1 bs1] gs1] w1].
    cbn [fst snd] in Hstep. destruct Hstep as (Ha1 & Hbs1 & Hg1).
    specialize (IH bs1 gs1 w1).
    destruct (outer guard handle l bs1 gs1 w1) as [[[l2 bs2] gs2] w2].
    cbn [fst snd ret] in *. destruct IH as (Hl2 & Hbs2 & Hg2).
    split; [constructor; assumption|].
    split; [eapply Forall2_chain; eassumption | eapply RG_trans; eassumption].
Qed.
End PassRelation.


Section Marks.
Import CollisionDetection GameEngine.

Lemma only_marked_refl (o : GameObject) : only_marked o o.
Proof. repeat split; trivial. Qed.

Lemma only_marked_trans (a b c : GameObject) :
  only_marked a b -> only_marked b c -> only_marked a c.
Proof.
  unfold only_marked.
  intros (H1 & H2 & H3 & H4 & H5 & H6 & H7) (K1 & K2 & K3 & K4 & K5 & K6 & K7).
  repeat split; try congruence. auto.
Qed.

Lemma only_hurt_refl (p : Player) : only_hurt p p.
Proof. split; [apply only_marked_refl|]. repeat split. Qed.

Lemma only_hurt_trans (a b c : Player) :
  only_hurt a b -> only_hurt b c -> only_hurt a c.
Proof.
  intros (H0 & H1 & H2 & H3 & H4 & H5) (K0 & K1 & K2 & K3 & K4 & K5).
  split; [eapply only_marked_trans; eassumption|]. repeat split; congruence.
Qed.

Lemma same_settings_refl (gs : GameState) : same_settings gs gs.
Proof. repeat split. Qed.

Lemma same_settings_trans (a b c : GameState) :
  same_settings a b -> same_settings b c -> same_settings a c.
Proof.
  unfold same_settings.
  intros (H1 & H2 & H3 & H4 & H5 & H6 & H7 & H8 & H9 & H10)
         (K1 & K2 & K3 & K4 & K5 & K6 & K7 & K8 & K9 & K10).
  repeat split; congruence.
Qed.

Lemma only_explosions_added_refl (gs : GameState) : only_explosions_added gs gs.
Proof.
  split; [exists []; now rewrite app_nil_r | apply same_settings_refl].
Qed.

Lemma only_explosions_added_trans (a b c : GameState) :
  only_explosions_added a b -> only_explosions_added b c ->
  only_explosions_added a c.
Proof.
  intros [(x1 & H1) S1] [(x2 & H2) S2].
  split; [|eapply same_settings_trans; eassumption].
  exists (x1 ++ x2). rewrite H2, H1, app_assoc. reflexivity.
Qed.

Lemma loseLifeIfDepleted_hurt (p : Player) : only_hurt p (loseLifeIfDepleted p).
Proof.
  unfold loseLifeIfDepleted.
  destruct (health p <=? 0); [|apply only_hurt_refl].
  cbn. destruct (lives p - 1 <=? 0); cbn; repeat split; trivial; discriminate.
Qed.

Lemma damaged_hurt (p : Player) (dmg : number) :
  only_hurt p (loseLifeIfDepleted (withObj p (set_health p (health p - dmg)))).
Proof.
  eapply only_hurt_trans; [|apply loseLifeIfDepleted_hurt].
  repeat split; trivial.
Qed.

Lemma handled_refl (gs : GameState) : handled gs gs.
Proof.
  split; [reflexivity|]. split; [reflexivity|]. split; [reflexivity|].
  split; [reflexivity|]. apply only_explosions_added_refl.
Qed.

Lemma handled_trans (a b c : GameState) : handled a b -> handled b c -> handled a c.
Proof.
  intros (H1 & H2 & H3 & H4 & H5) (K1 & K2 & K3 & K4 & K5).
  split; [congruence|]. split; [congruence|]. split; [congruence|].
  split; [congruence|]. eapply only_explosions_added_trans; eassumption.
Qed.

Lemma createExplosion_handled (gs : GameState) (pos : Position) (sz : number)
      (w : World) :
  handled gs (fst (createExplosion gs pos sz w)).
Proof.
  split; [reflexivity|]. split; [reflexivity|]. split; [reflexivity|].
  split; [reflexivity|]. split; [eexists; reflexivity | repeat split].
Qed.

Lemma set_score_handled (gs : GameState) (s : number) : handled gs (set_score gs s).
Proof.
  split; [reflexivity|]. split; [reflexivity|]. split; [reflexivity|].
  split; [reflexivity|].
  split; [exists []; cbn; now rewrite app_nil_r | repeat split].
Qed.

Lemma handlePlayerEnemyCollision_marks (p : Player) (e : Enemy) (gs : GameState)
      (w : World) :
  let r := fst (handlePlayerEnemyCollision p e gs w) in
  only_hurt p (fst (fst r)) /\ only_marked e (snd (fst r)) /\
  handled gs (snd r).
Proof.
  cbv zeta. split; [apply damaged_hurt|].
  split; [repeat split; trivial; discriminate|].
  apply createExplosion_handled.
Qed.

Lemma handleBulletEnemyCollision_marks (b : Bullet) (e : Enemy) (gs : GameState)
      (w : World) :
  let r := fst (handleBulletEnemyCollision b e gs w) in
  only_marked b (fst (fst r)) /\ only_marked e (snd (fst r)) /\
  handled gs (snd r).
Proof.
  cbv zeta. unfold handleBulletEnemyCollision.
  match goal with |- context [if ?c then _ else _] => destruct c end.
  - split; [repeat split; trivial; discriminate|].
    split; [repeat split; trivial; discriminate|].
    eapply handled_trans; [apply set_score_handled | apply createExplosion_handled].
  - split; [repeat split; trivial; discriminate|].
    split; [repeat split; trivial|]. apply handled_refl.
Qed.

Lemma handleBulletPlayerCollision_marks (b : Bullet) (p : Player) (gs : GameState)
      (w : World) :
  let r := fst (handleBulletPlayerCollision b p gs w) in
  only_marked b (fst (fst r)) /\ only_hurt p (snd (fst r)) /\
  handled gs (snd r).
Proof.
  cbv zeta. split; [repeat split; trivial; discriminate|].
  split; [apply damaged_hurt | apply handled_refl].
Qed.

Lemma handlePlayerPowerUpCollision_marks (p : Player) (u : PowerUp) (gs : GameState)
      (w : World) :
  let r := fst (handlePlayerPowerUpCollision p u gs w) in
  only_hurt p (fst (fst r)) /\ only_marked u (snd (fst r)) /\
  handled gs (snd r).
Proof.
  cbv zeta. split; [|split; [repeat split; trivial; discriminate
                            |apply handled_refl]].
  unfold handlePlayerPowerUpCollision, applyPowerUp, bind, ret, playSound.
  cbn [fst snd powerUpType withObj PowerUp_Entity].
  destruct (powerUpType u); repeat split; trivial.
Qed.

(** The four collision passes, collection by collection. *)
Lemma handleCollisions_marks (gs : GameState) (w : World) :
  let gs' := run (handleCollisions gs) w in
  Forall2 only_hurt (players gs) (players gs') /\
  Forall2 (fun e e' : Enemy => only_marked e e') (enemies gs) (enemies gs') /\
  Forall2 (fun b b' : Bullet => only_marked b b') (bullets gs) (bullets gs') /\
  Forall2 (fun u u' : PowerUp => only_marked u u') (powerUps gs) (powerUps gs') /\
  only_explosions_added gs gs'.
Proof.
  intros gs'. subst gs'. unfold handleCollisions, run, bind.
  (* pass 1 *)
  pose proof (outer_relates (fun _ : Player => true) handlePlayerEnemyCollision
                only_hurt (fun e e' : Enemy => only_marked e e') handled
                only_hurt_refl (fun e => only_marked_refl e) handled_refl
                only_hurt_trans (fun a b c => only_marked_trans a b c)
                handled_trans
                (fun a b g w0 _ => handlePlayerEnemyCollision_marks a b g w0)
                (players gs) (enemies gs) gs w) as H1.
  destruct (outer (fun _ : Player => true) handlePlayerEnemyCollision
              (players gs) (enemies gs) gs w) as [[[ps1 es1] gs1] w1].
  cbn [fst snd] in H1. destruct H1 as (Hp1 & He1 & Hg1).
  (* pass 2 *)
  set (g1 := set_enemies (set_players gs1 ps1) es1).
  pose proof (outer_relates
                (fun b : Bullet => startsWith (bulletTypeValue (bulletType b)) "player")
                handleBulletEnemyCollision
                (fun b b' : Bullet => only_marked b b')
                (fun e e' : Enemy => only_marked e e') handled
                (fun b => only_marked_refl b) (fun e => only_marked_refl e)
                handled_refl
                (fun a b c => only_marked_trans a b c)
                (fun a b c => only_marked_trans a b c)
                handled_trans
                (fun a b g w0 _ => handleBulletEnemyCollision_marks a b g w0)
                (bullets g1) (enemies g1) g1 w1) as H2.
  destruct (outer _ handleBulletEnemyCollision (bullets g1) (enemies g1) g1 w1)
    as [[[bs2 es2] gs2] w2].
  cbn [fst snd] in H2. destruct H2 as (Hb2 & He2 & Hg2).
  (* pass 3 *)
  set (g2 := set_enemies (set_bullets gs2 bs2) es2).
  pose proof (outer_relates
                (fun b : Bullet => startsWith (bulletTypeValue (bulletType b)) "enemy")
                handleBulletPlayerCollision
                (fun b b' : Bullet => only_marked b b') only_hurt handled
                (fun b => only_marked_refl b) only_hurt_refl handled_refl
                (fun a b c => only_marked_trans a b c) only_hurt_trans
                handled_trans
                (fun a b g w0 _ => handleBulletPlayerCollision_marks a b g w0)
                (bullets g2) (players g2) g2 w2) as H3.
  destruct (outer _ handleBulletPlayerCollision (bullets g2) (players g2) g2 w2)
    as [[[bs3 ps3] gs3] w3].
  cbn [fst snd] in H3. destruct H3 as (Hb3 & Hp3 & Hg3).
  (* pass 4 *)
  set (g3 := set_players (set_bullets gs3 bs3) ps3).
  pose proof (outer_relates (fun _ : Player => true) handlePlayerPowerUpCollision
                only_hurt (fun u u' : PowerUp => only_marked u u') handled
                only_hurt_refl (fun u => only_marked_refl u) handled_refl
                only_hurt_trans (fun a b c => only_marked_trans a b c)
                handled_trans
                (fun a b g w0 _ => handlePlayerPowerUpCollision_marks a b g w0)
                (players g3) (powerUps g3) g3 w3) as H4.
  destruct (outer _ handlePlayerPowerUpCollision (players g3) (powerUps g3) g3 w3)
    as [[[ps4 us4] gs4] w4].
  cbn [fst snd] in H4. destruct H4 as (Hp4 & Hu4 & Hg4).
  destruct Hg1 as (P1 & E1 & B1 & U1 & X1).
  destruct Hg2 as (P2 & E2 & B2 & U2 & X2).
  destruct Hg3 as (P3 & E3 & B3 & U3 & X3).
  destruct Hg4 as (P4 & E4 & B4 & U4 & X4).
  subst g1 g2 g3.
  cbn [fst snd ret players enemies bullets powerUps
       set_players set_enemies set_bullets set_powerUps] in *.
  rewrite B1 in Hb2. rewrite P2 in Hp3. rewrite U3, U2, U1 in Hu4.
  split.
  { eapply Forall2_chain; [exact only_hurt_trans| |exact Hp4].
    eapply Forall2_chain; [exact only_hurt_trans|exact Hp1|exact Hp3]. }
  split.
  { rewrite E4, E3.
    eapply Forall2_chain;
      [exact (fun a b c => only_marked_trans a b c)|exact He1|exact He2]. }
  split.
  { rewrite B4.
    eapply Forall2_chain;
      [exact (fun a b c => only_marked_trans a b c)|exact Hb2|exact Hb3]. }
  split; [exact Hu4|].
  assert (Hset : forall a b, only_explosions_added gs a ->
                   explosions b = explosions a -> same_settings a b ->
                   forall c, only_explosions_added b c -> only_explosions_added gs c).
  { intros a b Ha Hx Hs c Hbc.
    eapply only_explosions_added_trans; [exact Ha|].
    eapply only_explosions_added_trans; [|exact Hbc].
    split; [exists []; rewrite Hx, app_nil_r; reflexivity | exact Hs]. }
  assert (G2 : only_explosions_added gs gs2)
    by (apply (Hset gs1 (set_enemies (set_players gs1 ps1) es1));
        [exact X1|reflexivity|repeat split|exact X2]).
  assert (G3 : only_explosions_added gs gs3)
    by (apply (Hset gs2 (set_enemies (set_bullets gs2 bs2) es2));
        [exact G2|reflexivity|repeat split|exact X3]).
  assert (G4 : only_explosions_added gs gs4)
    by (apply (Hset gs3 (set_players (set_bullets gs3 bs3) ps3));
        [exact G3|reflexivity|repeat split|exact X4]).
  apply (Hset gs4 (set_powerUps (set_players gs4 ps4) us4));
    [exact G4|reflexivity|repeat split|apply only_explosions_added_refl].
Qed.

(** Collision resolution never adds, removes, reorders, moves or revives
    an entity: each player, enemy, bullet and power-up keeps its place in
    its collection, its identity, position, velocity, extents and
    [maxHealth], and is in play afterwards only if it was before.  Of the
    rest of the state only the explosions (appended) and the score
    change. *)
Theorem collisions_only_mark (gs : GameState) (w : World) :
  let gs' := run (handleCollisions gs) w in
  Forall2 only_hurt (players gs) (players gs') /\
  Forall2 (fun e e' : Enemy => only_marked e e') (enemies gs) (enemies gs') /\
  Forall2 (fun b b' : Bullet => only_marked b b') (bullets gs) (bullets gs') /\
  Forall2 (fun u u' : PowerUp => only_marked u u') (powerUps gs) (powerUps gs') /\
  only_explosions_added gs gs'.
Proof. exact (handleCollisions_marks gs w). Qed.
End Marks.


(** ** The frame of the game engine: time, statistics, game over *)

Section EngineFrame.
Context {math : MathLib}.
Import GameEngine.

(** A frame, stage by stage: [gs] is the state the collision passes leave,
    with the time of the frame added and every other setting as before. *)
Lemma update_frame (e : Engine) (w : World) :
  let now := clock w (clockReads w) in
  exists gs es ps w',
    update e w
    = (gameState (checkGameOverConditions
                    (mkEngine (updateExplosions (cleanupInactiveObjects gs)
                                                (now - lastUpdateTime e))
                              (config e) es ps now (gameLoopId e))),
       checkGameOverConditions
         (mkEngine (updateExplosions (cleanupInactiveObjects gs)
                                     (now - lastUpdateTime e))
                   (config e) es ps now (gameLoopId e)),
       w') /\
    same_statistics (gameState e) gs /\
    gameStatus gs = gameStatus (gameState e) /\
    timeElapsed gs = timeElapsed (gameState e) + (now - lastUpdateTime e).
Proof.
  cbv zeta. unfold update, bind. unfold Date_now at 1. cbv beta iota zeta.
  set (now := clock w (clockReads w)).
  set (dt := now - lastUpdateTime e).
  set (gs0 := set_timeElapsed (gameState e) (timeElapsed (gameState e) + dt)).
  match goal with |- context [PhysicsEngine.update (config e) gs0 dt ?w1] =>
    pose proof (physics_frame (config e) gs0 dt w1) as Hph;
    unfold run in Hph; cbv zeta in Hph;
    destruct (PhysicsEngine.update (config e) gs0 dt w1) as [gsP wP]
  end.
  cbn [fst] in Hph. destruct Hph as (_ & _ & _ & _ & _ & _ & HsetP).
  destruct (EnemySpawner.update (config e) (enemySpawner e) gsP dt wP)
    as [[newEnemies es] wE].
  match goal with |- context [PowerUpSpawner.update (config e) (powerUpSpawner e) ?g dt wE] =>
    set (gsE := g);
    destruct (PowerUpSpawner.update (config e) (powerUpSpawner e) gsE dt wE)
      as [[newPowerUps ps] wU]
  end.
  match goal with |- context [handleCollisions ?g wU] =>
    set (gsU := g);
    pose proof (handleCollisions_marks gsU wU) as Hc;
    unfold run in Hc; cbv zeta in Hc;
    destruct (handleCollisions gsU wU) as [gsC wC]
  end.
  cbn [fst] in Hc. destruct Hc as (_ & _ & _ & _ & _ & HsetC).
  exists gsC, es, ps, wC.
  split; [reflexivity|].
  unfold same_settings in HsetP, HsetC.
  destruct HsetP as (P1 & P2 & P3 & P4 & P5 & P6 & P7 & P8 & P9 & P10).
  destruct HsetC as (C1 & C2 & C3 & C4 & C5 & C6 & C7 & C8 & C9 & C10).
  subst gsU gsE gs0.
  cbn [level wave enemiesKilled powerUpsCollected accuracy gameStatus isPaused
       timeElapsed isMultiplayer roomId set_powerUps set_enemies set_timeElapsed] in *.
  unfold same_statistics.
  repeat split; congruence.
Qed.

Lemma no_active_players (ps : list Player) :
  Forall (fun p : Player => isActive p = true) ps ->
  Nat.eqb (List.length (filter (fun p : Player => isActive p) ps)) 0 = true
  <-> ps = [].
Proof.
  intros Hall. destruct ps as [|p ps]; [cbn; tauto|].
  inversion Hall as [|? ? Hp _]; subst.
  cbn [filter]. rewrite Hp. cbn. split; discriminate.
Qed.

(** A frame adds to [timeElapsed] the time the clock shows since the
    previous frame, and remembers the clock.  It never writes the level,
    the wave, the kill and pick-up counts, the accuracy or the pause and
    multiplayer switches of the state.  The game is over after the frame
    exactly when no player is left in it; otherwise the status and the
    handle of the game loop are as before. *)
Theorem update_keeps_time_and_statistics (e : Engine) (w : World) :
  let now := clock w (clockReads w) in
  let e' := snd (run (update e) w) in
  timeElapsed (gameState e')
  = timeElapsed (gameState e) + (now - lastUpdateTime e) /\
  lastUpdateTime e' = now /\ config e' = config e /\
  same_statistics (gameState e) (gameState e') /\
  (players (gameState e') = [] /\ gameStatus (gameState e') = GAME_OVER /\
   gameLoopId e' = None
   \/
   players (gameState e') <> [] /\
   gameStatus (gameState e') = gameStatus (gameState e) /\
   gameLoopId e' = gameLoopId e).
Proof.
  cbv zeta. unfold run.
  destruct (update_frame e w) as (gs & es & ps & w' & Heq & Hstat & Hstatus & Htime).
  rewrite Heq. cbn [fst snd].
  unfold checkGameOverConditions.
  cbn [gameState players updateExplosions set_explosions].
  pose proof (no_active_players (players (cleanupInactiveObjects gs))) as Hno.
  destruct (cleanupInactiveObjects_all_active gs) as (Hall & _).
  specialize (Hno Hall).
  destruct (Nat.eqb (List.length
              (filter (fun p : Player => isActive p)
                      (players (cleanupInactiveObjects gs)))) 0) eqn:E;
    cbn [stopGameLoop set_gameState gameState config lastUpdateTime gameLoopId
         set_gameStatus timeElapsed players];
    (split; [exact Htime|]); (split; [reflexivity|]); (split; [reflexivity|]);
    (split; [exact Hstat|]).
  - left. split; [apply Hno; reflexivity|]. split; reflexivity.
  - right. split; [intros Hnil; apply Hno in Hnil; discriminate|].
    split; [exact Hstatus | reflexivity].
Qed.
End EngineFrame.

(** A game started with nobody in it is over after its first frame. *)
Example deserted_game_is_over :
  let e' := snd (run (GameEngine.update (math := flat_math) deserted_engine)
                     sample_world) in
  gameStatus (GameEngine.gameState deserted_engine) = PLAYING /\
  gameStatus (GameEngine.gameState e') = GAME_OVER /\
  gameStatus (GameEngine.gameState
                (snd (run (GameEngine.update (math := flat_math) sample_engine)
                          sample_world))) = PLAYING.
Proof. repeat split. Qed.


(** ** Starting, pausing, resuming and stopping *)

Section Lifecycle.
Context {math : MathLib}.
Import GameEngine.

Lemma update_clock (e : Engine) (w : World) :
  timeElapsed (gameState (snd (fst (update e w))))
  = timeElapsed (gameState e) + (clock w (clockReads w) - lastUpdateTime e) /\
  fst (fst (update e w)) = gameState (snd (fst (update e w))).
Proof.
  destruct (update_frame e w) as (gs & es & ps & w' & Heq & _ & _ & Htime).
  rewrite Heq. cbn [fst snd]. split; [|reflexivity].
  unfold checkGameOverConditions.
  match goal with |- context [if ?c then _ else _] => destruct c end;
    cbn [stopGameLoop set_gameState gameState set_gameStatus timeElapsed
         updateExplosions set_explosions cleanupInactiveObjects
         set_players set_enemies set_bullets set_powerUps];
    exact Htime.
Qed.

(** A paused engine ignores the frame callback.  Resuming puts the game
    back in play with every entity, the score, the time played and the
    spawners as they were, and restarts the frame clock: the first frame
    after the pause adds to [timeElapsed] the time since the resume, not
    the time spent paused. *)
Theorem pause_stops_the_clock (e : Engine) (h h' : nat) (w w' : World) :
  let paused := pauseGame e in
  let resumed := run (resumeGame paused h) w in
  let frame := fst (gameLoop resumed h' w') in
  gameStatus (gameState paused) = PAUSED /\ isPaused (gameState paused) = true /\
  gameLoopId paused = None /\ same_game e paused /\
  (forall k v, gameLoop paused k v = (None, paused, v)) /\
  gameStatus (gameState resumed) = PLAYING /\
  isPaused (gameState resumed) = false /\
  gameLoopId resumed = Some h /\ same_game e resumed /\
  lastUpdateTime resumed = clock w (clockReads w) /\
  fst frame = Some (gameState (snd frame)) /\
  gameLoopId (snd frame) = Some h' /\
  timeElapsed (gameState (snd frame))
  = timeElapsed (gameState e)
    + (clock w' (clockReads w') - clock w (clockReads w)).
Proof.
  cbv zeta.
  split; [reflexivity|]. split; [reflexivity|]. split; [reflexivity|].
  split; [repeat split|]. split; [reflexivity|].
  split; [reflexivity|]. split; [reflexivity|]. split; [reflexivity|].
  split; [repeat split|]. split; [reflexivity|].
  set (resumed := run (resumeGame (pauseGame e) h) w).
  assert (Hplay : gameStatus_eqb (gameStatus (gameState resumed)) PLAYING
                  && negb (isPaused (gameState resumed)) = true) by reflexivity.
  unfold gameLoop. rewrite Hplay. unfold bind.
  destruct (update_clock resumed w') as [Htime Hsnap].
  destruct (update resumed w') as [[snapshot e1] w1].
  cbn [fst snd ret gameState gameLoopId] in *.
  split; [rewrite Hsnap; reflexivity|]. split; [reflexivity|].
  rewrite Htime. reflexivity.
Qed.

(** Stopping ends the game and the frame callback then does nothing; but
    [resumeGame] asks no question, and puts a stopped game back in play.
    Neither [startGame] nor [resumeGame] clears anything: a game started on
    an engine that has played goes on with the entities, score, time and
    waves of the game before. *)
Theorem stopped_game_can_be_resumed
  (e : Engine) (multi : option bool) (h : nat) (w : World) :
  let stopped := stopGame e in
  let revived := run (resumeGame stopped h) w in
  let started := run (startGame e multi h) w in
  gameStatus (gameState stopped) = GAME_OVER /\ gameLoopId stopped = None /\
  same_game e stopped /\
  (forall k v, gameLoop stopped k v = (None, stopped, v)) /\
  gameStatus (gameState revived) = PLAYING /\ isPaused (gameState revived) = false /\
  gameLoopId revived = Some h /\ same_game e revived /\
  gameStatus (gameState started) = PLAYING /\ isPaused (gameState started) = false /\
  isMultiplayer (gameState started)
  = match multi with Some b => b | None => false end /\
  gameLoopId started = Some h /\ lastUpdateTime started = clock w (clockReads w) /\
  same_game e started.
Proof.
  cbv zeta.
  split; [reflexivity|]. split; [reflexivity|]. split; [repeat split|].
  split; [reflexivity|]. split; [reflexivity|]. split; [reflexivity|].
  split; [reflexivity|]. split; [repeat split|].
  split; [reflexivity|]. split; [reflexivity|]. split; [reflexivity|].
  split; [reflexivity|]. split; [reflexivity|]. repeat split.
Qed.
End Lifecycle.

(** ** The roster and the shots ([GameEngine]) *)

Section Roster.
Import GameEngine.

Lemma set_players_same (gs : GameState) : set_players gs (players gs) = gs.
Proof. destruct gs; reflexivity. Qed.

Lemma filter_all {A} (f : A -> bool) (l : list A) :
  Forall (fun a => f a = true) l -> filter f l = l.
Proof.
  induction 1 as [|a l Ha _ IH]; cbn.
  - reflexivity.
  - rewrite Ha, IH. reflexivity.
Qed.

Lemma others_stay (pid : string) (l : list Player) :
  Forall (fun p => playerId p <> pid) l ->
  filter (fun p => negb (String.eqb (playerId p) pid)) l = l.
Proof.
  intros Hl. apply filter_all. eapply Forall_impl; [|exact Hl].
  intros p Hp. cbn. destruct (String.eqb_spec (playerId p) pid); [contradiction|reflexivity].
Qed.

Lemma removed_is_unknown (pid : string) (l : list Player) :
  Forall (fun p => playerId p <> pid)
         (filter (fun p => negb (String.eqb (playerId p) pid)) l).
Proof.
  apply Forall_forall. intros p Hp. apply filter_In in Hp. destruct Hp as [_ Hp].
  destruct (String.eqb_spec (playerId p) pid); [discriminate|assumption].
Qed.

Lemma updateFirst_split {A} (pred : A -> bool) (f : A -> A)
                        (before : list A) (a : A) (after : list A) :
  Forall (fun b => pred b = false) before -> pred a = true ->
  find pred (before ++ a :: after) = Some a /\
  updateFirst pred f (before ++ a :: after) = before ++ f a :: after.
Proof.
  intros Hb Ha. induction Hb as [|b before Hb _ IH]; cbn.
  - rewrite Ha. split; reflexivity.
  - rewrite Hb. destruct IH as [IH1 IH2]. rewrite IH1, IH2. split; reflexivity.
Qed.

(** [removePlayer] takes every player with the given [playerId] out of the
    game and keeps the others, in order.  Afterwards the id is unknown to
    the engine: moving or shooting for it does nothing, and removing it
    again changes nothing.  Removing an id nobody has leaves the engine as
    it was, so a player added under a new id and removed again is gone
    without a trace. *)
Theorem removePlayer_forgets_the_player (e : Engine) (pid : string) :
  let e' := removePlayer e pid in
  (forall p, In p (players (gameState e')) <->
             In p (players (gameState e)) /\ playerId p <> pid) /\
  (forall pos w, updatePlayerPosition e' pid pos = e' /\
                 playerShoot e' pid w = (e', w)) /\
  removePlayer e' pid = e' /\
  (Forall (fun p => playerId p <> pid) (players (gameState e)) -> e' = e) /\
  (forall p, playerId p = pid ->
             Forall (fun q => playerId q <> pid) (players (gameState e)) ->
             removePlayer (addPlayer e p) pid = e).
Proof.
  cbv zeta.
  assert (Hnoop : forall e0, Forall (fun p => playerId p <> pid) (players (gameState e0)) ->
                             removePlayer e0 pid = e0).
  { intros e0 H0. unfold removePlayer. rewrite (others_stay _ _ H0).
    rewrite set_players_same. apply set_gameState_same. }
  assert (Hgone : Forall (fun p => playerId p <> pid)
                         (players (gameState (removePlayer e pid)))).
  { destruct e as [gs ? ? ? ? ?]. destruct gs. cbn. apply removed_is_unknown. }
  split; [|split; [|split; [|split]]].
  - intros p. destruct e as [gs ? ? ? ? ?]. destruct gs. cbn.
    rewrite filter_In. destruct (String.eqb_spec (playerId p) pid); cbn; intuition congruence.
  - intros pos w. apply find_playerId_none in Hgone.
    unfold updatePlayerPosition, playerShoot. rewrite Hgone. split; reflexivity.
  - apply Hnoop, Hgone.
  - apply Hnoop.
  - intros p Hp Hothers. unfold removePlayer, addPlayer.
    destruct e as [gs ? ? ? ? ?]. destruct gs. cbn in *.
    rewrite filter_app, (others_stay _ _ Hothers). cbn.
    destruct (String.eqb_spec (playerId p) pid); [|contradiction]. cbn.
    rewrite app_nil_r. reflexivity.
Qed.

(** [updatePlayerPosition] moves the first player with the given
    [playerId], and only that one: the players before it, and every later
    player (also one with the same id), stay as they are.  The position is
    taken as given, and nothing else of the engine changes; the game's
    status is not consulted. *)
Theorem updatePlayerPosition_moves_the_first_match
  (e : Engine) (pid : string) (pos : Position)
  (before : list Player) (p : Player) (after : list Player) :
  players (gameState e) = before ++ p :: after ->
  Forall (fun q => playerId q <> pid) before ->
  playerId p = pid ->
  let e' := updatePlayerPosition e pid pos in
  let moved := withObj p (set_position p pos) in
  players (gameState e') = before ++ moved :: after /\
  position moved = pos /\ velocity moved = velocity p /\
  playerId moved = pid /\
  e' = set_gameState e (set_players (gameState e) (before ++ moved :: after)).
Proof.
  intros Hplayers Hbefore Hp e' moved.
  destruct (updateFirst_split (fun q => String.eqb (playerId q) pid)
              (fun q => withObj q (set_position q pos)) before p after)
    as [Hfind Hupd].
  { eapply Forall_impl; [|exact Hbefore]. intros q Hq. cbn.
    destruct (String.eqb_spec (playerId q) pid); [contradiction|reflexivity]. }
  { cbn. rewrite Hp. apply String.eqb_refl. }
  assert (He : e' = set_gameState e (set_players (gameState e) (before ++ moved :: after))).
  { unfold e', updatePlayerPosition. rewrite Hplayers, Hfind, Hupd. reflexivity. }
  split; [rewrite He; destruct e as [gs ? ? ? ? ?]; destruct gs; reflexivity|].
  split; [reflexivity|]. split; [reflexivity|]. split; [exact Hp | exact He].
Qed.

Lemma updatePlayerPosition_moves_the_first_match_witness :
  let e' := updatePlayerPosition twin_engine "local_player"%string (mkPosition 50 60) in
  let moved := withObj local_player (set_position local_player (mkPosition 50 60)) in
  players (gameState e')
  = [] ++ moved ::
    [laser_player;
     withObj local_player (set_position local_player (mkPosition 300 700))] /\
  position moved = mkPosition 50 60 /\ velocity moved = velocity local_player /\
  playerId moved = "local_player"%string /\
  e' = set_gameState twin_engine
         (set_players (gameState twin_engine)
            ([] ++ moved ::
             [laser_player;
              withObj local_player (set_position local_player (mkPosition 300 700))])).
Proof.
  apply (updatePlayerPosition_moves_the_first_match twin_engine "local_player"%string
           (mkPosition 50 60) [] local_player
           [laser_player;
            withObj local_player (set_position local_player (mkPosition 300 700))]);
    [reflexivity | constructor | reflexivity].
Defined.

Lemma createBullet_shot (e : Engine) (pos : Position) (vel : Velocity)
                        (owner : string) (w : World) :
  let '(b, w') := createBullet e pos vel (Literal owner) PLAYER_BASIC w in
  player_shot owner pos vel b /\
  isPlayerBullet b = Some (owner_is_known e owner) /\
  cues w' = cues w.
Proof.
  unfold createBullet, player_shot, owner_is_known, bind, ret, Date_now, Math_random.
  cbn. repeat split; reflexivity.
Qed.

(** While the game is in play, [playerShoot] for a known player appends the
    new bullets after the ones in flight and asks for the shoot sound of
    the weapon.  The basic weapon fires one bullet from the player's nose,
    straight up at [bulletSpeed]; the spread shot fires three, 10 apart
    around the nose, all rising at [bulletSpeed] and drifting at -50, 0
    and 50.  Every bullet is of type [playerBasic] with damage 10 and is
    owned by the [playerId]; its [isPlayerBullet] flag tells whether some
    player's [id] (not [playerId]) equals that owner. *)
Theorem playerShoot_fires (e : Engine) (pid : string) (player : Player) (w : World) :
  find (fun p => String.eqb (playerId p) pid) (players (gameState e)) = Some player ->
  gameStatus (gameState e) = PLAYING ->
  let '(e', w') := playerShoot e pid w in
  let up := - bulletSpeed (config e) in
  let x := pos_x (nose player) in
  let y := pos_y (nose player) in
  let owner := playerId player in
  cues w' = cues w ++ [ShootSound (weaponTypeValue (weaponType player))] /\
  (exists fired,
     e' = set_gameState e (set_bullets (gameState e) (bullets (gameState e) ++ fired)) /\
     Forall (fun b => isPlayerBullet b = Some (owner_is_known e owner)) fired /\
     (weaponType player = BASIC_WEAPON ->
      exists b, fired = [b] /\ player_shot owner (nose player) (mkVelocity 0 up) b) /\
     (weaponType player = SPREAD_SHOT ->
      exists b1 b2 b3, fired = [b1; b2; b3] /\
        player_shot owner (mkPosition (x - 10) y) (mkVelocity (-50) up) b1 /\
        player_shot owner (mkPosition x y) (mkVelocity 0 up) b2 /\
        player_shot owner (mkPosition (x + 10) y) (mkVelocity 50 up) b3)).
Proof.
  intros Hfind Hplay.
  unfold playerShoot. rewrite Hfind, Hplay. cbn [gameStatus_eqb].
  unfold createPlayerBullets.
  destruct (weaponType player) eqn:Hweapon;
    unfold bind, ret, playSound, createBullet, Date_now, Math_random; cbn;
    (split; [reflexivity|]); eexists; (split; [reflexivity|]);
    (split; [repeat constructor|]);
    (split; intros Hw; try discriminate Hw).
  - eexists. split; [reflexivity|].
    unfold player_shot, nose. cbn. repeat split; reflexivity.
  - eexists _, _, _. split; [reflexivity|].
    unfold player_shot, nose. cbn. repeat split; try reflexivity; ring.
Qed.

Lemma playerShoot_fires_witness :
  let '(e', w') := playerShoot sample_engine "local_player"%string sample_world in
  let up := - bulletSpeed (config sample_engine) in
  let x := pos_x (nose local_player) in
  let y := pos_y (nose local_player) in
  let owner := playerId local_player in
  cues w' = cues sample_world ++ [ShootSound (weaponTypeValue (weaponType local_player))] /\
  (exists fired,
     e' = set_gameState sample_engine
            (set_bullets (gameState sample_engine)
               (bullets (gameState sample_engine) ++ fired)) /\
     Forall (fun b => isPlayerBullet b = Some (owner_is_known sample_engine owner)) fired /\
     (weaponType local_player = BASIC_WEAPON ->
      exists b, fired = [b] /\ player_shot owner (nose local_player) (mkVelocity 0 up) b) /\
     (weaponType local_player = SPREAD_SHOT ->
      exists b1 b2 b3, fired = [b1; b2; b3] /\
        player_shot owner (mkPosition (x - 10) y) (mkVelocity (-50) up) b1 /\
        player_shot owner (mkPosition x y) (mkVelocity 0 up) b2 /\
        player_shot owner (mkPosition (x + 10) y) (mkVelocity 50 up) b3)).
Proof.
  apply (playerShoot_fires sample_engine "local_player"%string local_player sample_world);
    reflexivity.
Defined.

(** Shots need a game in play.  In any other status [playerShoot] does
    nothing at all: no bullet, no sound, no read of the clock.  So a paused
    or stopped game, and a freshly constructed engine still in the menu,
    ignore the command; the screen's handler also ignores it when its own
    snapshot is not in play or holds no local player. *)
Theorem shots_need_a_game_in_play (e : Engine) (pid : string) (w : World) :
  (gameStatus (gameState e) <> PLAYING -> playerShoot e pid w = (e, w)) /\
  playerShoot (pauseGame e) pid w = (pauseGame e, w) /\
  playerShoot (stopGame e) pid w = (stopGame e, w) /\
  (forall cfg w0, playerShoot (run (create cfg) w0) pid w = (run (create cfg) w0, w)) /\
  (forall snapshot,
     gameStatus snapshot <> PLAYING \/
     find (fun p => isLocalPlayer p) (players snapshot) = None \/
     gameStatus (gameState e) <> PLAYING ->
     Game.handlePlayerShoot e snapshot w = (e, w)).
Proof.
  assert (Hoff : forall e0, gameStatus (gameState e0) <> PLAYING ->
                            forall q, playerShoot e0 q w = (e0, w)).
  { intros e0 H0 q. unfold playerShoot.
    destruct (find _ _); [|reflexivity].
    destruct (gameStatus (gameState e0)); try reflexivity. contradiction. }
  split; [intros H0; apply Hoff, H0|].
  split; [apply Hoff; destruct e as [gs ? ? ? ? ?]; destruct gs; discriminate|].
  split; [apply Hoff; destruct e as [gs ? ? ? ? ?]; destruct gs; discriminate|].
  split; [intros cfg w0; apply Hoff; discriminate|].
  intros snapshot Hs. unfold Game.handlePlayerShoot.
  destruct (gameStatus_eqb (gameStatus snapshot) PLAYING) eqn:Hstat; [|reflexivity].
  destruct Hs as [Hs|[Hs|Hs]].
  - destruct (gameStatus snapshot); try discriminate Hstat. contradiction.
  - rewrite Hs. reflexivity.
  - destruct (find _ (players snapshot)); [apply Hoff, Hs | reflexivity].
Qed.

End Roster.

(** ** Pick-ups and explosions ([GameEngine]) *)

Section Effects.
Import GameEngine.

(** Picking a power-up up switches the power-up off, asks for the pick-up
    sound and leaves the game state (score and statistics included) as it
    is.  Of the player only the health can change, and only a [health]
    power-up changes it: to the health plus the effect's value, capped at
    [maxHealth]; every other type is consumed without any effect.  Whether
    the power-up was still active is not looked at, so one that is already
    switched off heals all the same. *)
Theorem pickup_heals_up_to_the_maximum
  (player : Player) (powerUp : PowerUp) (gs : GameState) (w : World) :
  let '(player', powerUp', gs', w') :=
    handlePlayerPowerUpCollision player powerUp gs w in
  isActive powerUp' = false /\
  powerUp' = withObj powerUp (set_isActive powerUp false) /\
  gs' = gs /\ cues w' = cues w ++ [PowerUpSound] /\
  only_healed player player' /\
  (powerUpType powerUp = HEALTH ->
   health player' == Qmin (health player + effect_value (effect powerUp))
                          (maxHealth player) /\
   health player' <= maxHealth player') /\
  (powerUpType powerUp <> HEALTH -> player' = player) /\
  (health player <= maxHealth player -> health player' <= maxHealth player') /\
  (forall flag,
     fst (fst (fst (handlePlayerPowerUpCollision player
                      (withObj powerUp (set_isActive powerUp flag)) gs w)))
     = player').
Proof.
  unfold handlePlayerPowerUpCollision, applyPowerUp, bind, ret, playSound, only_healed,
    Math_min.
  destruct player as [o pid name sc lv wt held loc]. destruct o.
  destruct powerUp as [uo ut ud ue]. destruct uo. cbn.
  split; [reflexivity|]. split; [reflexivity|]. split; [reflexivity|].
  split; [reflexivity|].
  split; [destruct ut; reflexivity|].
  split; [intros ->; cbn; split; [reflexivity | apply Q.le_min_r]|].
  split; [destruct ut; intros Hu; try reflexivity; contradiction|].
  split; [intros Hh; destruct ut; cbn; try exact Hh; apply Q.le_min_r|].
  intros flag. destruct ut; reflexivity.
Qed.

Lemma time_passed_shift (d : number) (rest : list number) (first : number) :
  time_passed (first + d) rest == first + time_passed d rest.
Proof.
  unfold time_passed. revert first d.
  induction rest as [|r rest IH]; intros first d; cbn.
  - reflexivity.
  - rewrite (IH (first + d) r), (IH d r). ring.
Qed.

Lemma time_passed_nonneg (first : number) (rest : list number) :
  0 <= first -> Forall (fun d => 0 <= d) rest -> 0 <= time_passed first rest.
Proof.
  unfold time_passed. intros Hf Hr. revert first Hf.
  induction Hr as [|r rest Hr _ IH]; intros first Hf; cbn.
  - exact Hf.
  - apply IH. lra.
Qed.

Lemma Math_min_compat (a a' : number) : a == a' -> Math_min a 1 == Math_min a' 1.
Proof. intros Ha. unfold Math_min. rewrite Ha. reflexivity. Qed.

Lemma outlasts_compat (t t' : number) (x x' : Explosion) :
  t == t' -> currentFrame x' == currentFrame x -> duration x' = duration x ->
  outlasts t x' = outlasts t' x.
Proof.
  intros Ht Hc Hd. unfold outlasts. rewrite Hd.
  destruct (currentFrame x + t' <? duration x) eqn:E; reflect_cmp.
  - apply Qltb_lt. rewrite Hc, Ht. exact E.
  - apply Qltb_ge. rewrite Hc, Ht. exact E.
Qed.

(** One frame: the explosions with time left after it, each aged by it. *)
Lemma updateExplosions_step (gs : GameState) (dt : number) :
  Forall2 (aged dt) (filter (outlasts dt) (explosions gs))
          (explosions (updateExplosions gs dt)).
Proof.
  unfold updateExplosions. destruct gs as [ps es bs us xs ? ? ? ? ? ? ? ? ? ? ?]. cbn.
  induction xs as [|x xs IH]; cbn.
  - constructor.
  - unfold outlasts at 1.
    destruct (currentFrame x + dt <? duration x) eqn:E.
    + constructor; [|exact IH].
      unfold aged, ageExplosion. cbn. repeat split; reflexivity.
    + exact IH.
Qed.

Lemma aged_chain (dt total : number) (xs ys zs : list Explosion) :
  0 <= total ->
  Forall2 (aged dt) (filter (outlasts dt) xs) ys ->
  Forall2 (aged total) (filter (outlasts total) ys) zs ->
  Forall2 (aged (dt + total)) (filter (outlasts (dt + total)) xs) zs.
Proof.
  intros Htotal. revert ys zs.
  induction xs as [|x xs IH]; intros ys zs Hys Hzs; cbn in *.
  - inversion Hys; subst. cbn in Hzs. inversion Hzs; subst. constructor.
  - unfold outlasts at 1 in Hys. unfold outlasts at 1.
    destruct (currentFrame x + dt <? duration x) eqn:E1.
    + inversion Hys as [|x0 y xs0 ys' Hxy Hrest]; subst. cbn in Hzs.
      destruct Hxy as (Hid & Hpos & Hsz & Hdur & Hframe & Hprog).
      assert (Hsame : outlasts total y = outlasts (dt + total) x).
      { unfold outlasts. rewrite Hdur.
        destruct (currentFrame x + (dt + total) <? duration x) eqn:E; reflect_cmp.
        - apply Qltb_lt. rewrite Hframe. lra.
        - apply Qltb_ge. rewrite Hframe. lra. }
      rewrite Hsame in Hzs. fold (outlasts (dt + total) x).
      destruct (outlasts (dt + total) x).
      * inversion Hzs as [|y0 z ys0 zs' Hyz Hrest']; subst.
        constructor; [|exact (IH _ _ Hrest Hrest')].
        destruct Hyz as (Hid' & Hpos' & Hsz' & Hdur' & Hframe' & Hprog').
        unfold aged. rewrite Hid', Hpos', Hsz', Hdur', Hid, Hpos, Hsz, Hdur.
        repeat split; try reflexivity.
        -- rewrite Hframe', Hframe. ring.
        -- rewrite Hprog', Hdur', Hdur. reflexivity.
      * exact (IH _ _ Hrest Hzs).
    + reflect_cmp.
      assert (Hout : (currentFrame x + (dt + total) <? duration x) = false)
        by (apply Qltb_ge; lra).
      rewrite Hout. exact (IH _ _ Hys Hzs).
Qed.

Lemma aged_compat (t t' : number) (xs zs : list Explosion) :
  t == t' ->
  Forall2 (aged t) (filter (outlasts t) xs) zs ->
  Forall2 (aged t') (filter (outlasts t') xs) zs.
Proof.
  intros Ht. revert zs. induction xs as [|x xs IH]; intros zs H; cbn in *.
  - inversion H; subst. constructor.
  - rewrite <- (outlasts_compat t t' x x Ht (Qeq_refl _) eq_refl).
    destruct (outlasts t x).
    + inversion H as [|x0 z xs0 zs' Hxz Hrest]; subst.
      constructor; [|exact (IH _ Hrest)].
      destruct Hxz as (Hid & Hpos & Hsz & Hdur & Hframe & Hprog).
      unfold aged. repeat split; try assumption. rewrite Hframe, Ht. reflexivity.
    + exact (IH _ H).
Qed.

(** An explosion lasts for its [duration] of game time.  After one or more
    frames whose time steps are not negative, the explosions left are, in
    order, exactly those whose [currentFrame] plus the time passed is still
    below their [duration] (500 ms from creation), each with that time
    added to its [currentFrame] and its progress set to the matching
    fraction, capped at 1; so whatever is left has time to run. *)
Theorem explosions_last_their_duration
  (gs : GameState) (first : number) (rest : list number) :
  0 <= first -> Forall (fun d => 0 <= d) rest ->
  let total := time_passed first rest in
  let gs' := age_through gs (first :: rest) in
  Forall2 (aged total) (filter (outlasts total) (explosions gs)) (explosions gs') /\
  Forall (fun x' => currentFrame x' < duration x') (explosions gs') /\
  set_explosions gs' (explosions gs) = gs.
Proof.
  intros Hfirst Hrest. cbv zeta.
  assert (Hmain : Forall2 (aged (time_passed first rest))
                    (filter (outlasts (time_passed first rest)) (explosions gs))
                    (explosions (age_through gs (first :: rest)))).
  { revert gs first Hfirst.
    induction Hrest as [|d rest Hd Hrest IH]; intros gs first Hfirst.
    - apply updateExplosions_step.
    - apply (aged_compat (first + time_passed d rest)).
      + symmetry. apply (time_passed_shift d rest first).
      + apply (aged_chain first (time_passed d rest) (explosions gs)
                 (explosions (updateExplosions gs first))).
        * apply time_passed_nonneg; assumption.
        * apply updateExplosions_step.
        * exact (IH (updateExplosions gs first) d Hd). }
  split; [exact Hmain|]. split.
  - remember (explosions (age_through gs (first :: rest))) as zs eqn:Hzs. clear Hzs.
    remember (filter (outlasts (time_passed first rest)) (explosions gs)) as xs eqn:Hxs.
    assert (Hin : Forall (fun x => outlasts (time_passed first rest) x = true) xs).
    { subst xs. apply Forall_forall. intros x Hx. apply filter_In in Hx. apply Hx. }
    clear Hxs. induction Hmain as [|x z xs zs Hxz _ IH]; [constructor|].
    inversion Hin as [|x0 xs0 Hx Hin']; subst.
    constructor; [|exact (IH Hin')].
    destruct Hxz as (_ & _ & _ & Hdur & Hframe & _).
    unfold outlasts in Hx. reflect_cmp. rewrite Hframe, Hdur. exact Hx.
  - clear Hmain. unfold age_through. revert gs. generalize (first :: rest) as dts.
    induction dts as [|d dts IH]; intros gs; cbn.
    + destruct gs; reflexivity.
    + replace (set_explosions (fold_left updateExplosions dts (updateExplosions gs d))
                              (explosions gs))
        with (set_explosions
                (set_explosions (fold_left updateExplosions dts (updateExplosions gs d))
                                (explosions (updateExplosions gs d)))
                (explosions gs))
        by (destruct (fold_left updateExplosions dts (updateExplosions gs d)); reflexivity).
      rewrite IH. destruct gs; reflexivity.
Qed.

Lemma explosions_last_their_duration_witness :
  let total := time_passed 16 [17; 16] in
  let gs' := age_through two_blasts [16; 17; 16] in
  Forall2 (aged total) (filter (outlasts total) (explosions two_blasts))
          (explosions gs') /\
  Forall (fun x' => currentFrame x' < duration x') (explosions gs') /\
  set_explosions gs' (explosions two_blasts) = two_blasts.
Proof.
  apply (explosions_last_their_duration two_blasts 16 [17; 16]).
  - lra.
  - repeat constructor; lra.
Defined.

(** In the witness the early explosion is left, 49 ms older; the late one
    has burnt out. *)
Example explosions_of_the_witness :
  map explosion_id (explosions (age_through two_blasts [16; 17; 16])) = [Literal "early"] /\
  map currentFrame (explosions (age_through two_blasts [16; 17; 16])) = [100 + 16 + 17 + 16].
Proof. split; reflexivity. Qed.

End Effects.

(** ** The touch input (Game.tsx) and the physics *)

Section Touch.
Context {math : MathLib}.
Import PhysicsEngine.

(** On a window of at least 60 x 200 the touch handler puts the player's
    centre into the rectangle [30, W - 30] x [50, H - 150], at the touch
    point itself when that lies inside.  A player no larger than 60 x 100
    (the game's player is 40 x 40) placed there is inside its playfield,
    so the physics of a frame leave a player at rest where the touch put
    it. *)
Theorem touch_keeps_the_player_in_the_playfield
  (W H pageX pageY : number) (p : Player) :
  60 <= W -> 200 <= H ->
  width (size p) <= 60 -> height (size p) <= 100 ->
  let cfg := Game.GAME_CONFIG W H in
  let pos := Game.touchPosition W H pageX pageY in
  let placed := withObj p (set_position p pos) in
  in_touch_area W H pos /\
  (in_touch_area W H (mkPosition pageX pageY) -> same_point pos (mkPosition pageX pageY)) /\
  in_playfield cfg placed /\
  (forall ds, still p -> same_position placed (updatePlayer cfg ds placed)).
Proof.
  intros HW HH Hw Hh cfg pos placed.
  assert (Harea : in_touch_area W H pos).
  { unfold in_touch_area, pos, Game.touchPosition, Math_max, Math_min. cbn.
    destruct (Q.max_spec 30 (Qmin (W - 30) pageX)) as [[Hx1 Hx2]|[Hx1 Hx2]];
      destruct (Q.min_spec (W - 30) pageX) as [[Hx3 Hx4]|[Hx3 Hx4]];
      destruct (Q.max_spec 50 (Qmin (H - 150) pageY)) as [[Hy1 Hy2]|[Hy1 Hy2]];
      destruct (Q.min_spec (H - 150) pageY) as [[Hy3 Hy4]|[Hy3 Hy4]];
      rewrite Hx2, Hy2; repeat split; lra. }
  assert (Hfield : in_playfield cfg placed).
  { destruct Harea as (H1 & H2 & H3 & H4).
    unfold in_playfield, placed, cfg, Game.GAME_CONFIG.
    destruct p as [o ? ? ? ? ? ? ?]; destruct o; cbn in *.
    repeat split; qlra. }
  split; [exact Harea|]. split; [|split; [exact Hfield|]].
  - unfold in_touch_area, same_point, pos, Game.touchPosition, Math_max, Math_min. cbn.
    intros (H1 & H2 & H3 & H4).
    destruct (Q.max_spec 30 (Qmin (W - 30) pageX)) as [[Hx1 Hx2]|[Hx1 Hx2]];
      destruct (Q.min_spec (W - 30) pageX) as [[Hx3 Hx4]|[Hx3 Hx4]];
      destruct (Q.max_spec 50 (Qmin (H - 150) pageY)) as [[Hy1 Hy2]|[Hy1 Hy2]];
      destruct (Q.min_spec (H - 150) pageY) as [[Hy3 Hy4]|[Hy3 Hy4]];
      rewrite Hx2, Hy2; split; lra.
  - intros ds [Hvx Hvy].
    destruct (updatePlayer_spec cfg ds placed) as (_ & Hoff & Hon).
    destruct (isActive placed) eqn:Hact.
    + specialize (Hon eq_refl).
      destruct (updateGameObject_spec placed ds) as (Hx & Hy & _ & Hsz & _).
      assert (Hin : in_playfield cfg (updateGameObject placed ds)).
      { destruct Hfield as (H1 & H2 & H3 & H4). unfold in_playfield.
        rewrite Hx, Hy, Hsz.
        assert (Hvx' : vel_x (velocity placed) == 0)
          by (destruct p as [o ? ? ? ? ? ? ?]; destruct o; exact Hvx).
        assert (Hvy' : vel_y (velocity placed) == 0)
          by (destruct p as [o ? ? ? ? ? ? ?]; destruct o; exact Hvy).
        rewrite Hvx', Hvy'. repeat split; qlra. }
      destruct (constrainToScreen_spec cfg (updateGameObject placed ds))
        as (_ & _ & _ & _ & _ & _ & Hsame).
      unfold same_position. rewrite Hon, (Hsame Hin), Hx, Hy.
      assert (Hvx' : vel_x (velocity placed) == 0)
        by (destruct p as [o ? ? ? ? ? ? ?]; destruct o; exact Hvx).
      assert (Hvy' : vel_y (velocity placed) == 0)
        by (destruct p as [o ? ? ? ? ? ? ?]; destruct o; exact Hvy).
      rewrite Hvx', Hvy'. split; ring.
    + rewrite (Hoff eq_refl). split; reflexivity.
Qed.

End Touch.

Lemma touch_keeps_the_player_in_the_playfield_witness :
  let cfg := Game.GAME_CONFIG 400 800 in
  let pos := Game.touchPosition 400 800 (-5) 790 in
  let placed := withObj local_player (set_position local_player pos) in
  in_touch_area 400 800 pos /\
  (in_touch_area 400 800 (mkPosition (-5) 790) -> same_point pos (mkPosition (-5) 790)) /\
  in_playfield cfg placed /\
  (forall ds, still local_player ->
              same_position placed
                (PhysicsEngine.updatePlayer (math := flat_math) cfg ds placed)).
Proof.
  apply (touch_keeps_the_player_in_the_playfield (math := flat_math)
           400 800 (-5) 790 local_player); cbn; lra.
Defined.

(** A touch outside the window, at (-5, 790), puts the player at (30, 650). *)
Example touch_is_clamped :
  same_point (Game.touchPosition 400 800 (-5) 790) (mkPosition 30 650).
Proof. split; reflexivity. Qed.

(** ** The radius search ([CollisionDetection]) *)

Section Radius.
Context {math : MathLib}.
Import CollisionDetection.

Lemma narrowing (objects : list GameObject) (center : Position)
                (narrow wide : number) :
  narrow <= wide ->
  getObjectsInRadius (getObjectsInRadius objects center wide) center narrow
  = getObjectsInRadius objects center narrow.
Proof.
  intros Hle. unfold getObjectsInRadius. cbn.
  induction objects as [|o rest IH]; cbn.
  - reflexivity.
  - destruct (isActive o) eqn:Hact; cbn; [|exact IH].
    destruct (getDistance center (position o) <=? wide) eqn:Ew; cbn.
    + rewrite Hact. cbn.
      destruct (getDistance center (position o) <=? narrow); rewrite IH; reflexivity.
    + destruct (getDistance center (position o) <=? narrow) eqn:En; [|exact IH].
      reflect_cmp. exfalso. lra.
Qed.

(** [getObjectsInRadius] returns, in order, the active objects whose
    distance from the centre is at most the radius.  A wider radius finds
    at least what a narrower one finds, and searching the result of the
    wider search with the narrower radius gives the narrower search.
    Every object found lies in a circle of any radius [r1] around the
    centre, as [checkCircularCollision] sees it with a circle of radius
    [r2] around the object, once [r1 + r2] exceeds the search radius. *)
Theorem radius_search_widens
  (objects : list GameObject) (center : Position) (narrow wide : number) :
  narrow <= wide ->
  let found := getObjectsInRadius objects center narrow in
  let found_wide := getObjectsInRadius objects center wide in
  (forall o, In o found <->
             In o objects /\ isActive o = true /\
             getDistance center (position o) <= narrow) /\
  incl found found_wide /\
  getObjectsInRadius found_wide center narrow = found /\
  (forall o r1 r2, In o found -> narrow < r1 + r2 ->
                   checkCircularCollision center r1 (position o) r2 = true).
Proof.
  intros Hle found found_wide.
  assert (Hin : forall r o, In o (getObjectsInRadius objects center r) <->
                            In o objects /\ isActive o = true /\
                            getDistance center (position o) <= r).
  { intros r o. unfold getObjectsInRadius. rewrite filter_In. cbn.
    destruct (isActive o); cbn.
    - rewrite Qleb_le. tauto.
    - split; [intros [_ Hf]; discriminate | intros (_ & Hf & _); discriminate]. }
  split; [apply Hin|]. split; [|split].
  - intros o Ho. apply Hin. apply Hin in Ho. destruct Ho as (H1 & H2 & H3).
    split; [exact H1|]. split; [exact H2|]. lra.
  - apply narrowing, Hle.
  - intros o r1 r2 Ho Hr. apply Hin in Ho. destruct Ho as (_ & _ & Hd).
    unfold checkCircularCollision. cbv zeta. apply Qltb_lt.
    unfold getDistance in Hd. cbv zeta in Hd. lra.
Qed.

End Radius.

Lemma radius_search_widens_witness :
  let found := CollisionDetection.getObjectsInRadius (math := root_math)
                 scattered (mkPosition 0 0) 5 in
  let found_wide := CollisionDetection.getObjectsInRadius (math := root_math)
                      scattered (mkPosition 0 0) 10 in
  (forall o, In o found <->
             In o scattered /\ isActive o = true /\
             CollisionDetection.getDistance (math := root_math)
               (mkPosition 0 0) (position o) <= 5) /\
  incl found found_wide /\
  CollisionDetection.getObjectsInRadius (math := root_math) found_wide (mkPosition 0 0) 5
  = found /\
  (forall o r1 r2, In o found -> 5 < r1 + r2 ->
                   CollisionDetection.checkCircularCollision (math := root_math)
                     (mkPosition 0 0) r1 (position o) r2 = true).
Proof.
  apply (radius_search_widens (math := root_math) scattered (mkPosition 0 0) 5 10). lra.
Defined.

(** Around the origin, radius 5 finds the near object only; radius 10 also
    finds the one at distance 10, and never the one switched off. *)
Example radius_search_of_the_witness :
  map id (CollisionDetection.getObjectsInRadius (math := root_math)
            scattered (mkPosition 0 0) 5) = [Literal "near"] /\
  map id (CollisionDetection.getObjectsInRadius (math := root_math)
            scattered (mkPosition 0 0) 10) = [Literal "near"; Literal "mid"].
Proof. split; reflexivity. Qed.
